(** * VisionAI-ClipsMaster: hardware kernels, capability detection, memory probe

    A shallow embedding of

    - [src/hardware/pipeline_opt.c]: CPUID feature detection and the
      optimisation level derived from it;
    - [src/hardware/assembly_kernels.cpp]: the optimisation level of the
      build, and the [asm_*] kernels (add, scale, dot product, bitwise
      or/and, matrix product), one branch per instruction set;
    - [src/hardware/simd_kernels.cpp]: the element-wise kernels, one per
      instruction set, the naive and the cache-blocked matrix product
      and their dispatch;
    - [src/probes/memory_probes.c]: the memory threshold probe, its
      static peak across calls, [fast_mem_check], and the readers of
      /proc/self/status and /proc/meminfo;
    - [src/hardware/assembly_kernels.h] and [get_platform_info]: the
      platform and architecture symbols and the platform code;
    - [get_cpu_brand_string] and [get_cpu_features_string] of
      [pipeline_opt.c]: the texts and their static buffers;

    followed by the properties established about them: first those the
    specification states, then further properties of the code.

    Conventions.  A C [int] / [unsigned] / [uint64_t] is a [Z] (or [N]).
    The loop bound [size - W] of the element-wise [asm_*] kernels and of
    [asm_vector_dot] is computed as the 32-bit [int] it is ([int_sub]);
    what is proved about these kernels is stated for the sizes at which
    that subtraction does not overflow.  The other index and size
    expressions (among them the [K - 4] of [asm_matrix_multiply], whose
    arguments are matrix dimensions) are taken in the range where C
    computes them without overflow.  A buffer handed to a kernel
    through a pointer is a total map from element index to element;
    the caller's buffer of [size] elements is the index range
    [0 .. size-1], and the element-wise kernels log every index they
    load or store, so that an access outside that range is visible in
    the log.  Distinct pointer arguments are distinct, non-overlapping
    buffers.  The element type and its arithmetic are a type class,
    instantiated with IEEE-754 binary32 (the C [float]) and with [Z]
    (the C [int], and exact arithmetic).  The Accelerate branches
    ([PLATFORM_MACOS && __APPLE__]) of the [asm_*] kernels call a
    library outside the repository and have no model here. *)

From Stdlib Require Import ZArith NArith List Bool Lia String QArith Qabs.
From Stdlib Require Import Floats.SpecFloat.
From Stdlib Require Import Ascii.
From Stdlib Require DecimalString DecimalZ.
Import ListNotations.

Local Open Scope Z_scope.

(* ===================================================================== *)
(** * Capability detection: [pipeline_opt.c]                             *)
(* ===================================================================== *)

Module PipelineOpt.

(** The four registers filled by one CPUID query. *)
Record regs := mkRegs { eax : Z; ebx : Z; ecx : Z; edx : Z }.

(** The two compile-time variants of every function of the file:
    [#if defined(_MSC_VER)] ... [#else] ... [#endif]. *)
Inductive compiler := MSVC | GNU.

(** The queries the file relies on are not code of this repository; they
    are taken as they are declared: [__get_cpuid] and [__get_cpuid_count]
    of <cpuid.h> return 0 (here [None]) when the leaf is not supported,
    leaving the four variables they were handed as they are, and fill
    all four otherwise; [__cpuid] of <intrin.h> always fills its
    array. *)
Record cpu := mkCpu {
  get_cpuid       : Z -> option regs;
  get_cpuid_count : Z -> Z -> option regs;
  msvc_cpuid      : Z -> regs
}.

(** [if (r & (1 << bit)) features |= flag;] *)
Definition set_if (r bit flag features : Z) : Z :=
  if Z.land r (Z.shiftl 1 bit) =? 0 then features else Z.lor features flag.

(** The common tail of [detect_cpu_features], after [ebx], [ecx] and
    [edx] have been obtained. *)
Definition feature_bits (ebx ecx edx : Z) : Z :=
  let features := 0 in
  let features := set_if edx 25 1 features in     (* SSE    *)
  let features := set_if edx 26 2 features in     (* SSE2   *)
  let features := set_if ecx 0 4 features in      (* SSE3   *)
  let features := set_if ecx 9 8 features in      (* SSSE3  *)
  let features := set_if ecx 19 16 features in    (* SSE4.1 *)
  let features := set_if ecx 20 32 features in    (* SSE4.2 *)
  let features := set_if ecx 28 64 features in    (* AVX    *)
  let features := set_if ebx 5 128 features in    (* AVX2   *)
  features.

Definition detect_cpu_features (cc : compiler) (c : cpu) : Z :=
  match cc with
  | MSVC =>
      let info1 := msvc_cpuid c 1 in
      let ecx := ecx info1 in
      let edx := edx info1 in
      let info7 := msvc_cpuid c 7 in
      let ebx := ebx info7 in
      feature_bits ebx ecx edx
  | GNU =>
      (* unsigned int eax, ebx, ecx, edx; filled by the first query *)
      match get_cpuid c 1 with
      | None => 0
      | Some r1 =>
          (* the second query is handed the same four variables: when it
             succeeds it overwrites [ecx] and [edx] as well; when it
             fails only [ebx] is cleared *)
          let r := match get_cpuid_count c 7 0 with
                   | None => mkRegs (eax r1) 0 (ecx r1) (edx r1)
                   | Some r7 => r7
                   end in
          feature_bits (ebx r) (ecx r) (edx r)
      end
  end.

(** [return (edx & (1 << 9)) != 0;] *)
Definition detect_prefetch_support (cc : compiler) (c : cpu) : Z :=
  match cc with
  | MSVC =>
      if Z.land (edx (msvc_cpuid c 1)) (Z.shiftl 1 9) =? 0 then 0 else 1
  | GNU =>
      match get_cpuid c 1 with
      | None => 0
      | Some r => if Z.land (edx r) (Z.shiftl 1 9) =? 0 then 0 else 1
      end
  end.

(** [((ebx >> 8) & 0xff) * 8], and 64 when that is not positive. *)
Definition clflush_line_size (ebx : Z) : Z :=
  Z.land (Z.shiftr ebx 8) 255 * 8.

Definition get_cache_line_size (cc : compiler) (c : cpu) : Z :=
  match cc with
  | MSVC =>
      let sz := clflush_line_size (ebx (msvc_cpuid c 1)) in
      if 0 <? sz then sz else 64
  | GNU =>
      match get_cpuid c 1 with
      | None => 64
      | Some r =>
          let sz := clflush_line_size (ebx r) in
          if 0 <? sz then sz else 64
      end
  end.

(** C truth value of an [int]. *)
Definition truthy (x : Z) : bool := negb (x =? 0).

Definition is_pipeline_opt_supported (cc : compiler) (c : cpu) : Z :=
  let features := detect_cpu_features cc c in
  let prefetch_support := detect_prefetch_support cc c in
  let cache_line_size := get_cache_line_size cc c in
  if truthy (Z.land features 128) && truthy prefetch_support then 2
  else if truthy (Z.land features 32) && truthy prefetch_support then 1
  else 0.

(** The base query (leaf 1) as each variant issues it: [None] when the
    query reports failure, which only [__get_cpuid] can do. *)
Definition base_query (cc : compiler) (c : cpu) : option regs :=
  match cc with
  | MSVC => Some (msvc_cpuid c 1)
  | GNU => get_cpuid c 1
  end.

End PipelineOpt.

(* ===================================================================== *)
(** * Build configuration                                                *)
(* ===================================================================== *)

(** The preprocessor symbols the kernels are selected by: the platform
    and architecture symbols defined by [assembly_kernels.h], and the
    instruction-set macros predefined by the compiler. *)
Module Build.

Inductive arch := ARCH_X86_64 | ARCH_X86 | ARCH_ARM | ARCH_ARM64 | ARCH_NONE.
Inductive platform :=
  PLATFORM_WINDOWS | PLATFORM_MACOS | PLATFORM_LINUX | PLATFORM_ANDROID
| PLATFORM_NONE.

Record macros := mkMacros {
  def_AVX512F  : bool;    (* __AVX512F__ *)
  def_AVX2     : bool;    (* __AVX2__    *)
  def_AVX      : bool;    (* __AVX__     *)
  def_SSE4_2   : bool;    (* __SSE4_2__  *)
  def_ARM_NEON : bool;    (* __ARM_NEON  *)
  def_FMA      : bool;    (* __FMA__     *)
  def_MSC_VER  : bool;    (* _MSC_VER    *)
  def_APPLE    : bool     (* __APPLE__   *)
}.

Record build := mkBuild {
  b_arch     : arch;
  b_platform : platform;
  b_macros   : macros
}.

End Build.

(* ===================================================================== *)
(** * Optimisation level of [assembly_kernels.cpp]                       *)
(* ===================================================================== *)

Module AsmLevel.
Import Build.

(** The raw [cpuid] instruction (inline assembly, or [__cpuid]): leaf and
    sub-leaf to (eax, ebx, ecx, edx). *)
Definition cpuid_insn := Z -> Z -> PipelineOpt.regs.

Definition bit_set (r bit : Z) : bool := negb (Z.land r (Z.shiftl 1 bit) =? 0).

Definition get_assembly_optimization_level (b : build) (cpuid : cpuid_insn) : Z :=
  let m := b_macros b in
  let level := 0 in
  let level :=
    match b_arch b with
    | ARCH_X86_64 | ARCH_X86 =>
        if def_AVX2 m then 2
        else if def_AVX m || def_SSE4_2 m then 1
        else if def_MSC_VER m then
          let cpuInfo := cpuid 1 0 in
          if bit_set (PipelineOpt.ecx cpuInfo) 28 then 2
          else if bit_set (PipelineOpt.ecx cpuInfo) 19 then 1
          else level
        else
          let r1 := cpuid 1 0 in
          let level := if bit_set (PipelineOpt.ecx r1) 19 then 1 else level in
          let r7 := cpuid 7 0 in
          let level := if bit_set (PipelineOpt.ebx r7) 5 then 2 else level in
          level
    | ARCH_ARM64 => 2
    | ARCH_ARM => if def_ARM_NEON m then 1 else level
    | ARCH_NONE => level
    end in
  let level :=
    match b_platform b with
    | PLATFORM_MACOS => 2
    | _ => level
    end in
  level.

End AsmLevel.

(* ===================================================================== *)
(** * The memory probe: [memory_probes.c]                                *)
(* ===================================================================== *)

Module MemoryProbes.

Record MemoryProbe := mkProbe {
  name      : option string;     (* NULL or a C string *)
  location  : option string;
  threshold : N;                 (* uint64_t, MB *)
  timestamp : N;
  level     : Z
}.

Record MemoryProbeResult := mkResult {
  current_memory     : N;
  peak_memory        : N;
  available_memory   : N;
  r_timestamp        : N;
  threshold_exceeded : Z;
  error_code         : Z
}.

(** What the operating system answers during one call: the values of
    [current_mem()], [available_mem()] and [time(NULL)]. *)
Record os := mkOs { current_mem : N; available_mem : N; time_now : N }.

(** What outlives a call: the function-local [static peak_memory] of
    [mem_probe] and the alerts written to [stderr] by [log_alert], each
    recorded as (probe name, current MB, threshold MB). *)
Record world := mkWorld { static_peak : N; alerts : list (string * N * N) }.

(** [memset(result, 0, sizeof(MemoryProbeResult))] *)
Definition zero_result : MemoryProbeResult := mkResult 0 0 0 0 0 0.

Definition set_timestamp (t : N) (r : MemoryProbeResult) :=
  mkResult (current_memory r) (peak_memory r) (available_memory r) t
           (threshold_exceeded r) (error_code r).
Definition set_usage (cur peak avail : N) (r : MemoryProbeResult) :=
  mkResult cur peak avail (r_timestamp r) (threshold_exceeded r) (error_code r).
Definition set_exceeded (e : Z) (r : MemoryProbeResult) :=
  mkResult (current_memory r) (peak_memory r) (available_memory r)
           (r_timestamp r) e (error_code r).

(** [mem_probe]: [probe] and [result] are pointers, possibly NULL; the
    function returns [exceeded], the object [result] points to after the
    call, and the new world. *)
Definition mem_probe (o : os) (probe : option MemoryProbe)
    (result : option MemoryProbeResult) (w : world)
  : Z * option MemoryProbeResult * world :=
  (* if (result) { memset; result->timestamp = time(NULL); } *)
  let result := option_map (fun _ => set_timestamp (time_now o) zero_result) result in
  let mem_usage := current_mem o in
  let mem_available := available_mem o in
  (* if (result) { ...; static peak_memory update; } *)
  let '(result, peak) :=
    match result with
    | Some r =>
        let peak := if (static_peak w <? mem_usage)%N then mem_usage else static_peak w in
        (Some (set_usage mem_usage peak mem_available r), peak)
    | None => (None, static_peak w)
    end in
  let exceeded := 0 in
  match probe with
  | Some p =>
      if (0 <? threshold p)%N && (threshold p <? mem_usage)%N then
        let exceeded := 1 in
        let log :=
          match name p with
          | Some nm => alerts w ++ [(nm, mem_usage, threshold p)]
          | None => alerts w
          end in
        let result := option_map (set_exceeded 1) result in
        (exceeded, result, mkWorld peak log)
      else (exceeded, result, mkWorld peak (alerts w))
  | None => (exceeded, result, mkWorld peak (alerts w))
  end.

Definition check_memory_usage (o : os) (probe_name : option string)
    (threshold : N) (result : option MemoryProbeResult) (w : world)
  : Z * option MemoryProbeResult * world :=
  let probe := mkProbe probe_name (Some "API call"%string) threshold (time_now o) 2 in
  mem_probe o (Some probe) result w.

End MemoryProbes.

(* ===================================================================== *)
(** * Elements, loops and buffers                                        *)
(* ===================================================================== *)

(** The arithmetic a kernel is written with: [0.0f], [+] and [*]. *)
Class Arith (V : Type) := {
  zero : V;
  add  : V -> V -> V;
  mul  : V -> V -> V
}.

(** A fused multiply-add instruction ([_mm512_fmadd_ps],
    [_mm256_fmadd_ps]): [fmadd a b c] is [a*b+c] with one rounding. *)
Class Fused (V : Type) := { fmadd : V -> V -> V -> V }.

(** The C [float]: IEEE-754 binary32, 24 bits of precision and exponent
    bound 128, round to nearest even. *)
Definition binary32 := spec_float.

#[export] Instance binary32_arith : Arith binary32 := {
  zero := S754_zero false;
  add  := SFadd 24 128;
  mul  := SFmul 24 128
}.

(** The fused multiply-add of binary32, as IEEE 754 defines it: for
    finite operands the exact [x * y + z] is rounded once.  A finite
    product with a zero addend is the rounded product, and with an
    infinite addend it is the addend.  When [x] or [y] is not finite
    (zero, infinity, NaN) the product is exact, so that the two-step
    value is the fused one. *)
Definition b32_fma (x y z : binary32) : binary32 :=
  match x, y, z with
  | S754_finite sx mx ex, S754_finite sy my ey, S754_finite sz mz ez =>
      let e := Z.min (ex + ey) ez in
      binary_normalize 24 128
        (cond_Zopp (xorb sx sy) (Z.pos (fst (shl_align (mx * my) (ex + ey) e)))
         + cond_Zopp sz (Z.pos (fst (shl_align mz ez e))))
        e false
  | S754_finite _ _ _, S754_finite _ _ _, S754_zero _ => SFmul 24 128 x y
  | S754_finite _ _ _, S754_finite _ _ _, S754_infinity _ => z
  | _, _, _ => SFadd 24 128 (SFmul 24 128 x y) z
  end.

#[export] Instance binary32_fused : Fused binary32 := { fmadd := b32_fma }.

(** The binary32 value of an integer literal such as [70.0f]. *)
Definition b32_of_Z (z : Z) : binary32 := binary_normalize 24 128 z 0 false.

(** Exact arithmetic: integers. *)
#[export] Instance Z_arith : Arith Z := {
  zero := 0;
  add  := Z.add;
  mul  := Z.mul
}.

#[export] Instance Z_fused : Fused Z := { fmadd := fun a b c => a * b + c }.

(** The exact rational value of a finite binary32 (and 0 for the others,
    which the properties below never compare). *)
Definition b32_to_Q (x : binary32) : Q :=
  match x with
  | S754_finite s m e =>
      let v := (inject_Z (Z.pos m) * Qpower 2 e)%Q in
      if s then Qopp v else v
  | _ => 0%Q
  end.

(** [x] and [y] agree within relative tolerance [rtol]: their distance
    is at most [rtol] times the larger of the two magnitudes. *)
Definition within_rel_tol (rtol x y : Q) : Prop :=
  (Qabs (x - y) <= rtol * Qabs x)%Q \/ (Qabs (x - y) <= rtol * Qabs y)%Q.

(** The exact sum of the magnitudes [|a_i * b_i|] of the first [n]
    products of two binary32 vectors (each partial sum kept in lowest
    terms): the scale of a tolerance that is relative to the terms
    rather than to the results. *)
Definition sum_abs_products (A B : Z -> binary32) (n : nat) : Q :=
  fold_left (fun acc i => Qred (acc + Qabs (b32_to_Q (A i) * b32_to_Q (B i))))
            (map Z.of_nat (seq 0 n)) 0%Q.

(** The C [int] of the kernels: 32 bits, two's complement. *)
Definition INT_MIN : Z := - 2 ^ 31.
Definition INT_MAX : Z := 2 ^ 31 - 1.

(** The [int] an arithmetic result [x] becomes: [x] itself when it is
    representable.  Beyond that C leaves the behaviour undefined; the
    value taken here is the two's-complement one, which is what the
    subtraction instruction of an unoptimised build leaves. *)
Definition int_wrap (x : Z) : Z := (x + 2 ^ 31) mod 2 ^ 32 - 2 ^ 31.

(** [a - b] on [int]. *)
Definition int_sub (a b : Z) : Z := int_wrap (a - b).

Section Loops.
Context {S : Type}.

(** A C [for] loop whose header is [for (; cond(i); i += step)]: the
    body is run while the condition holds; the final value of [i] is
    returned with the final state, since the [asm_*] kernels go on with
    it.  [fuel] bounds the number of iterations. *)
Fixpoint for_loop (fuel : nat) (cond : Z -> bool) (step : Z)
    (body : Z -> S -> S) (i : Z) (s : S) : Z * S :=
  match fuel with
  | O => (i, s)
  | Datatypes.S fuel' =>
      if cond i then for_loop fuel' cond step body (i + step) (body i s)
      else (i, s)
  end.

(** [for (; i < stop; i += step)] *)
Definition for_lt (stop step : Z) (body : Z -> S -> S) (i : Z) (s : S) : Z * S :=
  for_loop (Z.to_nat (stop - i)) (fun i => i <? stop) step body i s.

(** [for (; i <= bound; i += step)] *)
Definition for_le (bound step : Z) (body : Z -> S -> S) (i : Z) (s : S) : Z * S :=
  for_loop (Z.to_nat (bound - i + 1)) (fun i => i <=? bound) step body i s.

End Loops.

(** [[0; 1; ...; W-1]]: the lanes of a vector register of [W] elements. *)
Definition lanes (W : nat) : list Z := map Z.of_nat (seq 0 W).

(** Lane-wise operation of two vector registers. *)
Definition map2 {A B C} (f : A -> B -> C) (x : list A) (y : list B) : list C :=
  map (fun ab => f (fst ab) (snd ab)) (combine x y).

(** A buffer: element index to element. *)
Definition buffer (V : Type) := Z -> V.

Definition upd {V} (m : buffer V) (i : Z) (v : V) : buffer V :=
  fun j => if j =? i then v else m j.

(** The contents of the caller's buffer, elements [0 .. n-1]. *)
Definition contents {V} (m : buffer V) (n : nat) : list V := map m (lanes n).

(** A buffer holding the given elements at [0 ..], and [d] elsewhere. *)
Definition of_list {V} (d : V) (l : list V) : buffer V :=
  fun i => if i <? 0 then d else nth (Z.to_nat i) l d.

(* ===================================================================== *)
(** * Element-wise kernels and their accesses                            *)
(* ===================================================================== *)

Module Mem.

(** The pointer arguments of the element-wise kernels: [a]/[A] (and the
    [vec] of the in-place scale kernels), [b]/[B], [c]/[C], [result].
    Distinct pointers are distinct, non-overlapping buffers. *)
Inductive ptr := PA | PB | PC | PR.

Definition ptr_eqb (p q : ptr) : bool :=
  match p, q with
  | PA, PA | PB, PB | PC, PC | PR, PR => true
  | _, _ => false
  end.

Inductive access := Load (p : ptr) (i : Z) | Store (p : ptr) (i : Z).

Definition access_ptr (a : access) : ptr :=
  match a with Load p _ | Store p _ => p end.
Definition access_index (a : access) : Z :=
  match a with Load _ i | Store _ i => i end.

Record state (V : Type) := mkState {
  mem   : ptr -> buffer V;
  trace : list access
}.
Arguments mkState {V}.
Arguments mem {V}.
Arguments trace {V}.

Section Ops.
Context {V : Type}.

Definition store_mem (m : ptr -> buffer V) (p : ptr) (i : Z) (v : V) : ptr -> buffer V :=
  fun q => if ptr_eqb q p then upd (m q) i v else m q.

(** [x = p[i]] *)
Definition load (p : ptr) (i : Z) (s : state V) : V * state V :=
  (mem s p i, mkState (mem s) (trace s ++ [Load p i])).

(** [p[i] = v] *)
Definition store (p : ptr) (i : Z) (v : V) (s : state V) : state V :=
  mkState (store_mem (mem s) p i v) (trace s ++ [Store p i]).

(** Unaligned vector load of [W] lanes from [&p[i]]
    ([_mm512_loadu_ps], [_mm256_loadu_ps], [_mm_loadu_ps], [vld1q_f32],
    [_mm256_loadu_si256], ...): elements [i .. i+W-1]. *)
Definition vload (W : nat) (p : ptr) (i : Z) (s : state V) : list V * state V :=
  (map (fun k => mem s p (i + k)) (lanes W),
   mkState (mem s) (trace s ++ map (fun k => Load p (i + k)) (lanes W))).

(** Unaligned vector store of the lanes of [v] to [&p[i]]
    ([_mm512_storeu_ps], ..., [vst1q_f32]). *)
Definition vstore (p : ptr) (i : Z) (v : list V) (s : state V) : state V :=
  mkState
    (fold_left (fun m kv => store_mem m p (i + fst kv) (snd kv))
               (combine (lanes (List.length v)) v) (mem s))
    (trace s ++ map (fun k => Store p (i + k)) (lanes (List.length v))).

(** Every logged access stays inside the caller's [size] elements. *)
Definition in_bounds (size : Z) (t : list access) : Prop :=
  Forall (fun a => 0 <= access_index a < size) t.

Definition in_boundsb (size : Z) (t : list access) : bool :=
  forallb (fun a => (0 <=? access_index a) && (access_index a <? size)) t.


(** [F m q idx] is the element a kernel leaves at index [idx] of buffer
    [q] when it has processed index [idx] from the memory [m]. *)
Definition elementwise := (ptr -> buffer V) -> ptr -> Z -> V.

(** [F] looks at index [idx] only. *)
Definition local (F : elementwise) : Prop :=
  forall m m' idx, (forall p, m p idx = m' p idx) -> forall q, F m q idx = F m' q idx.

(** From [s0] to [s], exactly the indices [lo .. hi-1] have been
    processed: they hold what [F] says, every other element is
    unchanged, every logged access is to one of them, and each of them
    has been accessed. *)
Definition processed (F : elementwise) (s0 : state V) (lo hi : Z) (s : state V) : Prop :=
  (forall q idx, mem s q idx =
     if (lo <=? idx) && (idx <? hi) then F (mem s0) q idx else mem s0 q idx) /\
  exists t, trace s = trace s0 ++ t /\
            Forall (fun a => lo <= access_index a < hi) t /\
            forall idx, lo <= idx < hi -> exists a, In a t /\ access_index a = idx.

(** What the element-wise kernels leave at one index:
    [C[i] = A[i] op B[i]]; *)
Definition Fbinop (op : V -> V -> V) : elementwise :=
  fun m q idx => if ptr_eqb q PC then op (m PA idx) (m PB idx) else m q idx.
(** [B[i] = A[i] * scalar] ([asm_vector_scale]); *)
Definition Fscale_to (mulv : V -> V -> V) (scalar : V) : elementwise :=
  fun m q idx => if ptr_eqb q PB then mulv (m PA idx) scalar else m q idx.
(** [vec[i] *= scalar] ([vector_scale_*]); *)
Definition Fscale_inplace (mulv : V -> V -> V) (scalar : V) : elementwise :=
  fun m q idx => if ptr_eqb q PA then mulv (m PA idx) scalar else m q idx.
(** [result[i] = fm a[i] b[i] c[i]] ([fma_*]). *)
Definition Ffma (fm : V -> V -> V -> V) : elementwise :=
  fun m q idx => if ptr_eqb q PR then fm (m PA idx) (m PB idx) (m PC idx) else m q idx.

End Ops.
End Mem.

(* ===================================================================== *)
(** * [simd_kernels.cpp]: element-wise kernels, one per instruction set  *)
(* ===================================================================== *)

Module Simd.
Import Mem.

(** The instruction sets of the file and the number of [float] lanes of
    their vector register. *)
Inductive isa := AVX512 | AVX2 | AVX | SSE42 | NEON | Baseline.

Definition width (t : isa) : Z :=
  match t with
  | AVX512 => 16
  | AVX2 | AVX => 8
  | SSE42 | NEON => 4
  | Baseline => 1
  end.

Section Kernels.
Context {V : Type} `{Arith V}.

(** Body of the [matrix_mult_*] and [matrix_add_*] loops:
    load [a[i..]], load [b[i..]], combine, store to [c[i..]]. *)
Definition vec_binop (W : nat) (op : V -> V -> V) (i : Z) (s : state V) : state V :=
  let (vecA, s) := vload W PA i s in
  let (vecB, s) := vload W PB i s in
  let vecC := map2 op vecA vecB in
  vstore PC i vecC s.

(** Body of the [vector_scale_*] loops: [v = load(&vec[i]); v = v * vscalar;
    store(&vec[i], v)], with [vscalar] the broadcast of [scalar]. *)
Definition vec_scale (W : nat) (scalar : V) (i : Z) (s : state V) : state V :=
  let vscalar := repeat scalar W in
  let (v, s) := vload W PA i s in
  let v := map2 mul v vscalar in
  vstore PA i v s.

(** Body of the [fma_*] loops; [fm a b c] is the lane operation. *)
Definition vec_fma (W : nat) (fm : V -> V -> V -> V) (i : Z) (s : state V) : state V :=
  let (vecA, s) := vload W PA i s in
  let (vecB, s) := vload W PB i s in
  let (vecC, s) := vload W PC i s in
  let vecResult :=
    map (fun abc => fm (fst (fst abc)) (snd (fst abc)) (snd abc))
        (combine (combine vecA vecB) vecC) in
  vstore PR i vecResult s.

(** [#ifdef __AVX512F__] : [for (int i = 0; i < n; i += 16)] *)
Definition matrix_mult_avx512 (n : Z) (s : state V) : state V :=
  snd (for_lt n 16 (vec_binop 16 mul) 0 s).
Definition matrix_add_avx512 (n : Z) (s : state V) : state V :=
  snd (for_lt n 16 (vec_binop 16 add) 0 s).
Definition vector_scale_avx512 (scalar : V) (n : Z) (s : state V) : state V :=
  snd (for_lt n 16 (vec_scale 16 scalar) 0 s).
Definition fma_avx512 `{Fused V} (n : Z) (s : state V) : state V :=
  snd (for_lt n 16 (vec_fma 16 fmadd) 0 s).

(** [#ifdef __AVX2__] : [for (int i = 0; i < n; i += 8)] *)
Definition matrix_mult_avx2 (n : Z) (s : state V) : state V :=
  snd (for_lt n 8 (vec_binop 8 mul) 0 s).
Definition matrix_add_avx2 (n : Z) (s : state V) : state V :=
  snd (for_lt n 8 (vec_binop 8 add) 0 s).
Definition vector_scale_avx2 (scalar : V) (n : Z) (s : state V) : state V :=
  snd (for_lt n 8 (vec_scale 8 scalar) 0 s).
(** [#ifdef __FMA__] fused, [#else] multiply then add. *)
Definition fma_avx2 `{Fused V} (def_FMA : bool) (n : Z) (s : state V) : state V :=
  if def_FMA
  then snd (for_lt n 8 (vec_fma 8 fmadd) 0 s)
  else snd (for_lt n 8 (vec_fma 8 (fun a b c => add (mul a b) c)) 0 s).

(** [#if defined(__AVX__) && !defined(__AVX2__)] *)
Definition matrix_mult_avx (n : Z) (s : state V) : state V :=
  snd (for_lt n 8 (vec_binop 8 mul) 0 s).
Definition matrix_add_avx (n : Z) (s : state V) : state V :=
  snd (for_lt n 8 (vec_binop 8 add) 0 s).
Definition vector_scale_avx (scalar : V) (n : Z) (s : state V) : state V :=
  snd (for_lt n 8 (vec_scale 8 scalar) 0 s).

(** [#ifdef __SSE4_2__] : [for (int i = 0; i < n; i += 4)] *)
Definition matrix_mult_sse42 (n : Z) (s : state V) : state V :=
  snd (for_lt n 4 (vec_binop 4 mul) 0 s).
Definition matrix_add_sse42 (n : Z) (s : state V) : state V :=
  snd (for_lt n 4 (vec_binop 4 add) 0 s).
Definition vector_scale_sse42 (scalar : V) (n : Z) (s : state V) : state V :=
  snd (for_lt n 4 (vec_scale 4 scalar) 0 s).

(** [#ifdef __ARM_NEON] : [for (int i = 0; i < n; i += 4)];
    [vmlaq_f32(c, a, b)] is [c + a * b] in every lane. *)
Definition matrix_mult_neon (n : Z) (s : state V) : state V :=
  snd (for_lt n 4 (vec_binop 4 mul) 0 s).
Definition matrix_add_neon (n : Z) (s : state V) : state V :=
  snd (for_lt n 4 (vec_binop 4 add) 0 s).
Definition vector_scale_neon (scalar : V) (n : Z) (s : state V) : state V :=
  snd (for_lt n 4 (vec_scale 4 scalar) 0 s).
Definition fma_neon (n : Z) (s : state V) : state V :=
  snd (for_lt n 4 (vec_fma 4 (fun a b c => add c (mul a b))) 0 s).

(** The baseline: [for (int i = 0; i < n; ++i)]. *)
Definition matrix_mult_baseline (n : Z) (s : state V) : state V :=
  snd (for_lt n 1 (fun i s =>
         let (a, s) := load PA i s in
         let (b, s) := load PB i s in
         store PC i (mul a b) s) 0 s).
Definition matrix_add_baseline (n : Z) (s : state V) : state V :=
  snd (for_lt n 1 (fun i s =>
         let (a, s) := load PA i s in
         let (b, s) := load PB i s in
         store PC i (add a b) s) 0 s).
(** [vec[i] *= scalar] *)
Definition vector_scale_baseline (scalar : V) (n : Z) (s : state V) : state V :=
  snd (for_lt n 1 (fun i s =>
         let (v, s) := load PA i s in
         store PA i (mul v scalar) s) 0 s).
(** [result[i] = a[i] * b[i] + c[i]] *)
Definition fma_baseline (n : Z) (s : state V) : state V :=
  snd (for_lt n 1 (fun i s =>
         let (a, s) := load PA i s in
         let (b, s) := load PB i s in
         let (c, s) := load PC i s in
         store PR i (add (mul a b) c) s) 0 s).

(** The kernel of each instruction set, by operation. *)
Definition matrix_mult (t : isa) : Z -> state V -> state V :=
  match t with
  | AVX512 => matrix_mult_avx512
  | AVX2 => matrix_mult_avx2
  | AVX => matrix_mult_avx
  | SSE42 => matrix_mult_sse42
  | NEON => matrix_mult_neon
  | Baseline => matrix_mult_baseline
  end.

Definition matrix_add (t : isa) : Z -> state V -> state V :=
  match t with
  | AVX512 => matrix_add_avx512
  | AVX2 => matrix_add_avx2
  | AVX => matrix_add_avx
  | SSE42 => matrix_add_sse42
  | NEON => matrix_add_neon
  | Baseline => matrix_add_baseline
  end.

Definition vector_scale (t : isa) : V -> Z -> state V -> state V :=
  match t with
  | AVX512 => vector_scale_avx512
  | AVX2 => vector_scale_avx2
  | AVX => vector_scale_avx
  | SSE42 => vector_scale_sse42
  | NEON => vector_scale_neon
  | Baseline => vector_scale_baseline
  end.

End Kernels.
End Simd.

(* ===================================================================== *)
(** * [assembly_kernels.cpp]: the [asm_*] kernels                        *)
(* ===================================================================== *)

Module Asm.
Import Mem Build.

(** The branches of the [#if] chains that are code of this file.  The
    first branch of the [float] kernels,
    [PLATFORM_MACOS && __APPLE__], hands the whole call to the Accelerate
    framework ([vDSP_vadd], [vDSP_dotpr], [vDSP_vsmul]) and has no code
    here. *)
Inductive tier := AVX2 | SSE42 | NEON | Scalar.

Definition width (t : tier) : Z :=
  match t with AVX2 => 8 | SSE42 => 4 | NEON => 4 | Scalar => 1 end.

Definition is_macos (b : build) : bool :=
  match b_platform b with PLATFORM_MACOS => def_APPLE (b_macros b) | _ => false end.

(** The [#elif] chain shared by the kernels, after the Accelerate test. *)
Definition select_tier (b : build) : tier :=
  let m := b_macros b in
  match b_arch b with
  | ARCH_X86_64 =>
      if def_AVX2 m then AVX2 else if def_SSE4_2 m then SSE42 else Scalar
  | ARCH_ARM | ARCH_ARM64 => if def_ARM_NEON m then NEON else Scalar
  | _ => Scalar
  end.

(** [asm_matrix_add], [asm_vector_dot], [asm_vector_scale]: [None] is
    the Accelerate branch. *)
Definition float_branch (b : build) : option tier :=
  if is_macos b then None else Some (select_tier b).

(** [asm_vector_bitwise_or], [asm_vector_bitwise_and]. *)
Definition int_branch (b : build) : tier := select_tier b.

Section Kernels.
Context {V : Type}.

(** [int i = 0; for (; i <= size - W; i += W) vbody; for (; i < size; i++) sbody] *)
Definition chunked (W : Z) (vbody sbody : Z -> state V -> state V)
    (size : Z) (s : state V) : state V :=
  let i := 0 in
  let (i, s) := for_le (int_sub size W) W vbody i s in
  snd (for_lt size 1 sbody i s).

(** [C[i] = A[i] op B[i]] and its vector form. *)
Definition sc_binop (op : V -> V -> V) (i : Z) (s : state V) : state V :=
  let (a, s) := load PA i s in
  let (b, s) := load PB i s in
  store PC i (op a b) s.

Definition vec_binop (W : nat) (op : V -> V -> V) (i : Z) (s : state V) : state V :=
  let (a, s) := vload W PA i s in
  let (b, s) := vload W PB i s in
  let c := map2 op a b in
  vstore PC i c s.

(** The common shape of [asm_matrix_add], [asm_vector_bitwise_or] and
    [asm_vector_bitwise_and]. *)
Definition asm_binop (op : V -> V -> V) (t : tier) (size : Z) (s : state V) : state V :=
  match t with
  | AVX2 => chunked 8 (vec_binop 8 op) (sc_binop op) size s
  | SSE42 => chunked 4 (vec_binop 4 op) (sc_binop op) size s
  | NEON => chunked 4 (vec_binop 4 op) (sc_binop op) size s
  | Scalar => snd (for_lt size 1 (sc_binop op) 0 s)
  end.

Context `{Arith V}.

Definition asm_matrix_add (t : tier) (size : Z) (s : state V) : state V :=
  asm_binop add t size s.

(** [B[i] = A[i] * scalar] and its vector form. *)
Definition sc_scale (scalar : V) (i : Z) (s : state V) : state V :=
  let (a, s) := load PA i s in
  store PB i (mul a scalar) s.

Definition vec_scale (W : nat) (scalar : V) (i : Z) (s : state V) : state V :=
  let scalar_vec := repeat scalar W in
  let (a, s) := vload W PA i s in
  let result := map2 mul a scalar_vec in
  vstore PB i result s.

Definition asm_vector_scale (t : tier) (scalar : V) (size : Z) (s : state V) : state V :=
  match t with
  | AVX2 => chunked 8 (vec_scale 8 scalar) (sc_scale scalar) size s
  | SSE42 => chunked 4 (vec_scale 4 scalar) (sc_scale scalar) size s
  | NEON => chunked 4 (vec_scale 4 scalar) (sc_scale scalar) size s
  | Scalar => snd (for_lt size 1 (sc_scale scalar) 0 s)
  end.

End Kernels.

(** The bitwise kernels work on [int]. *)
Definition asm_vector_bitwise_or (t : tier) (size : Z) (s : state Z) : state Z :=
  asm_binop Z.lor t size s.
Definition asm_vector_bitwise_and (t : tier) (size : Z) (s : state Z) : state Z :=
  asm_binop Z.land t size s.

End Asm.

(* ===================================================================== *)
(** * [asm_vector_dot]                                                   *)
(* ===================================================================== *)

Module Dot.
Import Asm.

Section Dot.
Context {V : Type} `{Arith V}.

Definition lane (v : list V) (k : nat) : V := nth k v zero.

(** The vector instructions of the reductions, as their manuals define
    them on lanes (lane 0 is the lowest element). *)

(** [_mm256_loadu_ps], [_mm_loadu_ps], [vld1q_f32] on a read-only buffer. *)
Definition loadu (W : nat) (A : buffer V) (i : Z) : list V :=
  map (fun k => A (i + k)) (lanes W).

(** [_mm256_extractf128_ps(v, k)]: lanes [4k .. 4k+3]. *)
Definition mm256_extractf128_ps (v : list V) (k : nat) : list V :=
  [lane v (4 * k); lane v (4 * k + 1); lane v (4 * k + 2); lane v (4 * k + 3)].

(** [_mm_movehl_ps(a, b)] = (b2, b3, a2, a3). *)
Definition mm_movehl_ps (a b : list V) : list V :=
  [lane b 2; lane b 3; lane a 2; lane a 3].

(** [_mm_shuffle_ps(a, b, imm)]: two lanes of [a], then two of [b],
    each picked by two bits of [imm]. *)
Definition mm_shuffle_ps (a b : list V) (imm : Z) : list V :=
  [lane a (Z.to_nat (Z.land imm 3));
   lane a (Z.to_nat (Z.land (Z.shiftr imm 2) 3));
   lane b (Z.to_nat (Z.land (Z.shiftr imm 4) 3));
   lane b (Z.to_nat (Z.land (Z.shiftr imm 6) 3))].

(** [_MM_SHUFFLE(z, y, x, w)] *)
Definition MM_SHUFFLE (z y x w : Z) : Z :=
  Z.lor (Z.lor (Z.lor (Z.shiftl z 6) (Z.shiftl y 4)) (Z.shiftl x 2)) w.

(** [_mm_add_ss(a, b)] = (a0 + b0, a1, a2, a3). *)
Definition mm_add_ss (a b : list V) : list V :=
  [add (lane a 0) (lane b 0); lane a 1; lane a 2; lane a 3].

(** [_mm_store_ss(&temp, v)]: lane 0. *)
Definition mm_store_ss (v : list V) : V := lane v 0.

(** NEON: [vget_low_f32], [vget_high_f32], [vadd_f32], [vpadd_f32]
    (pairwise add: (a0 + a1, b0 + b1)), [vget_lane_f32]. *)
Definition vget_low_f32 (v : list V) : list V := [lane v 0; lane v 1].
Definition vget_high_f32 (v : list V) : list V := [lane v 2; lane v 3].
Definition vpadd_f32 (a b : list V) : list V :=
  [add (lane a 0) (lane a 1); add (lane b 0) (lane b 1)].
Definition vget_lane_f32 (v : list V) (k : nat) : V := lane v k.

(** [for (; i < size; i++) result += A[i] * B[i];] *)
Definition dot_tail (A B : buffer V) (size i : Z) (result : V) : V :=
  snd (for_lt size 1 (fun i result => add result (mul (A i) (B i))) i result).

(** The sum of the first [i] products, added in the order of the index. *)
Definition prefix_sum (A B : buffer V) (i : Z) : V := dot_tail A B i 0 zero.

(** Body of the vector loops: [sum = sum + a * b] in every lane
    ([_mm256_mul_ps] then [_mm256_add_ps]; [_mm_mul_ps] then
    [_mm_add_ps]; [vmlaq_f32(sum_vec, a, b)]). *)
Definition dot_chunk (W : nat) (A B : buffer V) (i : Z) (sum : list V) : list V :=
  let a := loadu W A i in
  let b := loadu W B i in
  let mul := map2 mul a b in
  map2 add sum mul.

(** The horizontal additions of the three vector branches. *)
Definition hadd_avx2 (sum : list V) : V :=
  let sum128 := map2 add (mm256_extractf128_ps sum 0) (mm256_extractf128_ps sum 1) in
  let sum64 := map2 add sum128 (mm_movehl_ps sum128 sum128) in
  let sum32 := mm_add_ss sum64 (mm_shuffle_ps sum64 sum64 1) in
  mm_store_ss sum32.

Definition hadd_sse42 (sum : list V) : V :=
  let shuf := mm_shuffle_ps sum sum (MM_SHUFFLE 2 3 0 1) in
  let sums := map2 add sum shuf in
  let shuf := mm_movehl_ps shuf sums in
  let sums := mm_add_ss sums shuf in
  mm_store_ss sums.

Definition hadd_neon (sum_vec : list V) : V :=
  let sum_low := vget_low_f32 sum_vec in
  let sum_high := vget_high_f32 sum_vec in
  let sum_low := map2 add sum_low sum_high in
  let sum_low := vpadd_f32 sum_low sum_low in
  vget_lane_f32 sum_low 0.

Definition asm_vector_dot (t : tier) (A B : buffer V) (size : Z) : V :=
  let result := zero in
  match t with
  | AVX2 =>
      let sum := repeat zero 8 in
      let i := 0 in
      let (i, sum) := for_le (int_sub size 8) 8 (dot_chunk 8 A B) i sum in
      let temp := hadd_avx2 sum in
      let result := add result temp in
      dot_tail A B size i result
  | SSE42 =>
      let sum := repeat zero 4 in
      let i := 0 in
      let (i, sum) := for_le (int_sub size 4) 4 (dot_chunk 4 A B) i sum in
      let temp := hadd_sse42 sum in
      let result := add result temp in
      dot_tail A B size i result
  | NEON =>
      let sum_vec := repeat zero 4 in
      let i := 0 in
      let (i, sum_vec) := for_le (int_sub size 4) 4 (dot_chunk 4 A B) i sum_vec in
      let result := add result (hadd_neon sum_vec) in
      dot_tail A B size i result
  | Scalar =>
      dot_tail A B size 0 result
  end.

End Dot.
End Dot.

(* ===================================================================== *)
(** * [simd_kernels.cpp]: matrix product and its dispatch                *)
(* ===================================================================== *)

Module MatMul.
Import Build.

Section MatMul.
Context {V : Type} `{Arith V}.

(** [for (k = lo; k < cols_a; ++k) sum += A[i*cols_a + k] * B[k*cols_b + j];]
    with the loop bound written [hi]. *)
Definition accumulate (A B : buffer V) (cols_a cols_b i j : Z) (lo hi : Z) (sum : V) : V :=
  snd (for_lt hi 1
         (fun k sum => add sum (mul (A (i * cols_a + k)) (B (k * cols_b + j))))
         lo sum).

Definition matrix_multiply (A B C : buffer V) (rows_a cols_a cols_b : Z) : buffer V :=
  snd (for_lt rows_a 1 (fun i C =>
    snd (for_lt cols_b 1 (fun j C =>
      let sum := zero in
      let sum := accumulate A B cols_a cols_b i j 0 cols_a sum in
      upd C (i * cols_b + j) sum) 0 C)) 0 C).

(** [memset(C, 0, n * sizeof(float))]: all-zero bytes are [0.0f]. *)
Definition memset_zero (C : buffer V) (n : Z) : buffer V :=
  fun idx => if (0 <=? idx) && (idx <? n) then zero else C idx.

Definition matrix_multiply_optimized (A B C : buffer V)
    (rows_a cols_a cols_b : Z) (simd_type : string) : buffer V :=
  let block_size := 32 in
  let C := memset_zero C (rows_a * cols_b) in
  snd (for_lt rows_a block_size (fun i C =>
    snd (for_lt cols_b block_size (fun j C =>
      snd (for_lt cols_a block_size (fun k C =>
        let i_end := if i + block_size <? rows_a then i + block_size else rows_a in
        let j_end := if j + block_size <? cols_b then j + block_size else cols_b in
        let k_end := if k + block_size <? cols_a then k + block_size else cols_a in
        snd (for_lt i_end 1 (fun ii C =>
          snd (for_lt j_end 1 (fun jj C =>
            let sum := C (ii * cols_b + jj) in
            let sum := accumulate A B cols_a cols_b ii jj k k_end sum in
            upd C (ii * cols_b + jj) sum) j C)) i C)) 0 C)) 0 C)) 0 C).

(** The call [dispatch_matrix_multiply] makes. *)
Inductive kernel_call :=
| CallOptimized (simd_type : string)
| CallBaseline.

(** [simd_type] is a C string pointer: [None] is NULL. *)
Definition dispatch_select (m : macros) (simd_type : option string) : kernel_call :=
  match simd_type with
  | Some st => CallOptimized st
  | None =>
      if def_AVX512F m then CallOptimized "avx512"
      else if def_AVX2 m then CallOptimized "avx2"
      else if def_AVX m then CallOptimized "avx"
      else if def_SSE4_2 m then CallOptimized "sse42"
      else if def_ARM_NEON m then CallOptimized "neon"
      else CallBaseline
  end.

Definition dispatch_matrix_multiply (m : macros) (A B C : buffer V)
    (rows_a cols_a cols_b : Z) (simd_type : option string) : buffer V :=
  match dispatch_select m simd_type with
  | CallOptimized st => matrix_multiply_optimized A B C rows_a cols_a cols_b st
  | CallBaseline => matrix_multiply A B C rows_a cols_a cols_b
  end.

(** The matrix product as the specification writes it,
    [C[i,j] = sum over k of A[i,k] * B[k,j]], the terms added in the
    order of [k], starting from zero, matrices stored row by row. *)
Definition product_entry (A B : buffer V) (cols_a cols_b i j : Z) : V :=
  fold_left (fun sum k => add sum (mul (A (i * cols_a + k)) (B (k * cols_b + j))))
            (lanes (Z.to_nat cols_a)) zero.

End MatMul.

(** [idx] addresses an entry of the block of rows [i0 .. i1-1] and
    columns [j0 .. j1-1] of a matrix with [n] columns, stored row by row. *)
Definition in_rect (n i0 i1 j0 j1 idx : Z) : bool :=
  (i0 <=? idx / n) && (idx / n <? i1) && (j0 <=? idx mod n) && (idx mod n <? j1).

(** The clipped end of a block:
    [(x + block_size < bound) ? x + block_size : bound]. *)
Definition block_end (x block_size bound : Z) : Z :=
  if x + block_size <? bound then x + block_size else bound.


(** The instruction-set tiers of the dispatcher, widest first, and
    whether the build has each of them. *)
Inductive tier := T_AVX512 | T_AVX2 | T_AVX | T_SSE42 | T_NEON | T_SCALAR.

Definition compiled_in (m : macros) (t : tier) : bool :=
  match t with
  | T_AVX512 => def_AVX512F m
  | T_AVX2 => def_AVX2 m
  | T_AVX => def_AVX m
  | T_SSE42 => def_SSE4_2 m
  | T_NEON => def_ARM_NEON m
  | T_SCALAR => true
  end.

(** Position in the priority order: smaller is wider. *)
Definition rank (t : tier) : Z :=
  match t with
  | T_AVX512 => 0 | T_AVX2 => 1 | T_AVX => 2 | T_SSE42 => 3 | T_NEON => 4
  | T_SCALAR => 5
  end.

Definition call_of_tier (t : tier) : kernel_call :=
  match t with
  | T_AVX512 => CallOptimized "avx512"
  | T_AVX2 => CallOptimized "avx2"
  | T_AVX => CallOptimized "avx"
  | T_SSE42 => CallOptimized "sse42"
  | T_NEON => CallOptimized "neon"
  | T_SCALAR => CallBaseline
  end.

End MatMul.

(* ===================================================================== *)
(** * [asm_matrix_multiply]                                              *)
(* ===================================================================== *)

Module AsmMatMul.
Import Build Asm Dot.

(** The code of the [#if] chain: the plain triple loop, written out four
    times (Windows/MSVC x86_64, Linux x86_64, ARM without NEON, and the
    generic fallback), and the NEON loop. *)
Inductive branch := Naive | NeonVec.

(** [None] is the first branch, [PLATFORM_MACOS && __APPLE__], which
    calls [cblas_sgemm] of the Accelerate framework. *)
Definition select_branch (b : build) : option branch :=
  let m := b_macros b in
  if is_macos b then None
  else
    match b_platform b, b_arch b with
    | PLATFORM_WINDOWS, ARCH_X86_64 =>
        if def_MSC_VER m then Some Naive else Some Naive
    | PLATFORM_LINUX, ARCH_X86_64 => Some Naive
    | _, ARCH_ARM64 | _, ARCH_ARM =>
        if def_ARM_NEON m then Some NeonVec else Some Naive
    | _, _ => Some Naive
    end.

Section Kernels.
Context {V : Type} `{Arith V}.

(** [A] is M x K, [B] is K x N, [C] is M x N, all stored row by row. *)
Definition asm_matrix_multiply (br : branch) (A B C : buffer V) (M N K : Z) : buffer V :=
  match br with
  | Naive =>
      snd (for_lt M 1 (fun i C =>
        snd (for_lt N 1 (fun j C =>
          let sum := zero in
          let sum :=
            snd (for_lt K 1
                   (fun k sum => add sum (mul (A (i * K + k)) (B (k * N + j))))
                   0 sum) in
          upd C (i * N + j) sum) 0 C)) 0 C)
  | NeonVec =>
      snd (for_lt M 1 (fun i C =>
        snd (for_lt N 1 (fun j C =>
          let sum := zero in
          let k := 0 in
          let sum_vec := repeat zero 4 in
          let (k, sum_vec) :=
            for_le (K - 4) 4 (fun k sum_vec =>
              let a_vec := loadu 4 A (i * K + k) in
              let b_vec := loadu 4 B (k * N + j) in
              (* vmlaq_f32(sum_vec, a_vec, b_vec) *)
              map2 add sum_vec (map2 mul a_vec b_vec)) k sum_vec in
          let sum_low := vget_low_f32 sum_vec in
          let sum_high := vget_high_f32 sum_vec in
          let sum_low := map2 add sum_low sum_high in
          let sum := add sum (add (vget_lane_f32 sum_low 0) (vget_lane_f32 sum_low 1)) in
          let sum :=
            snd (for_lt K 1
                   (fun k sum => add sum (mul (A (i * K + k)) (B (k * N + j))))
                   k sum) in
          upd C (i * N + j) sum) 0 C)) 0 C)
  end.

End Kernels.
End AsmMatMul.

(* ===================================================================== *)
(** * Example inputs                                                     *)
(* ===================================================================== *)

Module Examples.
Import Mem.

(** A [float] buffer holding the given integer values at [0 ..]; what
    lies behind the caller's elements reads as [0.0f]. *)
Definition floats (l : list Z) : buffer binary32 :=
  of_list (S754_zero false) (map b32_of_Z l).

(** Kernel arguments [a = [1,2,3]], [b = [4,5,6]], [c] and [result]
    cleared, nothing accessed yet. *)
Definition abc3 : state binary32 :=
  mkState (fun p => match p with
                    | PA => floats [1; 2; 3]
                    | PB => floats [4; 5; 6]
                    | PC | PR => floats []
                    end) [].

(** The scenario of the dot product. *)
Definition dotA : buffer binary32 := floats [1; 2; 3; 4].
Definition dotB : buffer binary32 := floats [5; 6; 7; 8].

(** Four products that cancel: [2^24, 1, 1, -2^24] against ones. *)
Definition cancelA : buffer binary32 := floats [16777216; 1; 1; -16777216].
Definition cancelB : buffer binary32 := floats [1; 1; 1; 1].

(** Sixteen lanes of [a = b = 1 + 2^-12] and [c = -(1 + 2^-11)]: the
    exact [a * b + c] is [2^-24], and [a * b] rounds to [-c]. *)
Definition fma16 : state binary32 :=
  mkState (fun p => match p with
                    | PA | PB => fun _ => binary_normalize 24 128 4097 (-12) false
                    | PC => fun _ => binary_normalize 24 128 (-2049) (-11) false
                    | PR => floats []
                    end) [].

(** 1024 products [2^24, 1, 1, ..., 1]: added left to right every 1 is
    lost to rounding; added lane by lane three lanes keep theirs. *)
Definition longA : buffer binary32 :=
  fun i => if i =? 0 then b32_of_Z 16777216 else b32_of_Z 1.
Definition longB : buffer binary32 := fun _ => b32_of_Z 1.

(** Sixteen lanes of [a = 3], [b = 5], [c = 7]: [a * b + c] is exact, so
    the fused and the two-step operation agree on them. *)
Definition fma_small : state binary32 :=
  mkState (fun p => match p with
                    | PA => fun _ => b32_of_Z 3
                    | PB => fun _ => b32_of_Z 5
                    | PC => fun _ => b32_of_Z 7
                    | PR => floats []
                    end) [].

(** A 2 x 3 times 3 x 2 product over the integers. *)
Definition matA : buffer Z := of_list 0 [1; 2; 3; 4; 5; 6].
Definition matB : buffer Z := of_list 0 [1; 0; 0; 1; 1; 1].
Definition matC : buffer Z := fun _ => 99.

Definition ints4 : state Z :=
  mkState (fun p => match p with
                    | PA => of_list 0 [1; 2; 3; 4]
                    | PB => of_list 0 [10; 20; 30; 40]
                    | PC | PR => of_list 0 []
                    end) [].

Definition no_macros : Build.macros :=
  Build.mkMacros false false false false false false false false.

(** A processor on which no capability query succeeds. *)
Definition no_cpuid : PipelineOpt.cpu :=
  PipelineOpt.mkCpu (fun _ => None) (fun _ _ => None)
                    (fun _ => PipelineOpt.mkRegs 0 0 0 0).

(** A 1 x 4 times 4 x 2 product over the integers. *)
Definition rowA : buffer Z := of_list 0 [1; 2; 3; 4].
Definition colsB : buffer Z := of_list 0 [1; 5; 0; 0; 0; 0; 0; 0].

End Examples.

(* ===================================================================== *)
(** * Footprint of the whole-vector loops                               *)
(* ===================================================================== *)

(** [n] rounded up to a multiple of the vector width [W]: where a loop
    [for (i = 0; i < n; i += W)] over whole vectors stops. *)
Definition round_up (n W : Z) : Z := W * ((n + W - 1) / W).

(* ===================================================================== *)
(** * Platform code: [assembly_kernels.h], [get_platform_info]          *)
(* ===================================================================== *)

Module Platform.
Import Build.

(** The macros predefined by the compiler that [assembly_kernels.h]
    tests. *)
Record predefined := mkPredefined {
  def_WIN32 : bool;      (* _WIN32 *)
  def_WIN64 : bool;      (* _WIN64 *)
  def__APPLE__ : bool;   (* __APPLE__ *)
  def__MACH__ : bool;    (* __MACH__ *)
  def__linux__ : bool;   (* __linux__ *)
  def__ANDROID__ : bool; (* __ANDROID__ *)
  def__x86_64__ : bool;  (* __x86_64__ *)
  def_M_X64 : bool;      (* _M_X64 *)
  def__i386 : bool;      (* __i386 *)
  def_M_IX86 : bool;     (* _M_IX86 *)
  def__arm__ : bool;     (* __arm__ *)
  def_M_ARM : bool;      (* _M_ARM *)
  def__aarch64__ : bool  (* __aarch64__ *)
}.

(** "Platform detection": the first [#if]/[#elif] chain of the header. *)
Definition platform_of (p : predefined) : platform :=
  if def_WIN32 p || def_WIN64 p then PLATFORM_WINDOWS
  else if def__APPLE__ p || def__MACH__ p then PLATFORM_MACOS
  else if def__linux__ p then PLATFORM_LINUX
  else if def__ANDROID__ p then PLATFORM_ANDROID
  else PLATFORM_NONE.

(** "Architecture detection": the second chain. *)
Definition arch_of (p : predefined) : arch :=
  if def__x86_64__ p || def_M_X64 p then ARCH_X86_64
  else if def__i386 p || def_M_IX86 p then ARCH_X86
  else if def__arm__ p || def_M_ARM p then ARCH_ARM
  else if def__aarch64__ p then ARCH_ARM64
  else ARCH_NONE.

Definition get_platform_info (pl : platform) (ar : arch) : Z :=
  match pl, ar with
  | PLATFORM_WINDOWS, ARCH_X86_64 => 1
  | PLATFORM_WINDOWS, ARCH_X86 => 2
  | PLATFORM_MACOS, ARCH_X86_64 => 3
  | PLATFORM_MACOS, ARCH_ARM64 => 4
  | PLATFORM_LINUX, ARCH_X86_64 => 5
  | PLATFORM_LINUX, ARCH_X86 => 6
  | PLATFORM_LINUX, ARCH_ARM => 7
  | PLATFORM_LINUX, ARCH_ARM64 => 8
  | PLATFORM_ANDROID, ARCH_ARM => 9
  | PLATFORM_ANDROID, ARCH_ARM64 => 10
  | _, _ => 0
  end.

(** [get_platform_info()] of a translation unit compiled with the
    predefined macros [p]. *)
Definition platform_info_of (p : predefined) : Z :=
  get_platform_info (platform_of p) (arch_of p).

End Platform.

(* ===================================================================== *)
(** * [get_cpu_features_string]                                         *)
(* ===================================================================== *)

Module FeaturesString.
Import PipelineOpt.
Local Open Scope string_scope.

(** [sprintf("%d", z)] *)
Definition decimal (z : Z) : string := DecimalString.NilZero.string_of_int (Z.to_int z).

(** [if (cond) strcat(s, token);] *)
Definition strcat_if (cond : bool) (token s : string) : string :=
  if cond then s ++ token else s.

(** The text [get_cpu_features_string] builds when its buffer is empty. *)
Definition features_text (cc : compiler) (c : cpu) : string :=
  let features := detect_cpu_features cc c in
  let features_str := "Features: " in
  let features_str := strcat_if (truthy (Z.land features 1)) "SSE " features_str in
  let features_str := strcat_if (truthy (Z.land features 2)) "SSE2 " features_str in
  let features_str := strcat_if (truthy (Z.land features 4)) "SSE3 " features_str in
  let features_str := strcat_if (truthy (Z.land features 8)) "SSSE3 " features_str in
  let features_str := strcat_if (truthy (Z.land features 16)) "SSE4.1 " features_str in
  let features_str := strcat_if (truthy (Z.land features 32)) "SSE4.2 " features_str in
  let features_str := strcat_if (truthy (Z.land features 64)) "AVX " features_str in
  let features_str := strcat_if (truthy (Z.land features 128)) "AVX2 " features_str in
  let features_str :=
    strcat_if (truthy (detect_prefetch_support cc c)) "PREFETCH " features_str in
  let cache_str := "CacheLineSize=" ++ decimal (get_cache_line_size cc c) in
  features_str ++ cache_str.

(** The [char cache_str[32]] of the function. *)
Definition cache_str (cc : compiler) (c : cpu) : string :=
  "CacheLineSize=" ++ decimal (get_cache_line_size cc c).

(** [get_cpu_features_string]: [features_str] is the C string held by
    the function-local [static char features_str[256]] (empty at
    program start); the result is the returned string and the buffer
    after the call. *)
Definition get_cpu_features_string (cc : compiler) (c : cpu) (features_str : string)
  : string * string :=
  match features_str with
  | String _ _ => (features_str, features_str)       (* features_str[0] != '\0' *)
  | EmptyString => let s := features_text cc c in (s, s)
  end.

End FeaturesString.

(* ===================================================================== *)
(** * [get_cpu_brand_string]                                            *)
(* ===================================================================== *)

Module Brand.
Import PipelineOpt.

(** [while (cond(s)) s = body(s);] with a bound on the iterations. *)
Fixpoint while_loop {St : Type} (fuel : nat) (cond : St -> bool) (body : St -> St)
    (s : St) : St :=
  match fuel with
  | O => s
  | S fuel' => if cond s then while_loop fuel' cond body (body s) else s
  end.

Definition NUL : ascii := Ascii.zero.
Definition SPACE : ascii := " "%char.

(** The C string that starts at index [i] of a [char] buffer. *)
Fixpoint cstring (fuel : nat) (m : buffer ascii) (i : Z) : list ascii :=
  match fuel with
  | O => []
  | S fuel' => if Ascii.eqb (m i) NUL then [] else m i :: cstring fuel' m (i + 1)
  end.

(** The state of the second loop: the buffer, [src], [dst], [prev]. *)
Record copy_state := mkCopy {
  buf : buffer ascii; src : Z; dst : Z; prev : ascii
}.

(** The tail of [get_cpu_brand_string]: skip the leading spaces, then
    copy the string onto itself, dropping a space that follows a space,
    and terminate it. *)
Definition squeeze_spaces (brand : buffer ascii) : buffer ascii :=
  (* p = brand; advance p while it points to a space *)
  let p := while_loop 64 (fun p => Ascii.eqb (brand p) SPACE) (fun p => p + 1) 0 in
  let st :=
    while_loop 64
      (fun st => negb (Ascii.eqb (buf st (src st)) NUL))      (* while src points to a character *)
      (fun st =>
         if Ascii.eqb (buf st (src st)) SPACE && Ascii.eqb (prev st) SPACE
         then mkCopy (buf st) (src st + 1) (dst st) (prev st)      (* src++; continue *)
         else
           (* dst[0] = src[0]; dst++ *)
           let b := upd (buf st) (dst st) (buf st (src st)) in
           (* prev = src[0], read after the store; src++ *)
           mkCopy b (src st + 1) (dst st + 1) (b (src st)))
      (mkCopy brand p 0 NUL) in
  (* dst[0] = NUL *)
  upd (buf st) (dst st) NUL.

(** The four bytes of a 32-bit register as they lie in memory on x86. *)
Definition reg_bytes (r : Z) : list ascii :=
  map (fun k => ascii_of_N (Z.to_N (Z.land (Z.shiftr r (8 * k)) 255))) [0; 1; 2; 3].

Definition leaf_bytes (r : regs) : list ascii :=
  reg_bytes (eax r) ++ reg_bytes (ebx r) ++ reg_bytes (ecx r) ++ reg_bytes (edx r).

(** Consecutive bytes stored from index [i] on. *)
Fixpoint store_bytes (m : buffer ascii) (i : Z) (l : list ascii) : buffer ascii :=
  match l with
  | [] => m
  | c :: l' => store_bytes (upd m i c) (i + 1) l'
  end.

(** [strcpy(brand, s)] *)
Definition strcpy (m : buffer ascii) (s : string) : buffer ascii :=
  store_bytes m 0 (list_ascii_of_string s ++ [NUL]).

(** The extended CPUID leaves: the highest one supported
    ([__get_cpuid_max(0x80000000, NULL)], or [eax] of leaf 0x80000000)
    and their registers. *)
Record ext_cpu := mkExt { max_ext_id : Z; ext_leaf : Z -> regs }.

(** [get_cpu_brand_string]: [brand] is the function-local
    [static char brand[64]]; the result is that buffer after the call,
    which is also what the returned pointer points to.  Both compiler
    variants store the same 48 bytes. *)
Definition get_cpu_brand_string (c : ext_cpu) (brand : buffer ascii) : buffer ascii :=
  if negb (Ascii.eqb (brand 0) NUL) then brand
  else
    let brand :=
      if 0x80000004 <=? max_ext_id c then
        store_bytes brand 0
          (leaf_bytes (ext_leaf c 0x80000002) ++ leaf_bytes (ext_leaf c 0x80000003)
           ++ leaf_bytes (ext_leaf c 0x80000004))
      else strcpy brand "Unknown CPU" in
    squeeze_spaces brand.

(** The two loops on lists: dropping the leading spaces, and dropping a
    space that follows a space. *)
Fixpoint skip_spaces (l : list ascii) : list ascii :=
  match l with
  | c :: t => if Ascii.eqb c SPACE then skip_spaces t else l
  | [] => []
  end.

Fixpoint collapse (prev : ascii) (l : list ascii) : list ascii :=
  match l with
  | [] => []
  | c :: t =>
      if Ascii.eqb c SPACE && Ascii.eqb prev SPACE then collapse prev t
      else c :: collapse c t
  end.

Definition squeezed (l : list ascii) : list ascii := collapse NUL (skip_spaces l).

Definition not_space (c : ascii) : bool := negb (Ascii.eqb c SPACE).

(** No two spaces side by side. *)
Fixpoint single_spaced (l : list ascii) : bool :=
  match l with
  | c :: (d :: _) as t => negb (Ascii.eqb c SPACE && Ascii.eqb d SPACE) && single_spaced t
  | _ => true
  end.

(** The buffer [m] holds the C string [l] from index [i] on. *)
Definition holds (m : buffer ascii) (i : Z) (l : list ascii) : Prop :=
  (forall k, (k < List.length l)%nat ->
             m (i + Z.of_nat k) = nth k l NUL /\ nth k l NUL <> NUL) /\
  m (i + Z.of_nat (List.length l)) = NUL.

(** The condition and the body of the copying loop of [squeeze_spaces]. *)
Definition copy_cond (st : copy_state) : bool := negb (Ascii.eqb (buf st (src st)) NUL).
Definition copy_body (st : copy_state) : copy_state :=
  if Ascii.eqb (buf st (src st)) SPACE && Ascii.eqb (prev st) SPACE
  then mkCopy (buf st) (src st + 1) (dst st) (prev st)
  else
    let b := upd (buf st) (dst st) (buf st (src st)) in
    mkCopy b (src st + 1) (dst st + 1) (b (src st)).

(** The characters of a byte sequence before its first NUL. *)
Fixpoint until_nul (l : list ascii) : list ascii :=
  match l with
  | [] => []
  | c :: t => if Ascii.eqb c NUL then [] else c :: until_nul t
  end.

(** The 48 bytes of the three brand leaves. *)
Definition brand_bytes (c : ext_cpu) : list ascii :=
  leaf_bytes (ext_leaf c 0x80000002) ++ leaf_bytes (ext_leaf c 0x80000003)
  ++ leaf_bytes (ext_leaf c 0x80000004).

(** The zero-initialised [static] buffer of the first call. *)
Definition zeroed : buffer ascii := fun _ => NUL.

End Brand.

(* ===================================================================== *)
(** * The memory probe across calls, and the /proc readers               *)
(* ===================================================================== *)

Module ProbeCalls.
Import MemoryProbes.

(** One call of [mem_probe] as a client issues it: what the operating
    system answers during the call, and the two pointer arguments. *)
Definition call : Type := os * option MemoryProbe * option MemoryProbeResult.

(** Successive calls in one process: the [static peak_memory] and
    [stderr] are carried from each call to the next.  The list holds,
    per call, the value returned and the result object after it. *)
Fixpoint mem_probe_calls (calls : list call) (w : world)
  : list (Z * option MemoryProbeResult) * world :=
  match calls with
  | [] => ([], w)
  | (o, probe, result) :: rest =>
      let '(exceeded, result, w) := mem_probe o probe result w in
      let '(outs, w) := mem_probe_calls rest w in
      ((exceeded, result) :: outs, w)
  end.

(** The readings of the calls that pass a result object. *)
Definition readings (calls : list call) : list N :=
  map (fun c : call => current_mem (fst (fst c)))
      (filter (fun c : call => match snd c with Some _ => true | None => false end) calls).

(** [fast_mem_check]: [true] when [log_alert] is called. *)
Definition fast_mem_check (o : os) (threshold : N) : bool :=
  (threshold <? current_mem o)%N.

End ProbeCalls.

Module ProcFs.

Definition NUL : ascii := Ascii.zero.
Definition NL : ascii := "010"%char.

(** <ctype.h>, "C" locale. *)
Definition isspace (c : ascii) : bool :=
  let n := nat_of_ascii c in (n =? 32)%nat || ((9 <=? n)%nat && (n <=? 13)%nat).
Definition isdigit (c : ascii) : bool :=
  let n := nat_of_ascii c in (48 <=? n)%nat && (n <=? 57)%nat.
Definition digit_val (c : ascii) : Z := Z.of_nat (nat_of_ascii c) - 48.

(** A C string is the list of its characters before the terminating
    NUL: the end of the list reads as NUL. *)
Fixpoint skip_space (s : list ascii) : list ascii :=
  match s with
  | c :: t => if isspace c then skip_space t else s
  | [] => []
  end.

Fixpoint digits_value (acc : Z) (s : list ascii) : Z :=
  match s with
  | c :: t => if isdigit c then digits_value (10 * acc + digit_val c) t else acc
  | [] => acc
  end.

(** [atoll]: white space, an optional sign, decimal digits.  The value
    is the mathematical one; the C function is only defined when it
    fits a [long long]. *)
Definition atoll (s : list ascii) : Z :=
  match skip_space s with
  | "-"%char :: t => - digits_value 0 t
  | "+"%char :: t => digits_value 0 t
  | t => digits_value 0 t
  end.

(** [(uint64_t)x] *)
Definition to_uint64 (x : Z) : Z := x mod 2 ^ 64.

(** The characters one [fgets] call with room for [n] of them takes
    from the stream, and the rest of the stream. *)
Fixpoint read_line (n : nat) (s : list ascii) : list ascii * list ascii :=
  match n, s with
  | O, _ => ([], s)
  | _, [] => ([], [])
  | S n, c :: t =>
      if Ascii.eqb c NL then ([c], t)
      else let (l, r) := read_line n t in (c :: l, r)
  end.

(** [fgets(line, size, file)]: [None] at end of file. *)
Definition fgets (size : nat) (s : list ascii) : option (list ascii * list ascii) :=
  match s with
  | [] => None
  | _ => Some (read_line (size - 1) s)
  end.

(** [strncmp(a, b, n) == 0] *)
Fixpoint strncmp_eq (n : nat) (a b : list ascii) : bool :=
  match n with
  | O => true
  | S n =>
      let x := hd NUL a in
      let y := hd NUL b in
      if Ascii.eqb x y
      then if Ascii.eqb x NUL then true else strncmp_eq n (tl a) (tl b)
      else false
  end.

(** The [while (fgets(line, sizeof(line), file))] loop of [current_mem]
    and [available_mem], [char line[128]]: the first line that starts
    with [key] gives the value, in KB, converted to MB. *)
Fixpoint scan (fuel : nat) (key : list ascii) (n : nat) (s : list ascii) (value : Z) : Z :=
  match fuel with
  | O => value
  | S fuel =>
      match fgets 128 s with
      | None => value
      | Some (line, rest) =>
          if strncmp_eq n line key
          then to_uint64 (atoll (skipn n line)) / 1024
          else scan fuel key n rest value
      end
  end.

(** The non-Windows branch of [current_mem]; [status] is the content of
    /proc/self/status, [None] when [fopen] fails.  Every [fgets] takes
    at least one character, so the loop ends within the length of the
    file. *)
Definition current_mem (status : option (list ascii)) : Z :=
  let memory_usage := 0 in
  match status with
  | Some s => scan (S (List.length s)) (list_ascii_of_string "VmRSS:") 6 s memory_usage
  | None => memory_usage
  end.

(** The non-Windows branch of [available_mem], on /proc/meminfo. *)
Definition available_mem (meminfo : option (list ascii)) : Z :=
  let available := 0 in
  match meminfo with
  | Some s => scan (S (List.length s)) (list_ascii_of_string "MemAvailable:") 13 s available
  | None => available
  end.

(** What the operating system answers to [mem_probe] given the two
    files and the clock. *)
Definition os_of (status meminfo : option (list ascii)) (now : N) : MemoryProbes.os :=
  MemoryProbes.mkOs (Z.to_N (current_mem status)) (Z.to_N (available_mem meminfo)) now.

(** A complete line that fits the buffer: at most 127 characters, the
    last one the only newline. *)
Definition whole_line (l : list ascii) : bool :=
  match List.rev l with
  | c :: body =>
      Ascii.eqb c NL && forallb (fun x => negb (Ascii.eqb x NL)) body
      && (List.length l <=? 127)%nat
  | [] => false
  end.

(** Space or tab. *)
Definition blank (c : ascii) : bool := Ascii.eqb c " "%char || Ascii.eqb c "009"%char.

(** [printf("%lld", z)] *)
Definition decimal (z : Z) : list ascii :=
  list_ascii_of_string (DecimalString.NilZero.string_of_int (Z.to_int z)).

(** A line [key  <kb> ...] after the lines [pre]. *)
Definition file_with (pre : list (list ascii)) (key ws : list ascii) (kb : Z)
    (rest : list ascii) : list ascii :=
  List.concat pre ++ key ++ ws ++ decimal kb ++ rest.

(** The value of a digit sequence read from the left, as [atoll]
    accumulates it, and its characters. *)
Fixpoint uint_value (acc : Z) (d : Decimal.uint) : Z :=
  match d with
  | Decimal.Nil => acc
  | Decimal.D0 d => uint_value (10 * acc + 0) d
  | Decimal.D1 d => uint_value (10 * acc + 1) d
  | Decimal.D2 d => uint_value (10 * acc + 2) d
  | Decimal.D3 d => uint_value (10 * acc + 3) d
  | Decimal.D4 d => uint_value (10 * acc + 4) d
  | Decimal.D5 d => uint_value (10 * acc + 5) d
  | Decimal.D6 d => uint_value (10 * acc + 6) d
  | Decimal.D7 d => uint_value (10 * acc + 7) d
  | Decimal.D8 d => uint_value (10 * acc + 8) d
  | Decimal.D9 d => uint_value (10 * acc + 9) d
  end.

Definition chars (d : Decimal.uint) : list ascii := list_ascii_of_string (DecimalString.NilEmpty.string_of_uint d).

End ProcFs.


(* ===================================================================== *)
(** * Further example inputs                                             *)
(* ===================================================================== *)

Module Scenarios.

(** The macros an Android toolchain for 32-bit ARM predefines, among
    those the header tests. *)
Definition android_arm : Platform.predefined :=
  Platform.mkPredefined false false false false true true false false false false
                        true false false.

(** A processor whose leaf 1 reports SSE4.2 and CLFLUSH and whose leaf 7
    reports AVX2. *)
Definition avx2_cpu : PipelineOpt.cpu :=
  let r1 := PipelineOpt.mkRegs 0 2048 (Z.shiftl 1 20) (Z.shiftl 1 9) in
  let r7 := PipelineOpt.mkRegs 0 (Z.shiftl 1 5) 0 0 in
  PipelineOpt.mkCpu (fun leaf => if leaf =? 1 then Some r1 else None)
                    (fun leaf sub => if leaf =? 7 then Some r7 else None)
                    (fun leaf => if leaf =? 1 then r1 else r7).

(** A processor of the generation before AVX2.  Leaf 1 reports SSE,
    SSE2 ([edx] bits 25, 26), CLFLUSH ([edx] bit 9), SSE3, SSSE3, SSE4.1,
    SSE4.2 and AVX ([ecx] bits 0, 9, 19, 20, 28); leaf 7 exists and
    reports FSGSBASE, SMEP and ERMS in [ebx] (bits 0, 7, 9), no AVX2
    (bit 5), and nothing in [ecx] and [edx]. *)
Definition sse42_cpu : PipelineOpt.cpu :=
  let r1 := PipelineOpt.mkRegs 0x306A9 0x00100800 0x10180201 0x06000200 in
  let r7 := PipelineOpt.mkRegs 0 0x281 0 0 in
  PipelineOpt.mkCpu (fun leaf => if leaf =? 1 then Some r1 else None)
                    (fun leaf sub => if (leaf =? 7) && (sub =? 0) then Some r7 else None)
                    (fun leaf => if leaf =? 1 then r1 else r7).

Definition avx2_insn : AsmLevel.cpuid_insn :=
  fun leaf sub => PipelineOpt.msvc_cpuid avx2_cpu leaf.

(** A Linux build compiled with [-mavx]. *)
Definition linux_avx_build : Build.build :=
  Build.mkBuild Build.ARCH_X86_64 Build.PLATFORM_LINUX
    (Build.mkMacros false false true false false false false false).

Definition padded_brand : list ascii :=
  list_ascii_of_string "  Intel(R)   Core(TM)  i7 ".

(** A processor without extended leaves. *)
Definition no_ext : Brand.ext_cpu :=
  Brand.mkExt 0 (fun _ => PipelineOpt.mkRegs 0 0 0 0).

(** The pieces of a /proc/self/status: a first line, the blanks behind
    the key, and what follows the number. *)
Definition status_head : list (list ascii) :=
  [list_ascii_of_string "Name:" ++ ["009"%char] ++ list_ascii_of_string "probe"
   ++ [ProcFs.NL]].
Definition status_blanks : list ascii := ["009"%char; " "%char; " "%char].
Definition status_tail : list ascii :=
  list_ascii_of_string " kB" ++ [ProcFs.NL] ++ list_ascii_of_string "VmData: 1 kB"
  ++ [ProcFs.NL].

End Scenarios.

(* ===================================================================== *)
(** * Loops                                                              *)
(* ===================================================================== *)

Ltac bdestruct :=
  repeat match goal with
         | |- context [?a <? ?b] => destruct (Z.ltb_spec a b)
         | |- context [?a <=? ?b] => destruct (Z.leb_spec a b)
         | |- context [?a =? ?b] => destruct (Z.eqb_spec a b)
         end;
  cbn [andb orb negb].

Module LoopFacts.
Section LoopFacts.
Context {S : Type}.
Implicit Types (body : Z -> S -> S) (s : S).

(** An invariant kept by the body holds when the loop is left. *)
Lemma for_loop_invariant (P : Z -> S -> Prop) cond step body :
  (forall i s, cond i = true -> P i s -> P (i + step) (body i s)) ->
  forall fuel i s, P i s ->
    P (fst (for_loop fuel cond step body i s)) (snd (for_loop fuel cond step body i s)).
Proof.
  intros Hstep fuel. induction fuel as [| fuel IH]; intros i s HP; cbn.
  - exact HP.
  - destruct (cond i) eqn:E; cbn; [apply IH, Hstep; assumption | exact HP].
Qed.

(** With a positive step the fuel of [for_lt] is enough: the loop is
    left because its condition fails. *)
Lemma for_loop_lt_exit stop step body :
  0 < step ->
  forall fuel i s, (Z.to_nat (stop - i) <= fuel)%nat ->
    stop <= fst (for_loop fuel (fun i => i <? stop) step body i s).
Proof.
  intros Hs fuel. induction fuel as [| fuel IH]; intros i s Hf; cbn.
  - lia.
  - destruct (Z.ltb_spec i stop); cbn; [apply IH; lia | lia].
Qed.

Lemma for_loop_le_exit bound step body :
  0 < step ->
  forall fuel i s, (Z.to_nat (bound - i + 1) <= fuel)%nat ->
    bound < fst (for_loop fuel (fun i => i <=? bound) step body i s).
Proof.
  intros Hs fuel. induction fuel as [| fuel IH]; intros i s Hf; cbn.
  - lia.
  - destruct (Z.leb_spec i bound); cbn; [apply IH; lia | lia].
Qed.

(** Any sufficient amount of fuel gives the same run. *)
Lemma for_loop_lt_fuel stop step body :
  0 < step ->
  forall f1 f2 i s,
    (Z.to_nat (stop - i) <= f1)%nat -> (Z.to_nat (stop - i) <= f2)%nat ->
    for_loop f1 (fun i => i <? stop) step body i s =
    for_loop f2 (fun i => i <? stop) step body i s.
Proof.
  intros Hs f1. induction f1 as [| f1 IH]; intros f2 i s H1 H2.
  - destruct f2; cbn; [reflexivity |].
    destruct (Z.ltb_spec i stop); [lia | reflexivity].
  - destruct f2; cbn.
    + destruct (Z.ltb_spec i stop); [lia | reflexivity].
    + destruct (Z.ltb_spec i stop); [apply IH; lia | reflexivity].
Qed.

Lemma for_loop_le_fuel bound step body :
  0 < step ->
  forall f1 f2 i s,
    (Z.to_nat (bound - i + 1) <= f1)%nat -> (Z.to_nat (bound - i + 1) <= f2)%nat ->
    for_loop f1 (fun i => i <=? bound) step body i s =
    for_loop f2 (fun i => i <=? bound) step body i s.
Proof.
  intros Hs f1. induction f1 as [| f1 IH]; intros f2 i s H1 H2.
  - destruct f2; cbn; [reflexivity |].
    destruct (Z.leb_spec i bound); [lia | reflexivity].
  - destruct f2; cbn.
    + destruct (Z.leb_spec i bound); [lia | reflexivity].
    + destruct (Z.leb_spec i bound); [apply IH; lia | reflexivity].
Qed.

(** The loops unfold as the C loops do. *)
Lemma for_lt_unfold stop step body i s :
  0 < step ->
  for_lt stop step body i s =
  if i <? stop then for_lt stop step body (i + step) (body i s) else (i, s).
Proof.
  intro Hs. unfold for_lt.
  destruct (Z.ltb_spec i stop) as [Hlt | Hge].
  - destruct (Z.to_nat (stop - i)) eqn:E; [lia |].
    cbn. destruct (Z.ltb_spec i stop); [| lia].
    apply for_loop_lt_fuel; lia.
  - replace (Z.to_nat (stop - i)) with 0%nat by lia. reflexivity.
Qed.

Lemma for_le_unfold bound step body i s :
  0 < step ->
  for_le bound step body i s =
  if i <=? bound then for_le bound step body (i + step) (body i s) else (i, s).
Proof.
  intro Hs. unfold for_le.
  destruct (Z.leb_spec i bound) as [Hle | Hgt].
  - destruct (Z.to_nat (bound - i + 1)) eqn:E; [lia |].
    cbn. destruct (Z.leb_spec i bound); [| lia].
    apply for_loop_le_fuel; lia.
  - replace (Z.to_nat (bound - i + 1)) with 0%nat by lia. reflexivity.
Qed.

(** Invariant rules for the two loop forms. *)
Lemma for_lt_invariant (P : Z -> S -> Prop) stop step body i s :
  0 < step ->
  P i s ->
  (forall j t, j < stop -> P j t -> P (j + step) (body j t)) ->
  P (fst (for_lt stop step body i s)) (snd (for_lt stop step body i s)) /\
  stop <= fst (for_lt stop step body i s).
Proof.
  intros Hs HP Hstep. unfold for_lt. split.
  - apply (for_loop_invariant P); [| exact HP].
    intros j t Hc. apply Hstep. apply Z.ltb_lt. exact Hc.
  - apply for_loop_lt_exit; [exact Hs | lia].
Qed.

Lemma for_le_invariant (P : Z -> S -> Prop) bound step body i s :
  0 < step ->
  P i s ->
  (forall j t, j <= bound -> P j t -> P (j + step) (body j t)) ->
  P (fst (for_le bound step body i s)) (snd (for_le bound step body i s)) /\
  bound < fst (for_le bound step body i s).
Proof.
  intros Hs HP Hstep. unfold for_le. split.
  - apply (for_loop_invariant P); [| exact HP].
    intros j t Hc. apply Hstep. apply Z.leb_le. exact Hc.
  - apply for_loop_le_exit; [exact Hs | lia].
Qed.

(** A loop whose condition fails at once does nothing. *)
Lemma for_lt_done stop step body i s :
  stop <= i -> for_lt stop step body i s = (i, s).
Proof.
  intro Hge. unfold for_lt. replace (Z.to_nat (stop - i)) with 0%nat by lia. reflexivity.
Qed.

(** A unit-step loop can be cut at any intermediate bound. *)
Lemma for_lt_split mid stop body i s :
  i <= mid <= stop ->
  snd (for_lt stop 1 body i s) = snd (for_lt stop 1 body mid (snd (for_lt mid 1 body i s))).
Proof.
  intros [H1 H2].
  remember (Z.to_nat (mid - i)) as n eqn:En.
  revert i s H1 En. induction n as [| n IH]; intros i s H1 En.
  - assert (i = mid) by lia. subst i.
    rewrite (for_lt_done mid 1 body mid s) by lia. reflexivity.
  - rewrite (for_lt_unfold stop 1 body i s) by lia.
    rewrite (for_lt_unfold mid 1 body i s) by lia.
    destruct (Z.ltb_spec i stop); [| lia].
    destruct (Z.ltb_spec i mid); [| lia].
    apply IH; lia.
Qed.

End LoopFacts.
End LoopFacts.

(* ===================================================================== *)
(** * The matrix products                                                *)
(* ===================================================================== *)

Module MatMulFacts.
Import LoopFacts MatMul.

(** Row-major addressing: [i * n + j] with [0 <= j < n] determines
    [i] and [j]. *)
Lemma flat_index (n i j : Z) :
  0 <= j < n -> (i * n + j) / n = i /\ (i * n + j) mod n = j.
Proof.
  intro Hj. split.
  - symmetry. apply (Z.div_unique _ _ _ j); lia.
  - symmetry. apply (Z.mod_unique _ _ i); lia.
Qed.

Lemma flat_index_inv (n idx : Z) : 0 < n -> idx = (idx / n) * n + idx mod n.
Proof. intro Hn. pose proof (Z.div_mod idx n). lia. Qed.

Section Facts.
Context {V : Type} `{Arith V}.
Variables (A B : buffer V) (cols_a cols_b : Z).

Local Abbreviation acc := (accumulate A B cols_a cols_b).

Lemma accumulate_empty i j lo hi (s : V) : hi <= lo -> acc i j lo hi s = s.
Proof. intro Hle. unfold accumulate. rewrite for_lt_done by lia. reflexivity. Qed.

Lemma accumulate_split i j lo mid hi (s : V) :
  lo <= mid <= hi -> acc i j lo hi s = acc i j mid hi (acc i j lo mid s).
Proof. intro Hm. unfold accumulate. apply for_lt_split. exact Hm. Qed.

(** Two nested unit-step loops that rewrite every entry of a block
    from its old value. *)
Lemma block_update (g : Z -> Z -> V -> V) (i0 i1 j0 j1 : Z) (C : buffer V) :
  0 <= j0 -> j1 <= cols_b ->
  forall idx,
    snd (for_lt i1 1 (fun ii C =>
      snd (for_lt j1 1 (fun jj C =>
        upd C (ii * cols_b + jj) (g ii jj (C (ii * cols_b + jj)))) j0 C)) i0 C) idx
    = if in_rect cols_b i0 i1 j0 j1 idx
      then g (idx / cols_b) (idx mod cols_b) (C idx) else C idx.
Proof.
  intros Hj0 Hj1.
  (* one row *)
  assert (Hrow : forall ii (C0 : buffer V) idx,
    snd (for_lt j1 1 (fun jj C =>
        upd C (ii * cols_b + jj) (g ii jj (C (ii * cols_b + jj)))) j0 C0) idx
    = if (idx / cols_b =? ii) && (j0 <=? idx mod cols_b) && (idx mod cols_b <? j1)
      then g ii (idx mod cols_b) (C0 idx) else C0 idx).
  { intros ii C0.
    pose (P := fun (jj : Z) (C' : buffer V) =>
      j0 <= jj /\ (jj <= j1 \/ jj = j0) /\
      forall idx, C' idx =
        if (idx / cols_b =? ii) && (j0 <=? idx mod cols_b) && (idx mod cols_b <? jj)
        then g ii (idx mod cols_b) (C0 idx) else C0 idx).
    destruct (for_lt_invariant P j1 1
               (fun jj C => upd C (ii * cols_b + jj) (g ii jj (C (ii * cols_b + jj))))
               j0 C0) as [(Hlo & Hhi & Hinv) Hexit].
    - lia.
    - unfold P. split; [lia |]. split; [lia |]. intro idx.
      bdestruct; try reflexivity; lia.
    - unfold P. intros jj C' Hlt (Hlo & Hhi & Hinv).
      split; [lia |]. split; [lia |]. intro idx.
      destruct (flat_index cols_b ii jj) as [Hd Hm]; [lia |].
      unfold upd. rewrite (Hinv (ii * cols_b + jj)). rewrite Hd, Hm.
      replace (jj <? jj) with false by (symmetry; apply Z.ltb_irrefl).
      rewrite !andb_false_r.
      destruct (Z.eqb_spec idx (ii * cols_b + jj)) as [-> | Hne].
      + rewrite Hd, Hm. bdestruct; try reflexivity; lia.
      + rewrite Hinv.
        assert (Hdec : ~ (idx / cols_b = ii /\ idx mod cols_b = jj)).
        { intros [E1 E2]. apply Hne.
          rewrite (flat_index_inv cols_b idx) by lia. rewrite E1, E2. reflexivity. }
        bdestruct; try reflexivity; exfalso; lia.
    - intro idx. rewrite Hinv.
      bdestruct; try reflexivity; exfalso; lia. }
  (* all rows *)
  pose (P := fun (ii : Z) (C' : buffer V) =>
    i0 <= ii /\
    forall idx, C' idx =
      if in_rect cols_b i0 ii j0 j1 idx
      then g (idx / cols_b) (idx mod cols_b) (C idx) else C idx).
  destruct (for_lt_invariant P i1 1
    (fun ii C => snd (for_lt j1 1 (fun jj C =>
        upd C (ii * cols_b + jj) (g ii jj (C (ii * cols_b + jj)))) j0 C))
    i0 C) as [(Hlo & Hinv) Hexit].
  - lia.
  - unfold P, in_rect. split; [lia |]. intro idx. bdestruct; try reflexivity; lia.
  - unfold P, in_rect. intros ii C' Hlt (Hlo & Hinv). split; [lia |]. intro idx.
    rewrite Hrow. rewrite Hinv.
    bdestruct; subst; try reflexivity; exfalso; lia.
  - intro idx.
    set (r := for_lt i1 1 _ i0 C) in *.
    rewrite Hinv. unfold in_rect.
    destruct (Z.le_gt_cases i1 i0) as [Hempty | Hne].
    + (* no row *)
      assert (fst r = i0).
      { subst r. rewrite for_lt_done by lia. reflexivity. }
      bdestruct; try reflexivity; exfalso; lia.
    + assert (Hfst : fst r <= i1).
      { subst r.
        destruct (for_lt_invariant (fun ii (_ : buffer V) => ii <= i1) i1 1
          (fun ii C => snd (for_lt j1 1 (fun jj C =>
             upd C (ii * cols_b + jj) (g ii jj (C (ii * cols_b + jj)))) j0 C))
          i0 C) as [K _]; [lia | lia | intros; lia | exact K]. }
      bdestruct; try reflexivity; exfalso; lia.
Qed.


(** The final index of a stepped loop from 0: a multiple of the step reached
    without overshooting by a whole step. *)
Lemma for_lt_index {S} (stop step : Z) (body : Z -> S -> S) (s : S) :
  0 < step ->
  let r := for_lt stop step body 0 s in 0 <= fst r /\ stop <= fst r.
Proof.
  intros Hs r. subst r.
  destruct (for_lt_invariant (fun i (_ : S) => 0 <= i) stop step body 0 s)
    as [K1 K2]; [lia | lia | intros; lia |]. split; assumption.
Qed.

(** What [matrix_multiply] leaves in [C]. *)
Lemma matrix_multiply_spec (C : buffer V) (rows_a : Z) :
  0 <= cols_b ->
  forall idx,
    matrix_multiply A B C rows_a cols_a cols_b idx =
    if in_rect cols_b 0 rows_a 0 cols_b idx
    then acc (idx / cols_b) (idx mod cols_b) 0 cols_a zero else C idx.
Proof.
  intros Hn idx. unfold matrix_multiply.
  apply (block_update (fun i j _ => acc i j 0 cols_a zero) 0 rows_a 0 cols_b C); lia.
Qed.

Lemma block_end_min x bs bound : block_end x bs bound = Z.min (x + bs) bound.
Proof. unfold block_end. bdestruct; lia. Qed.

(** The [k] loop of one block of [C]: every entry of the block gets its
    whole sum added, in the order of [k]. *)
Lemma k_loop_spec (rows_a i j : Z) (C : buffer V) :
  0 <= j -> 0 <= cols_a ->
  forall idx,
    snd (for_lt cols_a 32 (fun k C =>
        let i_end := if i + 32 <? rows_a then i + 32 else rows_a in
        let j_end := if j + 32 <? cols_b then j + 32 else cols_b in
        let k_end := if k + 32 <? cols_a then k + 32 else cols_a in
        snd (for_lt i_end 1 (fun ii C =>
          snd (for_lt j_end 1 (fun jj C =>
            let sum := C (ii * cols_b + jj) in
            let sum := acc ii jj k k_end sum in
            upd C (ii * cols_b + jj) sum) j C)) i C)) 0 C) idx
    = if in_rect cols_b i (block_end i 32 rows_a) j (block_end j 32 cols_b) idx
      then acc (idx / cols_b) (idx mod cols_b) 0 cols_a (C idx) else C idx.
Proof.
  intros Hj Hk.
  match goal with |- context [for_lt cols_a 32 ?b 0 C] => set (body := b) end.
  pose (P := fun (k : Z) (C' : buffer V) =>
    0 <= k /\
    forall idx, C' idx =
      if in_rect cols_b i (block_end i 32 rows_a) j (block_end j 32 cols_b) idx
      then acc (idx / cols_b) (idx mod cols_b) 0 (Z.min k cols_a) (C idx) else C idx).
  destruct (for_lt_invariant P cols_a 32 body 0 C) as [(Hlo & Hinv) Hexit].
  - lia.
  - unfold P. split; [lia |]. intro idx.
    rewrite accumulate_empty by lia. destruct (in_rect _ _ _ _ _ _); reflexivity.
  - unfold P. intros k C' Hlt (Hlo & Hinv). split; [lia |]. intro idx.
    subst body. cbv beta zeta.
    fold (block_end i 32 rows_a) (block_end j 32 cols_b) (block_end k 32 cols_a).
    rewrite (block_update (fun ii jj c => acc ii jj k (block_end k 32 cols_a) c)
               i (block_end i 32 rows_a) j (block_end j 32 cols_b) C')
      by (try rewrite block_end_min; lia).
    rewrite Hinv.
    destruct (in_rect _ _ _ _ _ _); [| reflexivity].
    rewrite block_end_min.
    replace (Z.min k cols_a) with k by lia.
    replace (Z.min (k + 32) cols_a) with (Z.min (k + 32) cols_a) by reflexivity.
    symmetry. apply accumulate_split. lia.
  - intro idx. rewrite Hinv.
    rewrite (Z.min_r _ cols_a) by exact Hexit.
    reflexivity.
Qed.


(** The [j] loop of one band of rows, and the [i] loop over the bands. *)
Lemma j_loop_spec (rows_a i : Z) (C : buffer V) :
  0 <= cols_a -> 0 <= cols_b ->
  forall idx,
    snd (for_lt cols_b 32 (fun j C =>
      snd (for_lt cols_a 32 (fun k C =>
        let i_end := if i + 32 <? rows_a then i + 32 else rows_a in
        let j_end := if j + 32 <? cols_b then j + 32 else cols_b in
        let k_end := if k + 32 <? cols_a then k + 32 else cols_a in
        snd (for_lt i_end 1 (fun ii C =>
          snd (for_lt j_end 1 (fun jj C =>
            let sum := C (ii * cols_b + jj) in
            let sum := acc ii jj k k_end sum in
            upd C (ii * cols_b + jj) sum) j C)) i C)) 0 C)) 0 C) idx
    = if in_rect cols_b i (block_end i 32 rows_a) 0 cols_b idx
      then acc (idx / cols_b) (idx mod cols_b) 0 cols_a (C idx) else C idx.
Proof.
  intros Hk Hn.
  match goal with |- context [for_lt cols_b 32 ?b 0 C] => set (body := b) end.
  pose (P := fun (j : Z) (C' : buffer V) =>
    0 <= j /\
    forall idx, C' idx =
      if in_rect cols_b i (block_end i 32 rows_a) 0 (Z.min j cols_b) idx
      then acc (idx / cols_b) (idx mod cols_b) 0 cols_a (C idx) else C idx).
  destruct (for_lt_invariant P cols_b 32 body 0 C) as [(Hlo & Hinv) Hexit].
  - lia.
  - unfold P, in_rect. split; [lia |]. intro idx. bdestruct; try reflexivity; lia.
  - unfold P. intros j C' Hlt (Hlo & Hinv). split; [lia |]. intro idx.
    subst body. cbv beta.
    rewrite (k_loop_spec rows_a i j C') by lia.
    rewrite !Hinv. rewrite (block_end_min j).
    unfold in_rect. bdestruct; try reflexivity; exfalso; lia.
  - intro idx. rewrite Hinv. rewrite (Z.min_r _ cols_b) by exact Hexit. reflexivity.
Qed.

Lemma in_rect_all (rows idx : Z) :
  0 <= rows -> 0 <= cols_b ->
  in_rect cols_b 0 rows 0 cols_b idx = (0 <=? idx) && (idx <? rows * cols_b).
Proof.
  intros Hm Hn. unfold in_rect.
  destruct (Z.eq_dec cols_b 0) as [-> | Hne].
  - rewrite Z.mul_0_r. bdestruct; try reflexivity; lia.
  - pose proof (Z.div_mod idx cols_b Hne) as Hdm.
    pose proof (Z.mod_pos_bound idx cols_b ltac:(lia)) as Hb.
    bdestruct; try reflexivity; exfalso; nia.
Qed.

(** What [matrix_multiply_optimized] leaves in [C]. *)
Lemma matrix_multiply_optimized_spec (C : buffer V) (rows_a : Z) (simd_type : string) :
  0 <= rows_a -> 0 <= cols_a -> 0 <= cols_b ->
  forall idx,
    matrix_multiply_optimized A B C rows_a cols_a cols_b simd_type idx =
    if in_rect cols_b 0 rows_a 0 cols_b idx
    then acc (idx / cols_b) (idx mod cols_b) 0 cols_a zero else C idx.
Proof.
  intros Hm Hk Hn. unfold matrix_multiply_optimized. cbv zeta.
  set (C0 := memset_zero C (rows_a * cols_b)).
  match goal with |- context [for_lt rows_a 32 ?b 0 C0] => set (body := b) end.
  pose (P := fun (i : Z) (C' : buffer V) =>
    0 <= i /\
    forall idx, C' idx =
      if in_rect cols_b 0 (Z.min i rows_a) 0 cols_b idx
      then acc (idx / cols_b) (idx mod cols_b) 0 cols_a (C0 idx) else C0 idx).
  destruct (for_lt_invariant P rows_a 32 body 0 C0) as [(Hlo & Hinv) Hexit].
  - lia.
  - unfold P, in_rect. split; [lia |]. intro idx. bdestruct; try reflexivity; lia.
  - unfold P. intros i C' Hlt (Hlo & Hinv). split; [lia |]. intro idx.
    subst body. cbv beta.
    rewrite (j_loop_spec rows_a i C') by lia.
    rewrite !Hinv. rewrite (block_end_min i).
    unfold in_rect. bdestruct; try reflexivity; exfalso; lia.
  - intro idx. rewrite Hinv. rewrite (Z.min_r _ rows_a) by exact Hexit.
    subst C0. unfold memset_zero.
    rewrite <- (in_rect_all rows_a idx) by lia.
    destruct (in_rect cols_b 0 rows_a 0 cols_b idx); reflexivity.
Qed.

(** The blocked product is the naive product, entry by entry and bit by bit. *)
Lemma blocked_eq_naive (C : buffer V) (rows_a : Z) (simd_type : string) :
  0 <= rows_a -> 0 <= cols_a -> 0 <= cols_b ->
  forall idx,
    matrix_multiply_optimized A B C rows_a cols_a cols_b simd_type idx =
    matrix_multiply A B C rows_a cols_a cols_b idx.
Proof.
  intros Hm Hk Hn idx.
  rewrite matrix_multiply_optimized_spec by assumption.
  rewrite matrix_multiply_spec by assumption. reflexivity.
Qed.

End Facts.
End MatMulFacts.

(* ===================================================================== *)
(** * Buffers and element-wise steps                                     *)
(* ===================================================================== *)

Module MemFacts.
Import LoopFacts Mem.

Lemma in_lanes (W : nat) (k : Z) : In k (lanes W) <-> 0 <= k < Z.of_nat W.
Proof.
  unfold lanes. rewrite in_map_iff. split.
  - intros (n & <- & Hn). apply in_seq in Hn. lia.
  - intros Hk. exists (Z.to_nat k). split; [lia |]. apply in_seq. lia.
Qed.

Lemma length_lanes (W : nat) : List.length (lanes W) = W.
Proof. unfold lanes. rewrite length_map, length_seq. reflexivity. Qed.

Lemma map2_map {A B C D} (f : B -> C -> D) (g : A -> B) (h : A -> C) (l : list A) :
  map2 f (map g l) (map h l) = map (fun k => f (g k) (h k)) l.
Proof.
  unfold map2. induction l as [| a l IH]; cbn; [reflexivity |]. f_equal. exact IH.
Qed.

Lemma map2_repeat {A B C} (f : A -> B -> C) (g : Z -> A) (b : B) (W : nat) :
  map2 f (map g (lanes W)) (repeat b W) = map (fun k => f (g k) b) (lanes W).
Proof.
  unfold map2, lanes. generalize 0%nat.
  induction W as [| W IH]; intro n; cbn; [reflexivity |]. f_equal. apply IH.
Qed.

Lemma ptr_eqb_eq (p q : ptr) : ptr_eqb p q = true <-> p = q.
Proof. destruct p, q; cbn; split; intro K; try reflexivity; discriminate. Qed.

Lemma ptr_eqb_refl (p : ptr) : ptr_eqb p p = true.
Proof. destruct p; reflexivity. Qed.

Section Facts.
Context {V : Type}.
Implicit Types (s : state V) (m : ptr -> buffer V).

(** The memory after a vector store of the lanes [f 0 .. f (W-1)]. *)
Lemma vstore_fold_mem (p : ptr) (i : Z) (f : Z -> V) (ks : list Z) m q idx :
  fold_left (fun m kv => store_mem m p (i + fst kv) (snd kv))
            (map (fun k => (k, f k)) ks) m q idx
  = if ptr_eqb q p && existsb (fun k => idx =? i + k) ks then f (idx - i) else m q idx.
Proof.
  revert m. induction ks as [| k ks IH]; intro m; cbn.
  - rewrite andb_false_r. reflexivity.
  - rewrite IH. unfold store_mem, upd.
    destruct (ptr_eqb q p); cbn; [| reflexivity].
    destruct (existsb (fun k0 => idx =? i + k0) ks); [rewrite orb_true_r; reflexivity |].
    rewrite orb_false_r.
    destruct (Z.eqb_spec idx (i + k)); [| reflexivity].
    f_equal. lia.
Qed.

Lemma existsb_lanes (W : nat) (i idx : Z) :
  existsb (fun k => idx =? i + k) (lanes W) = (i <=? idx) && (idx <? i + Z.of_nat W).
Proof.
  destruct (existsb _ _) eqn:E.
  - apply existsb_exists in E. destruct E as (k & Hin & Hk).
    apply in_lanes in Hin. apply Z.eqb_eq in Hk. symmetry. bdestruct; try reflexivity; lia.
  - symmetry. bdestruct; try reflexivity.
    assert (K : existsb (fun k => idx =? i + k) (lanes W) = true).
    { apply existsb_exists. exists (idx - i). split; [apply in_lanes; lia |].
      apply Z.eqb_eq. lia. }
    congruence.
Qed.

Lemma combine_lanes_map (f : Z -> V) (W : nat) :
  combine (lanes (List.length (map f (lanes W)))) (map f (lanes W))
  = map (fun k => (k, f k)) (lanes W).
Proof.
  rewrite length_map, length_lanes.
  induction (lanes W) as [| k l IH]; cbn; [reflexivity |]. f_equal. exact IH.
Qed.

Lemma vstore_mem (p : ptr) (i : Z) (f : Z -> V) (W : nat) s q idx :
  mem (vstore p i (map f (lanes W)) s) q idx
  = if ptr_eqb q p && ((i <=? idx) && (idx <? i + Z.of_nat W))
    then f (idx - i) else mem s q idx.
Proof.
  unfold vstore. cbn [mem]. rewrite combine_lanes_map, vstore_fold_mem, existsb_lanes.
  reflexivity.
Qed.

Lemma vstore_trace (p : ptr) (i : Z) (f : Z -> V) (W : nat) s :
  trace (vstore p i (map f (lanes W)) s)
  = trace s ++ map (fun k => Store p (i + k)) (lanes W).
Proof. unfold vstore. cbn [trace]. rewrite length_map, length_lanes. reflexivity. Qed.

Lemma processed_refl F s lo : processed F s lo lo s.
Proof.
  split.
  - intros q idx. bdestruct; try reflexivity; lia.
  - exists []. rewrite app_nil_r. repeat split; [constructor | intros; lia].
Qed.

Lemma processed_trans F s0 s1 s2 lo mid hi :
  local F -> lo <= mid <= hi ->
  processed F s0 lo mid s1 -> processed F s1 mid hi s2 -> processed F s0 lo hi s2.
Proof.
  intros HF Hm (M1 & t1 & T1 & B1 & C1) (M2 & t2 & T2 & B2 & C2). split.
  - intros q idx. rewrite M2.
    destruct ((mid <=? idx) && (idx <? hi)) eqn:E.
    + replace ((lo <=? idx) && (idx <? hi)) with true
        by (symmetry; revert E; bdestruct; intros; try reflexivity; try discriminate; lia).
      apply HF. intro p. rewrite M1.
      replace ((lo <=? idx) && (idx <? mid)) with false
        by (symmetry; revert E; bdestruct; intros; try reflexivity; try discriminate; lia).
      reflexivity.
    + rewrite M1. revert E. bdestruct; intros; try reflexivity; try discriminate; lia.
  - exists (t1 ++ t2). rewrite T2, T1, app_assoc. split; [reflexivity |]. split.
    + apply Forall_app. split; eapply Forall_impl; try eassumption; cbn; intros; lia.
    + intros idx Hidx. destruct (Z.lt_ge_cases idx mid).
      * destruct (C1 idx) as (a & Ha & Hi); [lia |]. exists a. split; [| exact Hi].
        apply in_or_app. left. exact Ha.
      * destruct (C2 idx) as (a & Ha & Hi); [lia |]. exists a. split; [| exact Hi].
        apply in_or_app. right. exact Ha.
Qed.

(** Two runs that processed the same range from the same state end with
    the same memory. *)
Lemma processed_same_mem F s0 lo hi s s' :
  processed F s0 lo hi s -> processed F s0 lo hi s' ->
  forall q idx, mem s q idx = mem s' q idx.
Proof. intros [M _] [M' _] q idx. rewrite M, M'. reflexivity. Qed.

Lemma processed_in_bounds F s0 lo hi s size :
  processed F s0 lo hi s -> 0 <= lo -> hi <= size -> trace s0 = [] ->
  in_bounds size (trace s).
Proof.
  intros (_ & t & T & Bt & _) Hlo Hhi E. unfold in_bounds. rewrite T, E. cbn.
  eapply Forall_impl; [| exact Bt]. cbn. intros; lia.
Qed.

End Facts.
End MemFacts.

Module KernelFacts.
Import LoopFacts Mem MemFacts.

Section Facts.
Context {V : Type}.
Implicit Types (s : state V) (F : elementwise (V:=V)).

Lemma local_Fbinop op : local (Fbinop (V:=V) op).
Proof. intros m m' idx E q. unfold Fbinop. rewrite !E. reflexivity. Qed.
Lemma local_Fscale_to mulv c : local (Fscale_to (V:=V) mulv c).
Proof. intros m m' idx E q. unfold Fscale_to. rewrite !E. reflexivity. Qed.
Lemma local_Fscale_inplace mulv c : local (Fscale_inplace (V:=V) mulv c).
Proof. intros m m' idx E q. unfold Fscale_inplace. rewrite !E. reflexivity. Qed.
Lemma local_Ffma fm : local (Ffma (V:=V) fm).
Proof. intros m m' idx E q. unfold Ffma. rewrite !E. reflexivity. Qed.

(** *** Loops over element-wise steps *)

(** The scalar loop [for (; i < size; i++)] started at [i0]. *)
Lemma tail_processed F sbody size i0 s0 :
  local F ->
  (forall i s, processed F s i (i + 1) (sbody i s)) ->
  processed F s0 i0 (Z.max i0 size) (snd (for_lt size 1 sbody i0 s0)).
Proof.
  intros HF Hb.
  pose (P := fun (i : Z) (s : state V) =>
    i0 <= i /\ (i <= size \/ i = i0) /\ processed F s0 i0 i s).
  destruct (for_lt_invariant P size 1 sbody i0 s0) as [(Hlo & Hhi & Hp) Hexit].
  - lia.
  - unfold P. split; [lia |]. split; [lia |]. apply processed_refl.
  - unfold P. intros j t Hlt (Hlo & Hhi & Hp). split; [lia |]. split; [lia |].
    apply (processed_trans F s0 t _ i0 j (j + 1)); auto. lia.
  - replace (Z.max i0 size) with (fst (for_lt size 1 sbody i0 s0)) by lia. exact Hp.
Qed.

(** The vector loop [for (; i <= size - W; i += W)] from 0. *)
Lemma chunks_processed F W vbody size s0 :
  local F -> 0 < W ->
  (forall i s, processed F s i (i + W) (vbody i s)) ->
  let r := for_le (size - W) W vbody 0 s0 in
  0 <= fst r /\ (fst r <= size \/ fst r = 0) /\ size - W < fst r /\
  processed F s0 0 (fst r) (snd r).
Proof.
  intros HF HW Hb r. subst r.
  pose (P := fun (i : Z) (s : state V) =>
    0 <= i /\ (i <= size \/ i = 0) /\ processed F s0 0 i s).
  destruct (for_le_invariant P (size - W) W vbody 0 s0) as [(Hlo & Hhi & Hp) Hexit].
  - lia.
  - unfold P. split; [lia |]. split; [lia |]. apply processed_refl.
  - unfold P. intros j t Hle (Hlo & Hhi & Hp). split; [lia |]. split; [lia |].
    apply (processed_trans F s0 t _ 0 j (j + W)); auto. lia.
  - split; [exact Hlo |]. split; [exact Hhi |]. split; [exact Hexit | exact Hp].
Qed.

Lemma INT_MIN_value : INT_MIN = -2147483648.
Proof. reflexivity. Qed.

Lemma INT_MAX_value : INT_MAX = 2147483647.
Proof. reflexivity. Qed.

(** [int_sub] is the subtraction where the difference is an [int]. *)
Lemma int_sub_exact (a b : Z) : INT_MIN <= a - b <= INT_MAX -> int_sub a b = a - b.
Proof.
  rewrite INT_MIN_value, INT_MAX_value. unfold int_sub, int_wrap. intro Hr.
  change (2 ^ 31) with 2147483648. change (2 ^ 32) with 4294967296.
  rewrite Z.mod_small by lia. lia.
Qed.

(** A kernel of [assembly_kernels.cpp]: vector loop, then scalar tail. *)
Lemma chunked_processed F W vbody sbody size s0 :
  local F -> 0 < W ->
  INT_MIN + W <= size <= INT_MAX ->
  (forall i s, processed F s i (i + W) (vbody i s)) ->
  (forall i s, processed F s i (i + 1) (sbody i s)) ->
  processed F s0 0 (Z.max 0 size) (Asm.chunked W vbody sbody size s0).
Proof.
  intros HF HW Hr Hv Hs. unfold Asm.chunked.
  rewrite int_sub_exact by lia.
  destruct (chunks_processed F W vbody size s0 HF HW Hv) as (Hlo & Hhi & Hex & Hp).
  destruct (for_le (size - W) W vbody 0 s0) as [i1 s1] eqn:E. cbn [fst snd] in *.
  pose proof (tail_processed F sbody size i1 s1 HF Hs) as Ht.
  apply (processed_trans F s0 s1 _ 0 i1 (Z.max 0 size)); auto; [lia |].
  replace (Z.max 0 size) with (Z.max i1 size) by lia. exact Ht.
Qed.

(** A kernel of [simd_kernels.cpp]: [for (i = 0; i < n; i += W)] with
    whole vectors only.  It processes up to the next multiple of [W]. *)
Lemma padded_processed F W vbody n s0 :
  local F -> 0 < W -> 0 <= n ->
  (forall i s, processed F s i (i + W) (vbody i s)) ->
  let r := for_lt n W vbody 0 s0 in
  n <= fst r < n + W /\ fst r mod W = 0 /\ processed F s0 0 (fst r) (snd r).
Proof.
  intros HF HW Hn Hb r. subst r.
  pose (P := fun (i : Z) (s : state V) =>
    0 <= i < n + W /\ i mod W = 0 /\ processed F s0 0 i s).
  destruct (for_lt_invariant P n W vbody 0 s0) as [(Hlo & Hmod & Hp) Hexit].
  - lia.
  - unfold P. split; [lia |]. split; [apply Z.mod_0_l; lia |]. apply processed_refl.
  - unfold P. intros j t Hlt (Hlo & Hmod & Hp). split; [lia |]. split.
    + rewrite <- (Z.mul_1_l W) at 1. rewrite Z.mod_add by lia. exact Hmod.
    + apply (processed_trans F s0 t _ 0 j (j + W)); auto. lia.
  - split; [lia |]. split; [exact Hmod | exact Hp].
Qed.

Lemma padded_exact (W n i : Z) :
  0 < W -> 0 <= n -> n mod W = 0 -> n <= i < n + W -> i mod W = 0 -> i = n.
Proof.
  intros HW Hn Hm Hi Him.
  pose proof (Z.div_mod n W ltac:(lia)) as E1.
  pose proof (Z.div_mod i W ltac:(lia)) as E2.
  rewrite Hm in E1. rewrite Him in E2.
  assert (i / W = n / W) by nia. nia.
Qed.

End Facts.
End KernelFacts.

Module BodyFacts.
Import LoopFacts Mem MemFacts KernelFacts.

Lemma lane_accesses_bounds (mk : Z -> access) (i : Z) (W : nat) :
  (forall k, access_index (mk k) = i + k) ->
  Forall (fun a => i <= access_index a < i + Z.of_nat W) (map mk (lanes W)).
Proof.
  intro Hmk. apply Forall_forall. intros a Ha.
  apply in_map_iff in Ha. destruct Ha as (k & <- & Hk).
  apply in_lanes in Hk. rewrite Hmk. lia.
Qed.

Lemma lane_accesses_cover (mk : Z -> access) (i : Z) (W : nat) :
  (forall k, access_index (mk k) = i + k) ->
  forall idx, i <= idx < i + Z.of_nat W ->
    exists a, In a (map mk (lanes W)) /\ access_index a = idx.
Proof.
  intros Hmk idx Hidx. exists (mk (idx - i)). split.
  - apply in_map. apply in_lanes. lia.
  - rewrite Hmk. lia.
Qed.

Section Facts.
Context {V : Type}.
Implicit Types (s : state V).

(** Every vector body: some vector loads at [i], then one vector store
    at [i] of lanes computed from the old memory. *)
Lemma vector_step (F : elementwise (V:=V)) (W : nat) (p : ptr) (i : Z) (g : Z -> V)
    (loads : list access) s :
  (forall q idx, i <= idx < i + Z.of_nat W ->
     F (mem s) q idx = if ptr_eqb q p then g (idx - i) else mem s q idx) ->
  Forall (fun a => i <= access_index a < i + Z.of_nat W) loads ->
  processed F s i (i + Z.of_nat W)
    (vstore p i (map g (lanes W)) (mkState (mem s) (trace s ++ loads))).
Proof.
  intros HF Hl. split.
  - intros q idx. rewrite vstore_mem. cbn [mem].
    destruct ((i <=? idx) && (idx <? i + Z.of_nat W)) eqn:E.
    + rewrite HF by (revert E; bdestruct; intros; try discriminate; lia).
      rewrite andb_true_r. reflexivity.
    + rewrite andb_false_r. reflexivity.
  - exists (loads ++ map (fun k => Store p (i + k)) (lanes W)).
    rewrite vstore_trace. cbn [trace]. rewrite app_assoc. split; [reflexivity |]. split.
    + apply Forall_app. split; [exact Hl |]. apply lane_accesses_bounds. reflexivity.
    + intros idx Hidx.
      destruct (lane_accesses_cover (fun k => Store p (i + k)) i W ltac:(reflexivity) idx Hidx)
        as (a & Ha & Hi).
      exists a. split; [apply in_or_app; right; exact Ha | exact Hi].
Qed.

(** Every scalar body: some loads at [i], then one store at [i]. *)
Lemma scalar_step (F : elementwise (V:=V)) (p : ptr) (i : Z) (v : V)
    (loads : list access) s :
  (forall q, F (mem s) q i = if ptr_eqb q p then v else mem s q i) ->
  Forall (fun a => access_index a = i) loads ->
  processed F s i (i + 1) (store p i v (mkState (mem s) (trace s ++ loads))).
Proof.
  intros HF Hl. split.
  - intros q idx. unfold store, store_mem, upd. cbn [mem].
    destruct (Z.eqb_spec idx i) as [-> | Hne].
    + replace ((i <=? i) && (i <? i + 1)) with true by (bdestruct; try reflexivity; lia).
      rewrite HF. destruct (ptr_eqb q p); [rewrite Z.eqb_refl |]; reflexivity.
    + replace ((i <=? idx) && (idx <? i + 1)) with false by (bdestruct; try reflexivity; lia).
      destruct (ptr_eqb q p); [| reflexivity].
      destruct (Z.eqb_spec idx i); [contradiction | reflexivity].
  - exists (loads ++ [Store p i]). unfold store. cbn [trace]. rewrite app_assoc.
    split; [reflexivity |]. split.
    + apply Forall_app. split.
      * eapply Forall_impl; [| exact Hl]. cbn. intros; lia.
      * constructor; [cbn; lia | constructor].
    + intros idx Hidx. exists (Store p i). split; [| cbn; lia].
      apply in_or_app. right. left. reflexivity.
Qed.

Lemma asm_sc_binop_step op i s :
  processed (Fbinop op) s i (i + 1) (Asm.sc_binop op i s).
Proof.
  unfold Asm.sc_binop, load. cbn [mem trace]. rewrite <- app_assoc.
  apply (scalar_step (Fbinop op) PC i _ ([Load PA i] ++ [Load PB i]) s).
  - intro q. reflexivity.
  - repeat constructor.
Qed.

Lemma asm_vec_binop_step (W : nat) op i s :
  processed (Fbinop op) s i (i + Z.of_nat W) (Asm.vec_binop W op i s).
Proof.
  unfold Asm.vec_binop, vload. cbn [mem trace]. rewrite map2_map, <- app_assoc.
  apply (vector_step (Fbinop op) W PC i
           (fun k => op (mem s PA (i + k)) (mem s PB (i + k))) _ s).
  - intros q idx Hidx. unfold Fbinop. replace (i + (idx - i)) with idx by lia. reflexivity.
  - apply Forall_app. split; apply lane_accesses_bounds; reflexivity.
Qed.

Lemma simd_vec_binop_step (W : nat) op i s :
  processed (Fbinop op) s i (i + Z.of_nat W) (Simd.vec_binop W op i s).
Proof. exact (asm_vec_binop_step W op i s). Qed.

Lemma baseline_binop_step op i s :
  processed (Fbinop op) s i (i + 1)
    (let (a, s) := load PA i s in let (b, s) := load PB i s in store PC i (op a b) s).
Proof. exact (asm_sc_binop_step op i s). Qed.

Context `{Arith V}.

Lemma asm_sc_scale_step scalar i s :
  processed (Fscale_to mul scalar) s i (i + 1) (Asm.sc_scale scalar i s).
Proof.
  unfold Asm.sc_scale, load. cbn [mem trace].
  apply (scalar_step (Fscale_to mul scalar) PB i _ [Load PA i] s).
  - intro q. reflexivity.
  - repeat constructor.
Qed.

Lemma asm_vec_scale_step (W : nat) scalar i s :
  processed (Fscale_to mul scalar) s i (i + Z.of_nat W) (Asm.vec_scale W scalar i s).
Proof.
  unfold Asm.vec_scale, vload. cbn [mem trace]. rewrite map2_repeat.
  apply (vector_step (Fscale_to mul scalar) W PB i
           (fun k => mul (mem s PA (i + k)) scalar) _ s).
  - intros q idx Hidx. unfold Fscale_to. replace (i + (idx - i)) with idx by lia. reflexivity.
  - apply lane_accesses_bounds; reflexivity.
Qed.

Lemma simd_vec_scale_step (W : nat) scalar i s :
  processed (Fscale_inplace mul scalar) s i (i + Z.of_nat W) (Simd.vec_scale W scalar i s).
Proof.
  unfold Simd.vec_scale, vload. cbn [mem trace]. rewrite map2_repeat.
  apply (vector_step (Fscale_inplace mul scalar) W PA i
           (fun k => mul (mem s PA (i + k)) scalar) _ s).
  - intros q idx Hidx. unfold Fscale_inplace. replace (i + (idx - i)) with idx by lia.
    reflexivity.
  - apply lane_accesses_bounds; reflexivity.
Qed.

Lemma baseline_scale_step scalar i s :
  processed (Fscale_inplace mul scalar) s i (i + 1)
    (let (v, s) := load PA i s in store PA i (mul v scalar) s).
Proof.
  unfold load. cbn [mem trace].
  apply (scalar_step (Fscale_inplace mul scalar) PA i _ [Load PA i] s).
  - intro q. reflexivity.
  - repeat constructor.
Qed.

Lemma map3_map (fm : V -> V -> V -> V) (fa fb fc : Z -> V) (l : list Z) :
  map (fun abc => fm (fst (fst abc)) (snd (fst abc)) (snd abc))
      (combine (combine (map fa l) (map fb l)) (map fc l))
  = map (fun k => fm (fa k) (fb k) (fc k)) l.
Proof. induction l as [| k l IH]; cbn; [reflexivity |]. f_equal. exact IH. Qed.

Lemma simd_vec_fma_step (W : nat) fm i s :
  processed (Ffma fm) s i (i + Z.of_nat W) (Simd.vec_fma W fm i s).
Proof.
  unfold Simd.vec_fma, vload. cbn [mem trace]. rewrite map3_map, <- !app_assoc.
  apply (vector_step (Ffma fm) W PR i
           (fun k => fm (mem s PA (i + k)) (mem s PB (i + k)) (mem s PC (i + k))) _ s).
  - intros q idx Hidx. unfold Ffma. replace (i + (idx - i)) with idx by lia. reflexivity.
  - repeat (apply Forall_app; split); apply lane_accesses_bounds; reflexivity.
Qed.

Lemma baseline_fma_step i s :
  processed (Ffma (fun a b c => add (mul a b) c)) s i (i + 1)
    (let (a, s) := load PA i s in
     let (b, s) := load PB i s in
     let (c, s) := load PC i s in
     store PR i (add (mul a b) c) s).
Proof.
  unfold load. cbn [mem trace]. rewrite <- !app_assoc.
  apply (scalar_step (Ffma (fun a b c => add (mul a b) c)) PR i _
           ([Load PA i] ++ [Load PB i] ++ [Load PC i]) s).
  - intro q. reflexivity.
  - repeat constructor.
Qed.

End Facts.
End BodyFacts.

Module ElementwiseFacts.
Import LoopFacts Mem MemFacts KernelFacts BodyFacts.

Section Facts.
Context {V : Type}.
Implicit Types (s : state V).

(** *** [assembly_kernels.cpp] *)

Lemma asm_binop_processed (op : V -> V -> V) (t : Asm.tier) (size : Z) s0 :
  INT_MIN + 8 <= size <= INT_MAX ->
  processed (Fbinop op) s0 0 (Z.max 0 size) (Asm.asm_binop op t size s0).
Proof.
  intro Hr. destruct t; unfold Asm.asm_binop.
  - apply chunked_processed; [apply local_Fbinop | lia | lia | | apply asm_sc_binop_step].
    intros i s. apply (asm_vec_binop_step 8).
  - apply chunked_processed; [apply local_Fbinop | lia | lia | | apply asm_sc_binop_step].
    intros i s. apply (asm_vec_binop_step 4).
  - apply chunked_processed; [apply local_Fbinop | lia | lia | | apply asm_sc_binop_step].
    intros i s. apply (asm_vec_binop_step 4).
  - apply tail_processed; [apply local_Fbinop | apply asm_sc_binop_step].
Qed.

Context `{Arith V}.

Lemma asm_vector_scale_processed (t : Asm.tier) (scalar : V) (size : Z) s0 :
  INT_MIN + 8 <= size <= INT_MAX ->
  processed (Fscale_to mul scalar) s0 0 (Z.max 0 size) (Asm.asm_vector_scale t scalar size s0).
Proof.
  intro Hr. destruct t; unfold Asm.asm_vector_scale.
  - apply chunked_processed; [apply local_Fscale_to | lia | lia | | apply asm_sc_scale_step].
    intros i s. apply (asm_vec_scale_step 8).
  - apply chunked_processed; [apply local_Fscale_to | lia | lia | | apply asm_sc_scale_step].
    intros i s. apply (asm_vec_scale_step 4).
  - apply chunked_processed; [apply local_Fscale_to | lia | lia | | apply asm_sc_scale_step].
    intros i s. apply (asm_vec_scale_step 4).
  - apply tail_processed; [apply local_Fscale_to | apply asm_sc_scale_step].
Qed.

(** *** [simd_kernels.cpp] *)

(** A loop over whole vectors processes up to the next multiple of the
    vector width. *)
Lemma whole_vectors F (W : Z) vbody (n : Z) s0 :
  local F -> 0 < W -> 0 <= n ->
  (forall i s, processed F s i (i + W) (vbody i s)) ->
  exists hi, n <= hi < n + W /\ hi mod W = 0 /\
             processed F s0 0 hi (snd (for_lt n W vbody 0 s0)).
Proof.
  intros HF HW Hn Hb.
  destruct (padded_processed F W vbody n s0 HF HW Hn Hb) as (K1 & K2 & K3).
  eexists. split; [exact K1 |]. split; [exact K2 | exact K3].
Qed.

Lemma matrix_mult_processed (t : Simd.isa) (n : Z) s0 :
  0 <= n ->
  exists hi, n <= hi < n + Simd.width t /\ hi mod Simd.width t = 0 /\
             processed (Fbinop mul) s0 0 hi (Simd.matrix_mult t n s0).
Proof.
  intro Hn.
  destruct t; cbn [Simd.width Simd.matrix_mult];
    apply whole_vectors; try apply local_Fbinop; try lia.
  - intros i s. apply (simd_vec_binop_step 16).
  - intros i s. apply (simd_vec_binop_step 8).
  - intros i s. apply (simd_vec_binop_step 8).
  - intros i s. apply (simd_vec_binop_step 4).
  - intros i s. apply (simd_vec_binop_step 4).
  - intros i s. apply baseline_binop_step.
Qed.

Lemma matrix_add_processed (t : Simd.isa) (n : Z) s0 :
  0 <= n ->
  exists hi, n <= hi < n + Simd.width t /\ hi mod Simd.width t = 0 /\
             processed (Fbinop add) s0 0 hi (Simd.matrix_add t n s0).
Proof.
  intro Hn.
  destruct t; cbn [Simd.width Simd.matrix_add];
    apply whole_vectors; try apply local_Fbinop; try lia.
  - intros i s. apply (simd_vec_binop_step 16).
  - intros i s. apply (simd_vec_binop_step 8).
  - intros i s. apply (simd_vec_binop_step 8).
  - intros i s. apply (simd_vec_binop_step 4).
  - intros i s. apply (simd_vec_binop_step 4).
  - intros i s. apply baseline_binop_step.
Qed.

Lemma vector_scale_processed (t : Simd.isa) (scalar : V) (n : Z) s0 :
  0 <= n ->
  exists hi, n <= hi < n + Simd.width t /\ hi mod Simd.width t = 0 /\
             processed (Fscale_inplace mul scalar) s0 0 hi (Simd.vector_scale t scalar n s0).
Proof.
  intro Hn.
  destruct t; cbn [Simd.width Simd.vector_scale];
    apply whole_vectors; try apply local_Fscale_inplace; try lia.
  - intros i s. apply (simd_vec_scale_step 16).
  - intros i s. apply (simd_vec_scale_step 8).
  - intros i s. apply (simd_vec_scale_step 8).
  - intros i s. apply (simd_vec_scale_step 4).
  - intros i s. apply (simd_vec_scale_step 4).
  - intros i s. apply baseline_scale_step.
Qed.

(** When [n] is a multiple of the width, a range processed up to the
    next multiple is processed up to [n]. *)
Lemma processed_multiple F s0 s (W n hi : Z) :
  0 < W -> 0 <= n -> n mod W = 0 -> n <= hi < n + W -> hi mod W = 0 ->
  processed F s0 0 hi s -> processed F s0 0 n s.
Proof.
  intros HW Hn Hm Hhi Hhm Hp.
  rewrite <- (padded_exact W n hi) by assumption. exact Hp.
Qed.

(** When it is not, the element of index [n], which is past the
    caller's [n] elements, is accessed. *)
Lemma processed_overrun F s0 s (W n hi : Z) :
  0 <= n -> n mod W <> 0 -> n <= hi -> hi mod W = 0 -> trace s0 = [] ->
  processed F s0 0 hi s -> ~ in_bounds n (trace s).
Proof.
  intros Hn Hm Hhi Hhm E (_ & t & T & _ & Cov) Hb.
  assert (hi <> n) by (intros ->; contradiction).
  destruct (Cov n) as (a & Ha & Hi); [lia |].
  unfold in_bounds in Hb. rewrite T, E in Hb. cbn in Hb.
  rewrite Forall_forall in Hb. specialize (Hb a Ha). lia.
Qed.

End Facts.
End ElementwiseFacts.

Module FmaFacts.
Import LoopFacts Mem MemFacts KernelFacts BodyFacts ElementwiseFacts.

(** binary32 addition is commutative. *)
Lemma SFadd_comm (prec emax : Z) (x y : spec_float) :
  SFadd prec emax x y = SFadd prec emax y x.
Proof.
  destruct x as [sx | sx | | sx mx ex], y as [sy | sy | | sy my ey]; cbn;
    try reflexivity; try (destruct sx, sy; reflexivity).
  rewrite Z.min_comm, Z.add_comm. reflexivity.
Qed.

Section Facts.
Context {V : Type} `{Arith V} `{Fused V}.
Implicit Types (s : state V).

(** Two lane operations that agree give the same element-wise step. *)
Lemma processed_ext (F G : elementwise (V:=V)) s0 lo hi s :
  (forall m q idx, F m q idx = G m q idx) ->
  processed F s0 lo hi s -> processed G s0 lo hi s.
Proof.
  intros E (M & T). split; [| exact T].
  intros q idx. rewrite M, E. reflexivity.
Qed.

Lemma fma_baseline_processed (n : Z) s0 :
  0 <= n ->
  processed (Ffma (fun a b c => add (mul a b) c)) s0 0 n (Simd.fma_baseline n s0).
Proof.
  intro Hn. unfold Simd.fma_baseline.
  replace n with (Z.max 0 n) at 1 by lia.
  apply tail_processed; [apply local_Ffma |].
  intros i s. apply baseline_fma_step.
Qed.

Lemma fma_vectors_processed (W : nat) (fm : V -> V -> V -> V) (n : Z) s0 :
  (0 < W)%nat -> 0 <= n -> n mod Z.of_nat W = 0 ->
  processed (Ffma fm) s0 0 n (snd (for_lt n (Z.of_nat W) (Simd.vec_fma W fm) 0 s0)).
Proof.
  intros HW Hn Hm.
  destruct (whole_vectors (Ffma fm) (Z.of_nat W) (Simd.vec_fma W fm) n s0)
    as (hi & Hhi & Hhm & Hp); [apply local_Ffma | lia | lia | |].
  - intros i s. apply simd_vec_fma_step.
  - apply (processed_multiple _ _ _ (Z.of_nat W) n hi); auto. lia.
Qed.

End Facts.
(** A fused multiply-add and the two-step baseline are not within any
    small relative tolerance of one another: where the product rounds to
    the opposite of the addend, the baseline gives 0 and the fused
    kernel the rounding error of the product. *)
Lemma fused_fma_differs :
  mem (Simd.fma_avx512 16 Examples.fma16) PR 0 = binary_normalize 24 128 1 (-24) false /\
  mem (Simd.fma_baseline 16 Examples.fma16) PR 0 = S754_zero false /\
  ~ within_rel_tol (1 # 100000)
      (b32_to_Q (mem (Simd.fma_avx512 16 Examples.fma16) PR 0))
      (b32_to_Q (mem (Simd.fma_baseline 16 Examples.fma16) PR 0)).
Proof.
  split; [vm_compute; reflexivity |]. split; [vm_compute; reflexivity |].
  intros [K | K]; vm_compute in K; apply K; reflexivity.
Qed.

End FmaFacts.

(* ===================================================================== *)
(** * The dot product and the matrix product as sums                     *)
(* ===================================================================== *)

Module DotFacts.
Import LoopFacts Asm Dot.

Lemma for_le_done {S} (bound step : Z) (body : Z -> S -> S) (i : Z) (s : S) :
  bound < i -> for_le bound step body i s = (i, s).
Proof.
  intro Hlt. unfold for_le. replace (Z.to_nat (bound - i + 1)) with 0%nat by lia.
  reflexivity.
Qed.

(** ** The horizontal additions, lane by lane *)

Section Lanes.
Context {V : Type} `{Arith V}.

Lemma hadd_avx2_lanes (l0 l1 l2 l3 l4 l5 l6 l7 : V) :
  hadd_avx2 [l0; l1; l2; l3; l4; l5; l6; l7] =
  add (add (add l0 l4) (add l2 l6)) (add (add l1 l5) (add l3 l7)).
Proof. reflexivity. Qed.

Lemma hadd_sse42_lanes (l0 l1 l2 l3 : V) :
  hadd_sse42 [l0; l1; l2; l3] = add (add l0 l1) (add l2 l3).
Proof. reflexivity. Qed.

Lemma hadd_neon_lanes (l0 l1 l2 l3 : V) :
  hadd_neon [l0; l1; l2; l3] = add (add l0 l2) (add l1 l3).
Proof. reflexivity. Qed.

End Lanes.

(** ** Sizes below the vector width: the vector loop does not run *)

Lemma dot_small_binary32 (t : tier) (A B : buffer binary32) (size : Z) :
  INT_MIN + 8 <= size ->
  size < width t ->
  asm_vector_dot t A B size = asm_vector_dot Scalar A B size.
Proof.
  intros Hr Hw. pose proof KernelFacts.INT_MAX_value as Hmax.
  destruct t; cbn [width] in Hw; unfold asm_vector_dot; cbv zeta;
    rewrite ?KernelFacts.int_sub_exact by lia;
    try rewrite for_le_done by lia; reflexivity.
Qed.

(** ** Exact arithmetic *)

Section Exact.
Variables A B : buffer Z.

Local Abbreviation prefix_sum := (Dot.prefix_sum A B).

Lemma prefix_sum_0 : prefix_sum 0 = 0.
Proof. unfold prefix_sum, dot_tail. rewrite for_lt_done by lia. reflexivity. Qed.

Lemma dot_tail_from (size i : Z) :
  0 <= i <= size -> dot_tail A B size i (prefix_sum i) = prefix_sum size.
Proof.
  intro Hi. unfold prefix_sum, dot_tail. symmetry. apply for_lt_split. exact Hi.
Qed.

Lemma prefix_sum_succ (i : Z) :
  0 <= i -> prefix_sum (i + 1) = prefix_sum i + A i * B i.
Proof.
  intro Hi. rewrite <- (dot_tail_from (i + 1) i) by lia.
  unfold dot_tail. rewrite for_lt_unfold by lia.
  destruct (Z.ltb_spec i (i + 1)); [| lia].
  rewrite for_lt_done by lia. reflexivity.
Qed.

Lemma prefix_sum_4 (i : Z) :
  0 <= i ->
  prefix_sum (i + 4) =
  prefix_sum i + A (i + 0) * B (i + 0) + A (i + 1) * B (i + 1)
  + A (i + 2) * B (i + 2) + A (i + 3) * B (i + 3).
Proof.
  intro Hi.
  replace (i + 4) with (i + 3 + 1) by lia. rewrite prefix_sum_succ by lia.
  replace (i + 3) with (i + 2 + 1) at 1 by lia. rewrite prefix_sum_succ by lia.
  replace (i + 2) with (i + 1 + 1) at 1 by lia. rewrite prefix_sum_succ by lia.
  rewrite prefix_sum_succ by lia.
  replace (i + 1 + 1) with (i + 2) by lia. replace (i + 2 + 1) with (i + 3) by lia.
  rewrite Z.add_0_r. reflexivity.
Qed.

Lemma prefix_sum_8 (i : Z) :
  0 <= i ->
  prefix_sum (i + 8) =
  prefix_sum i + A (i + 0) * B (i + 0) + A (i + 1) * B (i + 1)
  + A (i + 2) * B (i + 2) + A (i + 3) * B (i + 3)
  + A (i + 4) * B (i + 4) + A (i + 5) * B (i + 5)
  + A (i + 6) * B (i + 6) + A (i + 7) * B (i + 7).
Proof.
  intro Hi.
  replace (i + 8) with (i + 4 + 4) by lia.
  rewrite prefix_sum_4 by lia. rewrite prefix_sum_4 by lia.
  replace (i + 4 + 0) with (i + 4) by lia. replace (i + 4 + 1) with (i + 5) by lia.
  replace (i + 4 + 2) with (i + 6) by lia. replace (i + 4 + 3) with (i + 7) by lia.
  reflexivity.
Qed.

(** The vector loop keeps, spread over its lanes, the sum of the
    products it has consumed. *)
Lemma chunks_sum_4 (size : Z) :
  let r := for_le (size - 4) 4 (dot_chunk 4 A B) 0 (repeat zero 4) in
  0 <= fst r /\ (fst r <= size \/ fst r = 0) /\
  exists l0 l1 l2 l3, snd r = [l0; l1; l2; l3] /\ l0 + l1 + l2 + l3 = prefix_sum (fst r).
Proof.
  intro r. subst r.
  pose (P := fun (i : Z) (sum : list Z) =>
    0 <= i /\ (i <= size \/ i = 0) /\
    exists l0 l1 l2 l3, sum = [l0; l1; l2; l3] /\ l0 + l1 + l2 + l3 = prefix_sum i).
  destruct (for_le_invariant P (size - 4) 4 (dot_chunk 4 A B) 0 (repeat zero 4))
    as [K _].
  - lia.
  - unfold P. split; [lia |]. split; [lia |].
    exists 0, 0, 0, 0. split; [reflexivity |]. rewrite prefix_sum_0. reflexivity.
  - unfold P. intros j t Hle (Hlo & Hhi & l0 & l1 & l2 & l3 & -> & Hsum).
    split; [lia |]. split; [lia |].
    unfold dot_chunk, loadu. cbn.
    do 4 eexists. split; [reflexivity |].
    rewrite prefix_sum_4 by lia. lia.
  - exact K.
Qed.

Lemma chunks_sum_8 (size : Z) :
  let r := for_le (size - 8) 8 (dot_chunk 8 A B) 0 (repeat zero 8) in
  0 <= fst r /\ (fst r <= size \/ fst r = 0) /\
  exists l0 l1 l2 l3 l4 l5 l6 l7,
    snd r = [l0; l1; l2; l3; l4; l5; l6; l7] /\
    l0 + l1 + l2 + l3 + l4 + l5 + l6 + l7 = prefix_sum (fst r).
Proof.
  intro r. subst r.
  pose (P := fun (i : Z) (sum : list Z) =>
    0 <= i /\ (i <= size \/ i = 0) /\
    exists l0 l1 l2 l3 l4 l5 l6 l7,
      sum = [l0; l1; l2; l3; l4; l5; l6; l7] /\
      l0 + l1 + l2 + l3 + l4 + l5 + l6 + l7 = prefix_sum i).
  destruct (for_le_invariant P (size - 8) 8 (dot_chunk 8 A B) 0 (repeat zero 8))
    as [K _].
  - lia.
  - unfold P. split; [lia |]. split; [lia |].
    exists 0, 0, 0, 0, 0, 0, 0, 0. split; [reflexivity |]. rewrite prefix_sum_0. reflexivity.
  - unfold P. intros j t Hle (Hlo & Hhi & l0 & l1 & l2 & l3 & l4 & l5 & l6 & l7 & -> & Hsum).
    split; [lia |]. split; [lia |].
    unfold dot_chunk, loadu. cbn.
    do 8 eexists. split; [reflexivity |].
    rewrite prefix_sum_8 by lia. lia.
  - exact K.
Qed.

Lemma tail_from_prefix (size i : Z) :
  0 <= i -> i <= size \/ i = 0 ->
  dot_tail A B size i (prefix_sum i) = dot_tail A B size 0 0.
Proof.
  intros Hlo [Hle | ->].
  - rewrite dot_tail_from by lia. reflexivity.
  - rewrite prefix_sum_0. reflexivity.
Qed.

(** With exact arithmetic every branch returns the scalar sum. *)
Lemma dot_exact (t : tier) (size : Z) :
  INT_MIN + 8 <= size <= INT_MAX ->
  asm_vector_dot t A B size = asm_vector_dot Scalar A B size.
Proof.
  intro Hr. destruct t; unfold asm_vector_dot; cbv zeta;
    rewrite ?KernelFacts.int_sub_exact by lia.
  - destruct (chunks_sum_8 size) as (Hlo & Hhi & l0 & l1 & l2 & l3 & l4 & l5 & l6 & l7 & E & Hs).
    destruct (for_le (size - 8) 8 (dot_chunk 8 A B) 0 (repeat zero 8)) as [i sum].
    cbn [fst snd] in *. subst sum.
    replace (add zero (hadd_avx2 [l0; l1; l2; l3; l4; l5; l6; l7])) with (prefix_sum i)
      by (rewrite <- Hs, hadd_avx2_lanes; cbn -[Z.add]; lia).
    apply tail_from_prefix; assumption.
  - destruct (chunks_sum_4 size) as (Hlo & Hhi & l0 & l1 & l2 & l3 & E & Hs).
    destruct (for_le (size - 4) 4 (dot_chunk 4 A B) 0 (repeat zero 4)) as [i sum].
    cbn [fst snd] in *. subst sum.
    replace (add zero (hadd_sse42 [l0; l1; l2; l3])) with (prefix_sum i)
      by (rewrite <- Hs, hadd_sse42_lanes; cbn -[Z.add]; lia).
    apply tail_from_prefix; assumption.
  - destruct (chunks_sum_4 size) as (Hlo & Hhi & l0 & l1 & l2 & l3 & E & Hs).
    destruct (for_le (size - 4) 4 (dot_chunk 4 A B) 0 (repeat zero 4)) as [i sum].
    cbn [fst snd] in *. subst sum.
    replace (add zero (hadd_neon [l0; l1; l2; l3])) with (prefix_sum i)
      by (rewrite <- Hs, hadd_neon_lanes; cbn -[Z.add]; lia).
    apply tail_from_prefix; assumption.
  - reflexivity.
Qed.

End Exact.
End DotFacts.

Module ProductFacts.
Import LoopFacts MatMul.

Lemma lanes_succ (n : nat) : lanes (S n) = 0 :: map Z.succ (lanes n).
Proof.
  unfold lanes. cbn. f_equal. rewrite <- seq_shift, !map_map.
  apply map_ext. intro k. lia.
Qed.

(** A unit-step loop is a fold over its indices. *)
Lemma for_lt_fold {St} (body : Z -> St -> St) (n : nat) (lo : Z) (s : St) :
  snd (for_lt (lo + Z.of_nat n) 1 body lo s)
  = fold_left (fun s k => body k s) (map (fun k => lo + k) (lanes n)) s.
Proof.
  revert lo s. induction n as [| n IH]; intros lo s.
  - rewrite for_lt_done by lia. reflexivity.
  - rewrite for_lt_unfold by lia.
    destruct (Z.ltb_spec lo (lo + Z.of_nat (S n))); [| lia].
    replace (lo + Z.of_nat (S n)) with (lo + 1 + Z.of_nat n) by lia.
    rewrite IH, lanes_succ. cbn [map fold_left]. rewrite Z.add_0_r, map_map.
    f_equal. apply map_ext. intro k. lia.
Qed.

Section Facts.
Context {V : Type} `{Arith V}.

Lemma accumulate_product (A B : buffer V) (cols_a cols_b i j : Z) :
  0 <= cols_a ->
  accumulate A B cols_a cols_b i j 0 cols_a zero = product_entry A B cols_a cols_b i j.
Proof.
  intro Hk. unfold accumulate, product_entry.
  replace cols_a with (0 + Z.of_nat (Z.to_nat cols_a)) at 1 by lia.
  rewrite for_lt_fold. f_equal.
  rewrite <- (map_id (lanes (Z.to_nat cols_a))) at 2. apply map_ext. intro k. lia.
Qed.

End Facts.
End ProductFacts.

(* ===================================================================== *)
(** * Properties of the capability detector                              *)
(* ===================================================================== *)

Module PipelineOptFacts.
Import PipelineOpt.

(** The flag word is the union of one flag per CPUID bit, so each flag
    can be read back from it. *)
Lemma feature_bits_flags (ebx ecx edx : Z) :
  (Z.land (feature_bits ebx ecx edx) 128 <> 0 <-> Z.land ebx (Z.shiftl 1 5) <> 0) /\
  (Z.land (feature_bits ebx ecx edx) 32 <> 0 <-> Z.land ecx (Z.shiftl 1 20) <> 0).
Proof.
  unfold feature_bits, set_if.
  repeat match goal with
         | |- context [Z.land ?r (Z.shiftl 1 ?b) =? 0] =>
             let E := fresh "E" in
             destruct (Z.eqb_spec (Z.land r (Z.shiftl 1 b)) 0) as [E | E];
             try rewrite E
         end;
    split; split; intro K; try assumption; try discriminate;
    try (exfalso; apply K; reflexivity); exfalso; vm_compute in K; congruence.
Qed.

Lemma feature_bits_zero_regs : feature_bits 0 0 0 = 0.
Proof. reflexivity. Qed.

Lemma level_cases (f p : Z) :
  let l := if truthy (Z.land f 128) && truthy p then 2
           else if truthy (Z.land f 32) && truthy p then 1 else 0 in
  (l = 0 \/ l = 1 \/ l = 2) /\
  (l = 2 <-> Z.land f 128 <> 0 /\ p <> 0) /\
  (l = 1 <-> ~ Z.land f 128 <> 0 /\ Z.land f 32 <> 0 /\ p <> 0) /\
  (l = 0 <-> ~ ((Z.land f 128 <> 0 \/ Z.land f 32 <> 0) /\ p <> 0)).
Proof.
  unfold truthy.
  destruct (Z.eqb_spec (Z.land f 128) 0) as [E1 | E1];
    destruct (Z.eqb_spec (Z.land f 32) 0) as [E2 | E2];
    destruct (Z.eqb_spec p 0) as [E3 | E3]; cbn; intuition (try lia; try congruence).
Qed.

End PipelineOptFacts.

Module AsmLevelFacts.
Import Build AsmLevel.

Lemma level_range (b : build) (cpuid : cpuid_insn) :
  let l := get_assembly_optimization_level b cpuid in l = 0 \/ l = 1 \/ l = 2.
Proof.
  unfold get_assembly_optimization_level.
  destruct (b_platform b), (b_arch b); cbn;
    repeat match goal with
           | |- context [if ?c then _ else _] => destruct c; cbn
           end; auto.
Qed.

End AsmLevelFacts.

(* ===================================================================== *)
(** * Properties of the memory probe                                     *)
(* ===================================================================== *)

Module MemoryProbesFacts.
Import MemoryProbes.

(** The flag [mem_probe] computes for a probe that is not NULL. *)
Lemma mem_probe_flag (o : os) (p : MemoryProbe) (res : option MemoryProbeResult) (w : world) :
  fst (fst (mem_probe o (Some p) res w)) =
  if (0 <? threshold p)%N && (threshold p <? current_mem o)%N then 1 else 0.
Proof.
  unfold mem_probe.
  destruct res; cbn;
    destruct ((0 <? threshold p)%N && (threshold p <? current_mem o)%N); reflexivity.
Qed.

(** The result object is filled, and its flag is the returned one. *)
Lemma mem_probe_result (o : os) (p : MemoryProbe) (r0 : MemoryProbeResult) (w : world) :
  exists r, snd (fst (mem_probe o (Some p) (Some r0) w)) = Some r /\
            threshold_exceeded r = fst (fst (mem_probe o (Some p) (Some r0) w)) /\
            current_memory r = current_mem o.
Proof.
  unfold mem_probe; cbn.
  destruct ((0 <? threshold p)%N && (threshold p <? current_mem o)%N); cbn;
    eexists; repeat split.
Qed.

Lemma mem_probe_alerts (o : os) (p : MemoryProbe) (res : option MemoryProbeResult) (w : world) :
  fst (fst (mem_probe o (Some p) res w)) = 0 ->
  alerts (snd (mem_probe o (Some p) res w)) = alerts w.
Proof.
  unfold mem_probe.
  destruct res; cbn;
    destruct ((0 <? threshold p)%N && (threshold p <? current_mem o)%N); cbn;
    intro K; try discriminate; reflexivity.
Qed.

End MemoryProbesFacts.

(* ===================================================================== *)
(** * Bounds of the element-wise kernels                                 *)
(* ===================================================================== *)

Module BoundsFacts.
Import Mem MemFacts KernelFacts ElementwiseFacts.

Section Facts.
Context {V : Type} `{Arith V}.
Implicit Types (s : state V).

(** The [asm_*] kernels stay inside the caller's [size] elements, and
    reach each of them. *)
Lemma asm_kernels_in_bounds (op : V -> V -> V) (t : Asm.tier) (scalar : V) (size : Z) s :
  0 <= size <= INT_MAX -> trace s = [] ->
  in_bounds size (trace (Asm.asm_binop op t size s)) /\
  in_bounds size (trace (Asm.asm_vector_scale t scalar size s)).
Proof.
  intros Hs E.
  assert (Hr : INT_MIN + 8 <= size <= INT_MAX) by (unfold INT_MIN in *; lia).
  split.
  - apply (processed_in_bounds (Fbinop op) s 0 (Z.max 0 size)); auto; try lia.
    apply asm_binop_processed. exact Hr.
  - apply (processed_in_bounds (Fscale_to mul scalar) s 0 (Z.max 0 size)); auto; try lia.
    apply asm_vector_scale_processed. exact Hr.
Qed.

(** The vector kernels of [simd_kernels.cpp] access the element of
    index [n] whenever [n] is not a multiple of their width. *)
Lemma simd_kernels_overrun (t : Simd.isa) (scalar : V) (n : Z) s :
  0 <= n -> n mod Simd.width t <> 0 -> trace s = [] ->
  ~ in_bounds n (trace (Simd.matrix_mult t n s)) /\
  ~ in_bounds n (trace (Simd.matrix_add t n s)) /\
  ~ in_bounds n (trace (Simd.vector_scale t scalar n s)).
Proof.
  intros Hn Hm E.
  destruct (matrix_mult_processed t n s Hn) as (h1 & B1 & M1 & P1).
  destruct (matrix_add_processed t n s Hn) as (h2 & B2 & M2 & P2).
  destruct (vector_scale_processed t scalar n s Hn) as (h3 & B3 & M3 & P3).
  split; [| split].
  - apply (processed_overrun (Fbinop mul) s _ (Simd.width t) n h1); auto; lia.
  - apply (processed_overrun (Fbinop add) s _ (Simd.width t) n h2); auto; lia.
  - apply (processed_overrun (Fscale_inplace mul scalar) s _ (Simd.width t) n h3); auto; lia.
Qed.

End Facts.
End BoundsFacts.

Module AsmMatMulFacts.
Import AsmMatMul.

(** The four copies of the plain triple loop are the loop of
    [matrix_multiply] of [simd_kernels.cpp]. *)
Lemma asm_naive_is_matrix_multiply {V : Type} `{Arith V}
    (A B C : buffer V) (M N K : Z) :
  asm_matrix_multiply Naive A B C M N K = MatMul.matrix_multiply A B C M K N.
Proof. reflexivity. Qed.

(** The NEON loop multiplies four elements of a row of [A] with four
    consecutive elements of a row of [B], not with a column of [B]:
    for a 1 x 4 by 4 x 2 product its first entry is 11 where the plain
    loop gives 1. *)
Lemma asm_neon_differs :
  asm_matrix_multiply NeonVec Examples.rowA Examples.colsB (fun _ => 0) 1 2 4 0 = 11 /\
  asm_matrix_multiply Naive Examples.rowA Examples.colsB (fun _ => 0) 1 2 4 0 = 1.
Proof. split; vm_compute; reflexivity. Qed.

End AsmMatMulFacts.

(* ===================================================================== *)
(** * Lemmas for the further properties                                  *)
(* ===================================================================== *)

Module LoopExtFacts.
Import LoopFacts.

(** Loops whose bodies agree wherever the condition lets them run agree. *)
Lemma for_loop_ext {St} (cond : Z -> bool) (step : Z) (body body' : Z -> St -> St) :
  (forall i s, cond i = true -> body i s = body' i s) ->
  forall fuel i s, for_loop fuel cond step body i s = for_loop fuel cond step body' i s.
Proof.
  intros E fuel. induction fuel as [| fuel IH]; intros i s; cbn; [reflexivity |].
  destruct (cond i) eqn:C; [| reflexivity]. rewrite E by exact C. apply IH.
Qed.

Lemma for_lt_ext {St} (stop step : Z) (body body' : Z -> St -> St) (i : Z) (s : St) :
  (forall j t, j < stop -> body j t = body' j t) ->
  for_lt stop step body i s = for_lt stop step body' i s.
Proof.
  intro E. unfold for_lt. apply for_loop_ext.
  intros j t C. apply E. apply Z.ltb_lt. exact C.
Qed.

Lemma for_le_ext {St} (bound step : Z) (body body' : Z -> St -> St) (i : Z) (s : St) :
  (forall j t, j <= bound -> body j t = body' j t) ->
  for_le bound step body i s = for_le bound step body' i s.
Proof.
  intro E. unfold for_le. apply for_loop_ext.
  intros j t C. apply E. apply Z.leb_le. exact C.
Qed.

End LoopExtFacts.

Module SimdFootprintFacts.
Import LoopFacts Mem MemFacts KernelFacts ElementwiseFacts LoopExtFacts.

Lemma round_up_unique (n W hi : Z) :
  0 < W -> n <= hi < n + W -> hi mod W = 0 -> hi = round_up n W.
Proof.
  intros HW Hhi Hm. unfold round_up.
  pose proof (Z.div_mod hi W ltac:(lia)) as E. rewrite Hm, Z.add_0_r in E.
  rewrite E at 1. f_equal.
  apply (Z.div_unique (n + W - 1) W (hi / W) (n + W - 1 - hi)); lia.
Qed.

Lemma width_pos (t : Simd.isa) : 0 < Simd.width t.
Proof. destruct t; cbn; lia. Qed.

Lemma round_up_overrun (n W : Z) :
  0 < W -> 0 <= n -> n mod W <> 0 -> n < round_up n W.
Proof.
  intros HW Hn Hm. unfold round_up.
  pose proof (Z.div_mod n W ltac:(lia)) as E.
  pose proof (Z.mod_pos_bound n W HW) as Bd.
  assert (Hq : (n + W - 1) / W = n / W + 1).
  { symmetry. apply (Z.div_unique (n + W - 1) W (n / W + 1) (n mod W - 1)); lia. }
  rewrite Hq. lia.
Qed.

End SimdFootprintFacts.

Module DotSymFacts.
Import Mem Dot LoopExtFacts.

Lemma SFmul_comm (prec emax : Z) (x y : spec_float) :
  SFmul prec emax x y = SFmul prec emax y x.
Proof.
  destruct x as [sx | sx | | sx mx ex], y as [sy | sy | | sy my ey]; cbn;
    try reflexivity; try (rewrite xorb_comm; reflexivity).
  rewrite xorb_comm, Pos.mul_comm, Z.add_comm. reflexivity.
Qed.

Lemma map2_mul_comm (a b : list binary32) : map2 mul a b = map2 mul b a.
Proof.
  unfold map2. revert b. induction a as [| x a IH]; intros [| y b]; cbn; try reflexivity.
  f_equal; [apply SFmul_comm | apply IH].
Qed.

Lemma dot_chunk_comm (W : nat) (A B : buffer binary32) (i : Z) (sum : list binary32) :
  dot_chunk W A B i sum = dot_chunk W B A i sum.
Proof. unfold dot_chunk. rewrite map2_mul_comm. reflexivity. Qed.

Lemma dot_tail_comm (A B : buffer binary32) (size i : Z) (r : binary32) :
  dot_tail A B size i r = dot_tail B A size i r.
Proof.
  unfold dot_tail. f_equal. apply for_lt_ext. intros j t _.
  f_equal. apply SFmul_comm.
Qed.

End DotSymFacts.

Module MatMulExtraFacts.
Import LoopFacts MatMul MatMulFacts LoopExtFacts.

Section Facts.
Context {V : Type} `{Arith V}.
Variables (A B : buffer V) (rows_a cols_a cols_b : Z).
Hypothesis (Hm : 0 <= rows_a) (Hk : 0 <= cols_a) (Hn : 0 <= cols_b).

(** Both products as one function of the index. *)
Lemma naive_entries (C : buffer V) (idx : Z) :
  matrix_multiply A B C rows_a cols_a cols_b idx =
  if (0 <=? idx) && (idx <? rows_a * cols_b)
  then accumulate A B cols_a cols_b (idx / cols_b) (idx mod cols_b) 0 cols_a zero
  else C idx.
Proof.
  rewrite matrix_multiply_spec by assumption. rewrite in_rect_all by assumption. reflexivity.
Qed.

Lemma blocked_entries (C : buffer V) (h : string) (idx : Z) :
  matrix_multiply_optimized A B C rows_a cols_a cols_b h idx =
  if (0 <=? idx) && (idx <? rows_a * cols_b)
  then accumulate A B cols_a cols_b (idx / cols_b) (idx mod cols_b) 0 cols_a zero
  else C idx.
Proof.
  rewrite matrix_multiply_optimized_spec by assumption.
  rewrite in_rect_all by assumption. reflexivity.
Qed.

End Facts.
End MatMulExtraFacts.

Module NeonProductFacts.
Import LoopFacts AsmMatMul Dot DotFacts LoopExtFacts.


End NeonProductFacts.

Module DetectFacts.
Import PipelineOpt.

(** Each flag of the feature word is read back as the CPUID bit it was
    set from, and the word fits in eight bits. *)
Lemma feature_bits_table (ebx ecx edx : Z) :
  let f := feature_bits ebx ecx edx in
  0 <= f < 256 /\
  (Z.land f 1 <> 0 <-> Z.land edx (Z.shiftl 1 25) <> 0) /\
  (Z.land f 2 <> 0 <-> Z.land edx (Z.shiftl 1 26) <> 0) /\
  (Z.land f 4 <> 0 <-> Z.land ecx (Z.shiftl 1 0) <> 0) /\
  (Z.land f 8 <> 0 <-> Z.land ecx (Z.shiftl 1 9) <> 0) /\
  (Z.land f 16 <> 0 <-> Z.land ecx (Z.shiftl 1 19) <> 0) /\
  (Z.land f 32 <> 0 <-> Z.land ecx (Z.shiftl 1 20) <> 0) /\
  (Z.land f 64 <> 0 <-> Z.land ecx (Z.shiftl 1 28) <> 0) /\
  (Z.land f 128 <> 0 <-> Z.land ebx (Z.shiftl 1 5) <> 0).
Proof.
  unfold feature_bits, set_if.
  repeat match goal with
         | |- context [Z.land ?r (Z.shiftl 1 ?b) =? 0] =>
             let E := fresh "E" in
             destruct (Z.eqb_spec (Z.land r (Z.shiftl 1 b)) 0) as [E | E];
             try rewrite E
         end;
    cbv zeta; (split; [vm_compute; split; congruence |]);
    repeat split; intro K; try assumption; try discriminate;
    try (exfalso; apply K; reflexivity); exfalso; vm_compute in K; congruence.
Qed.

Lemma land_byte (x : Z) : 0 <= Z.land x 255 <= 255.
Proof.
  assert (E : Z.land x 255 = x mod 256)
    by (change 255 with (Z.ones 8); apply Z.land_ones; lia).
  rewrite E. pose proof (Z.mod_pos_bound x 256 ltac:(lia)). lia.
Qed.

Lemma clflush_line_size_range (ebx : Z) :
  0 <= clflush_line_size ebx <= 2040 /\ clflush_line_size ebx mod 8 = 0.
Proof.
  unfold clflush_line_size. pose proof (land_byte (Z.shiftr ebx 8)).
  split; [lia |]. apply Z.mod_mul. lia.
Qed.

(** The line size is eight times a byte that is not 0. *)
Lemma cache_line_size_octets (cc : compiler) (c : cpu) :
  exists k, 1 <= k <= 255 /\ get_cache_line_size cc c = 8 * k.
Proof.
  assert (K : forall ebx, let sz := clflush_line_size ebx in
              exists k, 1 <= k <= 255 /\ (if 0 <? sz then sz else 64) = 8 * k).
  { intros ebx sz. unfold clflush_line_size in sz.
    pose proof (land_byte (Z.shiftr ebx 8)) as R.
    destruct (Z.ltb_spec 0 sz); [| exists 8; split; [lia | reflexivity]].
    exists (Z.land (Z.shiftr ebx 8) 255). subst sz. split; lia. }
  unfold get_cache_line_size. destruct cc.
  - apply K.
  - destruct (get_cpuid c 1); [apply K | exists 8; split; [lia | reflexivity]].
Qed.

End DetectFacts.

Module FeaturesStringFacts.
Import PipelineOpt FeaturesString.
Local Open Scope string_scope.

Lemma length_append (s t : string) :
  String.length (s ++ t) = (String.length s + String.length t)%nat.
Proof. induction s as [| a s IH]; cbn; [reflexivity |]. rewrite IH. reflexivity. Qed.

Lemma length_strcat_if (b : bool) (tok s : string) :
  (String.length (strcat_if b tok s) <= String.length s + String.length tok)%nat.
Proof. destruct b; cbn; [rewrite length_append |]; lia. Qed.

(** Every multiple of 8 up to 2040 prints with at most four digits. *)
Lemma decimal_multiples :
  forallb (fun k => (String.length (decimal (8 * Z.of_nat k)) <=? 4)%nat) (seq 1 255) = true.
Proof. vm_compute. reflexivity. Qed.

Lemma decimal_cache_line (cc : compiler) (c : cpu) :
  (String.length (decimal (get_cache_line_size cc c)) <= 4)%nat.
Proof.
  destruct (DetectFacts.cache_line_size_octets cc c) as (k & Hk & ->).
  pose proof decimal_multiples as K. rewrite forallb_forall in K.
  specialize (K (Z.to_nat k)). rewrite Z2Nat.id in K by lia.
  apply Nat.leb_le, K. apply in_seq. lia.
Qed.

End FeaturesStringFacts.

Module BrandFacts.
Import Brand.

(** ** The list functions *)

Lemma skip_spaces_head (l : list ascii) :
  match skip_spaces l with
  | c :: _ => Ascii.eqb c SPACE = false
  | [] => True
  end.
Proof.
  induction l as [| c t IH]; cbn; [exact I |].
  destruct (Ascii.eqb c SPACE) eqn:E; [exact IH | exact E].
Qed.

Lemma collapse_single_spaced (p : ascii) (l : list ascii) :
  single_spaced (collapse p l) = true /\
  (Ascii.eqb p SPACE = true ->
   match collapse p l with c :: _ => Ascii.eqb c SPACE = false | [] => True end).
Proof.
  revert p. induction l as [| c t IH]; intro p; cbn; [split; [reflexivity | intros _; exact I] |].
  destruct (Ascii.eqb c SPACE) eqn:Ec, (Ascii.eqb p SPACE) eqn:Ep; cbn.
  - destruct (IH p) as [S1 S2]. split; [exact S1 |]. intros _. apply S2. exact Ep.
  - destruct (IH c) as [S1 S2]. split; [| intro; discriminate].
    specialize (S2 Ec). destruct (collapse c t) as [| d u]; [reflexivity |].
    rewrite Ec, S2. cbn. exact S1.
  - destruct (IH c) as [S1 _]. split; [| intros _; exact Ec].
    destruct (collapse c t) as [| d u]; [reflexivity |]. rewrite Ec. cbn. exact S1.
  - destruct (IH c) as [S1 _]. split; [| intro; discriminate].
    destruct (collapse c t) as [| d u]; [reflexivity |]. rewrite Ec. cbn. exact S1.
Qed.



Lemma collapse_keeps_letters (p : ascii) (l : list ascii) :
  filter not_space (collapse p l) = filter not_space l.
Proof.
  revert p. induction l as [| c t IH]; intro p; cbn; [reflexivity |].
  unfold not_space at 2.
  destruct (Ascii.eqb c SPACE) eqn:Ec, (Ascii.eqb p SPACE) eqn:Ep; cbn;
    unfold not_space at 1; rewrite ?Ec; cbn; rewrite ?IH; reflexivity.
Qed.

Lemma skip_spaces_keeps_letters (l : list ascii) :
  filter not_space (skip_spaces l) = filter not_space l.
Proof.
  induction l as [| c t IH]; cbn; [reflexivity |].
  unfold not_space at 2.
  destruct (Ascii.eqb c SPACE) eqn:Ec; cbn; [exact IH |].
  unfold not_space at 1. rewrite Ec. reflexivity.
Qed.

Lemma collapse_length (p : ascii) (l : list ascii) :
  (List.length (collapse p l) <= List.length l)%nat.
Proof.
  revert p. induction l as [| c t IH]; intro p; cbn; [lia |].
  destruct (_ && _); cbn; [specialize (IH p) | specialize (IH c)]; lia.
Qed.

Lemma skip_spaces_length (l : list ascii) :
  (List.length (skip_spaces l) <= List.length l)%nat.
Proof.
  induction l as [| c t IH]; cbn; [lia |]. destruct (Ascii.eqb c SPACE); cbn; lia.
Qed.

(** A string with single spaces is not changed by [collapse], whatever
    came before it, provided it does not start with a second space. *)
Lemma collapse_fixed (p : ascii) (l : list ascii) :
  single_spaced l = true ->
  match l with c :: _ => Ascii.eqb c SPACE && Ascii.eqb p SPACE = false | [] => True end ->
  collapse p l = l.
Proof.
  revert p. induction l as [| c t IH]; intros p Hs Hh; cbn; [reflexivity |].
  rewrite Hh. f_equal. apply IH.
  - destruct t as [| d u]; [reflexivity |]. cbn in Hs.
    apply andb_true_iff in Hs. apply Hs.
  - destruct t as [| d u]; [exact I |]. cbn in Hs.
    apply andb_true_iff in Hs. destruct Hs as [Hs _].
    apply negb_true_iff in Hs. rewrite andb_comm. exact Hs.
Qed.

Lemma skip_spaces_fixed (l : list ascii) :
  match l with c :: _ => Ascii.eqb c SPACE = false | [] => True end ->
  skip_spaces l = l.
Proof. destruct l as [| c t]; cbn; [reflexivity |]. intros ->. reflexivity. Qed.

Lemma squeezed_head (l : list ascii) :
  match squeezed l with c :: _ => Ascii.eqb c SPACE = false | [] => True end.
Proof.
  unfold squeezed. pose proof (skip_spaces_head l) as K.
  destruct (skip_spaces l) as [| c t]; cbn; [exact I |].
  rewrite K. cbn. exact K.
Qed.

Lemma squeezed_idempotent (l : list ascii) : squeezed (squeezed l) = squeezed l.
Proof.
  pose proof (squeezed_head l) as Hh.
  assert (Hs : single_spaced (squeezed l) = true) by apply collapse_single_spaced.
  unfold squeezed at 1. rewrite skip_spaces_fixed by exact Hh.
  apply collapse_fixed; [exact Hs |].
  destruct (squeezed l); [exact I |]. rewrite andb_false_r. reflexivity.
Qed.

(** ** The loops *)

Lemma while_loop_unfold {St} (fuel : nat) (cond : St -> bool) (body : St -> St) (s : St) :
  while_loop (S fuel) cond body s =
  if cond s then while_loop fuel cond body (body s) else s.
Proof. reflexivity. Qed.

Lemma holds_tail (m : buffer ascii) (i : Z) (c : ascii) (t : list ascii) :
  holds m i (c :: t) -> m i = c /\ c <> NUL /\ holds m (i + 1) t.
Proof.
  intros [Hk Hn]. destruct (Hk 0%nat) as [H0 H0']; [cbn; lia |].
  cbn in H0, H0'. rewrite Z.add_0_r in H0. split; [exact H0 |]. split; [exact H0' |].
  split.
  - intros k Hlt. destruct (Hk (S k)) as [H1 H2]; [cbn; lia |]. cbn in H1, H2.
    replace (i + 1 + Z.of_nat k) with (i + Z.of_nat (S k)) by lia. split; assumption.
  - replace (i + 1 + Z.of_nat (List.length t)) with (i + Z.of_nat (List.length (c :: t)))
      by (cbn [List.length]; lia). exact Hn.
Qed.

Lemma holds_nil (m : buffer ascii) (i : Z) : holds m i [] -> m i = NUL.
Proof. intros [_ Hn]. cbn in Hn. rewrite Z.add_0_r in Hn. exact Hn. Qed.

Lemma eqb_NUL_false (c : ascii) : c <> NUL -> Ascii.eqb c NUL = false.
Proof. intro H. apply Ascii.eqb_neq. exact H. Qed.

(** The first loop stops on the first character that is not a space. *)
Lemma skip_loop (m : buffer ascii) (l : list ascii) (fuel : nat) (p : Z) :
  holds m p l -> (List.length l < fuel)%nat ->
  holds m (while_loop fuel (fun p => Ascii.eqb (m p) SPACE) (fun p => p + 1) p)
        (skip_spaces l) /\
  p <= while_loop fuel (fun p => Ascii.eqb (m p) SPACE) (fun p => p + 1) p.
Proof.
  revert p fuel. induction l as [| c t IH]; intros p fuel H Hf.
  - destruct fuel; [lia |]. cbn [while_loop].
    rewrite (holds_nil m p H). cbn. split; [exact H | lia].
  - destruct fuel; [cbn in Hf; lia |]. cbn [while_loop skip_spaces].
    destruct (holds_tail m p c t H) as (Hc & Hn & Ht). rewrite Hc.
    destruct (Ascii.eqb c SPACE) eqn:E.
    + destruct (IH (p + 1) fuel Ht) as [K1 K2]; [cbn in Hf; lia |]. split; [exact K1 | lia].
    + split; [exact H | lia].
Qed.

(** The second loop, from any state whose unread part is [rest]. *)
Lemma copy_loop (rest : list ascii) :
  forall (st : copy_state) (fuel : nat),
    holds (buf st) (src st) rest -> dst st <= src st -> (List.length rest < fuel)%nat ->
    let st' := while_loop fuel copy_cond copy_body st in
    let out := collapse (prev st) rest in
    dst st' = dst st + Z.of_nat (List.length out) /\
    (forall j, j < dst st -> buf st' j = buf st j) /\
    (forall k, (k < List.length out)%nat -> buf st' (dst st + Z.of_nat k) = nth k out NUL).
Proof.
  induction rest as [| c t IH]; intros st fuel H Hd Hf; cbv zeta.
  - destruct fuel; [lia |]. cbn [while_loop].
    assert (Ec : copy_cond st = false)
      by (unfold copy_cond; rewrite (holds_nil _ _ H); reflexivity).
    rewrite Ec. cbn. split; [lia |]. split; [reflexivity | intros; lia].
  - destruct fuel; [cbn in Hf; lia |]. cbn [while_loop].
    destruct (holds_tail _ _ _ _ H) as (Hc & Hn & Ht).
    assert (Ec : copy_cond st = true)
      by (unfold copy_cond; rewrite Hc, (eqb_NUL_false c Hn); reflexivity).
    rewrite Ec. cbn [collapse].
    destruct (Ascii.eqb c SPACE && Ascii.eqb (prev st) SPACE) eqn:E.
    + assert (Eb : copy_body st = mkCopy (buf st) (src st + 1) (dst st) (prev st))
        by (unfold copy_body; rewrite Hc, E; reflexivity).
      rewrite Eb.
      specialize (IH (mkCopy (buf st) (src st + 1) (dst st) (prev st)) fuel).
      cbn [buf src dst prev] in IH. apply IH; [exact Ht | lia | cbn in Hf; lia].
    + set (b := upd (buf st) (dst st) c).
      assert (Hb : b (src st) = c).
      { subst b. unfold upd. destruct (Z.eqb_spec (src st) (dst st)); [reflexivity | exact Hc]. }
      assert (Eb : copy_body st = mkCopy b (src st + 1) (dst st + 1) c).
      { unfold copy_body. rewrite Hc, E. cbv zeta. fold b. rewrite Hb. reflexivity. }
      rewrite Eb.
      assert (Ht' : holds b (src st + 1) t).
      { destruct Ht as [Hk Hnul]. subst b. split.
        - intros k Hlt. unfold upd.
          destruct (Z.eqb_spec (src st + 1 + Z.of_nat k) (dst st)); [lia |]. apply Hk. exact Hlt.
        - unfold upd.
          destruct (Z.eqb_spec (src st + 1 + Z.of_nat (List.length t)) (dst st)); [lia |].
          exact Hnul. }
      specialize (IH (mkCopy b (src st + 1) (dst st + 1) c) fuel).
      cbn [buf src dst prev] in IH.
      destruct IH as (D & L & O); [exact Ht' | lia | cbn in Hf; lia |].
      cbn [List.length]. split; [lia |]. split.
      * intros j Hj. rewrite L by lia. subst b. unfold upd.
        destruct (Z.eqb_spec j (dst st)); [lia | reflexivity].
      * intros [| k] Hk.
        -- cbn [nth]. rewrite Z.add_0_r. rewrite L by lia. subst b. unfold upd.
           rewrite Z.eqb_refl. reflexivity.
        -- cbn [nth]. replace (dst st + Z.of_nat (S k)) with (dst st + 1 + Z.of_nat k) by lia.
           apply O. cbn [List.length] in Hk. lia.
Qed.

Lemma collapse_no_nul (p : ascii) (l : list ascii) :
  Forall (fun c => c <> NUL) l -> Forall (fun c => c <> NUL) (collapse p l).
Proof.
  revert p. induction l as [| c t IH]; intros p F; cbn; [constructor |].
  inversion F; subst. destruct (_ && _); [apply IH; assumption |].
  constructor; [assumption | apply IH; assumption].
Qed.

Lemma holds_no_nul (m : buffer ascii) (i : Z) (l : list ascii) :
  holds m i l -> Forall (fun c => c <> NUL) l.
Proof.
  revert i. induction l as [| c t IH]; intros i H; [constructor |].
  destruct (holds_tail _ _ _ _ H) as (_ & Hn & Ht). constructor; [exact Hn | exact (IH _ Ht)].
Qed.

(** Reading back a C string that the buffer holds. *)
Lemma cstring_holds (l : list ascii) :
  forall (m : buffer ascii) (i : Z) (fuel : nat),
    holds m i l -> (List.length l < fuel)%nat -> cstring fuel m i = l.
Proof.
  induction l as [| c t IH]; intros m i fuel H Hf.
  - destruct fuel; [lia |]. cbn. rewrite (holds_nil _ _ H). reflexivity.
  - destruct fuel; [cbn in Hf; lia |]. cbn [cstring].
    destruct (holds_tail _ _ _ _ H) as (Hc & Hn & Ht).
    rewrite Hc, (eqb_NUL_false c Hn). f_equal. apply IH; [exact Ht | cbn in Hf; lia].
Qed.

(** The squeezing block computes [squeezed], in place. *)
Lemma squeeze_spaces_holds (m : buffer ascii) (l : list ascii) :
  holds m 0 l -> (List.length l < 64)%nat ->
  holds (squeeze_spaces m) 0 (squeezed l).
Proof.
  intros H Hlen. unfold squeeze_spaces.
  destruct (skip_loop m l 64 0 H Hlen) as [Hs Hp].
  set (p := while_loop 64 (fun p => Ascii.eqb (m p) SPACE) (fun p => p + 1) 0) in *.
  pose proof (copy_loop (skip_spaces l) (mkCopy m p 0 NUL) 64) as K.
  cbn [buf src dst prev] in K. cbv zeta in K.
  destruct K as (D & _ & O); [exact Hs | lia | pose proof (skip_spaces_length l); lia |].
  fold copy_cond copy_body in *. change (fun st => negb (Ascii.eqb (buf st (src st)) NUL))
    with copy_cond. change (fun st : copy_state => _) with copy_body.
  set (st' := while_loop 64 copy_cond copy_body (mkCopy m p 0 NUL)) in *.
  fold (squeezed l) in D, O.
  pose proof (collapse_no_nul NUL (skip_spaces l) (holds_no_nul _ _ _ Hs)) as Nn.
  fold (squeezed l) in Nn. rewrite Forall_forall in Nn.
  split.
  - intros k Hk. unfold upd.
    destruct (Z.eqb_spec (0 + Z.of_nat k) (dst st')); [lia |].
    rewrite <- (O k Hk). split; [f_equal; lia |].
    rewrite (O k Hk). apply Nn. apply nth_In. exact Hk.
  - unfold upd. destruct (Z.eqb_spec (0 + Z.of_nat (List.length (squeezed l))) (dst st'));
      [reflexivity | lia].
Qed.

End BrandFacts.

Module BrandStoreFacts.
Import Brand BrandFacts.

Lemma store_bytes_spec (l : list ascii) :
  forall (m : buffer ascii) (i j : Z),
    store_bytes m i l j =
    if (i <=? j) && (j <? i + Z.of_nat (List.length l))
    then nth (Z.to_nat (j - i)) l NUL else m j.
Proof.
  induction l as [| c t IH]; intros m i j; cbn [store_bytes List.length].
  - bdestruct; try reflexivity; lia.
  - rewrite IH. unfold upd.
    destruct (Z.eqb_spec j i) as [-> | Hne].
    + replace ((i + 1 <=? i) && (i <? i + 1 + Z.of_nat (List.length t))) with false
        by (bdestruct; try reflexivity; lia).
      replace ((i <=? i) && (i <? i + Z.of_nat (S (List.length t)))) with true
        by (bdestruct; try reflexivity; lia).
      rewrite Z.sub_diag. reflexivity.
    + destruct ((i + 1 <=? j) && (j <? i + 1 + Z.of_nat (List.length t))) eqn:E.
      * replace ((i <=? j) && (j <? i + Z.of_nat (S (List.length t)))) with true
          by (revert E; bdestruct; intros; try reflexivity; try discriminate; lia).
        replace (Z.to_nat (j - i)) with (S (Z.to_nat (j - (i + 1))))
          by (revert E; bdestruct; intros; try discriminate; lia).
        reflexivity.
      * replace ((i <=? j) && (j <? i + Z.of_nat (S (List.length t)))) with false
          by (revert E; bdestruct; intros; try reflexivity; try discriminate; lia).
        reflexivity.
Qed.

Lemma until_nul_length (l : list ascii) :
  (List.length (until_nul l) <= List.length l)%nat.
Proof. induction l as [| c t IH]; cbn; [lia |]. destruct (Ascii.eqb c NUL); cbn; lia. Qed.

(** Bytes stored at the start of a buffer that has a NUL right behind
    them are the C string up to their first NUL. *)
Lemma store_bytes_holds (l : list ascii) (m : buffer ascii) :
  m (Z.of_nat (List.length l)) = NUL ->
  holds (store_bytes m 0 l) 0 (until_nul l).
Proof.
  intro Hend.
  assert (G : forall (l : list ascii) (b : buffer ascii) (i : Z),
             (forall k, (k < List.length l)%nat -> b (i + Z.of_nat k) = nth k l NUL) ->
             b (i + Z.of_nat (List.length l)) = NUL ->
             holds b i (until_nul l)).
  { clear. induction l as [| c t IH]; intros b i Hk Hn.
    - split; [cbn; intros; lia | exact Hn].
    - cbn [until_nul]. destruct (Ascii.eqb_spec c NUL) as [-> | Hc].
      + split; [cbn; intros; lia |]. cbn. specialize (Hk 0%nat ltac:(cbn; lia)). exact Hk.
      + specialize (IH b (i + 1)).
        destruct IH as [I1 I2].
        * intros k Hlt. specialize (Hk (S k) ltac:(cbn; lia)). cbn in Hk.
          replace (i + 1 + Z.of_nat k) with (i + Z.of_nat (S k)) by lia. exact Hk.
        * replace (i + 1 + Z.of_nat (List.length t))
            with (i + Z.of_nat (List.length (c :: t))) by (cbn [List.length]; lia). exact Hn.
        * split.
          -- intros [| k] Hlt.
             ++ cbn. rewrite Z.add_0_r. specialize (Hk 0%nat ltac:(cbn; lia)). cbn in Hk.
                rewrite Z.add_0_r in Hk. split; [exact Hk | exact Hc].
             ++ cbn [nth]. cbn [List.length] in Hlt.
                replace (i + Z.of_nat (S k)) with (i + 1 + Z.of_nat k) by lia.
                apply I1. lia.
          -- cbn [List.length].
             replace (i + Z.of_nat (S (List.length (until_nul t))))
               with (i + 1 + Z.of_nat (List.length (until_nul t))) by lia. exact I2. }
  apply G.
  - intros k Hlt. rewrite store_bytes_spec.
    replace ((0 <=? 0 + Z.of_nat k) && (0 + Z.of_nat k <? 0 + Z.of_nat (List.length l)))
      with true by (bdestruct; try reflexivity; lia).
    f_equal. lia.
  - rewrite store_bytes_spec.
    replace ((0 <=? 0 + Z.of_nat (List.length l))
             && (0 + Z.of_nat (List.length l) <? 0 + Z.of_nat (List.length l)))
      with false by (bdestruct; try reflexivity; lia).
    exact Hend.
Qed.

Lemma brand_bytes_length (c : ext_cpu) : List.length (brand_bytes c) = 48%nat.
Proof. reflexivity. Qed.

End BrandStoreFacts.

Module ProbeCallsFacts.
Import MemoryProbes ProbeCalls.

Lemma mem_probe_world (o : os) (probe : option MemoryProbe)
    (res : option MemoryProbeResult) (w : world) :
  static_peak (snd (mem_probe o probe res w)) =
    match res with
    | Some _ => N.max (static_peak w) (current_mem o)
    | None => static_peak w
    end /\
  exists extra, alerts (snd (mem_probe o probe res w)) = alerts w ++ extra.
Proof.
  unfold mem_probe.
  assert (M : (if (static_peak w <? current_mem o)%N then current_mem o else static_peak w)
              = N.max (static_peak w) (current_mem o)).
  { destruct (N.ltb_spec (static_peak w) (current_mem o)); lia. }
  destruct res as [r0 |], probe as [p |]; cbn;
    try destruct ((0 <? threshold p)%N && (threshold p <? current_mem o)%N); cbn;
    try destruct (name p); cbn; rewrite ?M;
    (split; [reflexivity |]);
    first [ exists []; rewrite app_nil_r; reflexivity | eexists; reflexivity ].
Qed.

Lemma mem_probe_peak_field (o : os) (probe : option MemoryProbe)
    (r0 : MemoryProbeResult) (w : world) :
  exists r, snd (fst (mem_probe o probe (Some r0) w)) = Some r /\
            current_memory r = current_mem o /\
            peak_memory r = N.max (static_peak w) (current_mem o).
Proof.
  unfold mem_probe.
  assert (M : (if (static_peak w <? current_mem o)%N then current_mem o else static_peak w)
              = N.max (static_peak w) (current_mem o)).
  { destruct (N.ltb_spec (static_peak w) (current_mem o)); lia. }
  destruct probe as [p |]; cbn;
    try destruct ((0 <? threshold p)%N && (threshold p <? current_mem o)%N); cbn;
    rewrite ?M; eexists; repeat split.
Qed.

Lemma fold_max_le (l : list N) (a : N) : (a <= fold_left N.max l a)%N.
Proof.
  revert a. induction l as [| x l IH]; intro a; cbn; [lia |].
  specialize (IH (N.max a x)). lia.
Qed.

End ProbeCallsFacts.

Module ProcFsFacts.
Import ProcFs.

(** ** Fuel *)

Lemma read_line_shorter (n : nat) (s : list ascii) :
  (List.length (snd (read_line n s)) <= List.length s)%nat /\
  (n <> 0%nat -> s <> [] -> (List.length (snd (read_line n s)) < List.length s)%nat).
Proof.
  revert s. induction n as [| n IH]; intro s.
  - cbn. split; [lia | intros K; contradiction].
  - destruct s as [| c t]; cbn [read_line].
    + split; [cbn; lia | intros _ K; contradiction].
    + destruct (Ascii.eqb c NL); cbn [snd List.length].
      * split; [lia | intros; lia].
      * destruct (IH t) as [I1 _]. destruct (read_line n t) as [l r]. cbn [snd] in *.
        split; [lia | intros; lia].
Qed.

Lemma fgets_shorter (s line rest : list ascii) :
  fgets 128 s = Some (line, rest) -> (List.length rest < List.length s)%nat.
Proof.
  unfold fgets. destruct s as [| c t]; [discriminate |].
  destruct (read_line_shorter (128 - 1) (c :: t)) as [_ K].
  destruct (read_line (128 - 1) (c :: t)) as [l r].
  intro E. inversion E; subst. apply K; discriminate.
Qed.

Lemma scan_unfold (key : list ascii) (n : nat) (v : Z) (fuel : nat) (s : list ascii) :
  scan (S fuel) key n s v =
  match fgets 128 s with
  | None => v
  | Some (line, rest) =>
      if strncmp_eq n line key
      then to_uint64 (atoll (skipn n line)) / 1024
      else scan fuel key n rest v
  end.
Proof. reflexivity. Qed.

Lemma scan_fuel (key : list ascii) (n : nat) (v : Z) (fuel : nat) :
  forall s, (List.length s < fuel)%nat ->
            scan fuel key n s v = scan (S (List.length s)) key n s v.
Proof.
  induction fuel as [fuel IH] using lt_wf_ind. intros s Hlt.
  destruct fuel as [| fuel]; [lia |].
  cbn [scan]. destruct (fgets 128 s) as [[line rest] |] eqn:E; [| reflexivity].
  destruct (strncmp_eq n line key); [reflexivity |].
  pose proof (fgets_shorter _ _ _ E) as Hr.
  rewrite (IH fuel ltac:(lia) rest ltac:(lia)).
  destruct (List.length s) as [| k] eqn:Ek; [lia |].
  rewrite (IH (S k) ltac:(lia) rest ltac:(lia)). reflexivity.
Qed.

(** ** Lines *)

Lemma read_line_app (a : list ascii) :
  forall (n : nat) (b : list ascii),
    forallb (fun x => negb (Ascii.eqb x NL)) a = true ->
    (List.length a <= n)%nat ->
    read_line n (a ++ b) =
    (a ++ fst (read_line (n - List.length a) b), snd (read_line (n - List.length a) b)).
Proof.
  induction a as [| c a IH]; intros n b Hnl Hlen.
  - change ([] ++ b) with b. change (List.length (@nil ascii)) with 0%nat.
    rewrite Nat.sub_0_r. destruct (read_line n b) as [l r]. reflexivity.
  - cbn [forallb] in Hnl. apply andb_true_iff in Hnl. destruct Hnl as [Hc Ha].
    cbn [List.length] in Hlen. destruct n as [| n]; [lia |].
    rewrite <- !app_comm_cons. cbn [read_line]. apply negb_true_iff in Hc. rewrite Hc.
    rewrite (IH n b Ha ltac:(lia)). cbn [List.length Nat.sub fst snd]. reflexivity.
Qed.

Lemma whole_line_inv (l : list ascii) :
  whole_line l = true ->
  exists body, l = body ++ [NL] /\ forallb (fun x => negb (Ascii.eqb x NL)) body = true /\
               (List.length body <= 126)%nat.
Proof.
  unfold whole_line. destruct (rev l) as [| c body] eqn:E; [discriminate |].
  intro H. apply andb_true_iff in H. destruct H as [H Hlen].
  apply andb_true_iff in H. destruct H as [Hc Hb].
  apply Ascii.eqb_eq in Hc. subst c.
  assert (El : l = rev body ++ [NL]).
  { rewrite <- (rev_involutive l), E. reflexivity. }
  exists (rev body). split; [exact El |]. split.
  - rewrite forallb_forall in *. intros x Hx. apply Hb. apply in_rev. exact Hx.
  - apply Nat.leb_le in Hlen. rewrite El, length_app in Hlen. cbn in Hlen. lia.
Qed.

Lemma fgets_whole_line (l s : list ascii) :
  whole_line l = true -> fgets 128 (l ++ s) = Some (l, s).
Proof.
  intro H. destruct (whole_line_inv l H) as (body & -> & Hb & Hlen).
  unfold fgets. destruct ((body ++ [NL]) ++ s) eqn:E.
  { destruct body; discriminate. }
  rewrite <- E. rewrite <- app_assoc.
  rewrite (read_line_app body (128 - 1) ([NL] ++ s) Hb ltac:(lia)).
  replace (128 - 1 - List.length body)%nat with (S (126 - List.length body)) by lia.
  cbn [app read_line]. change (Ascii.eqb NL NL) with true. cbn [fst snd]. reflexivity.
Qed.

Lemma scan_skips (key : list ascii) (n : nat) (v : Z) (pre : list (list ascii)) :
  forall s,
    Forall (fun l => whole_line l = true /\ strncmp_eq n l key = false) pre ->
    scan (S (List.length (List.concat pre ++ s))) key n (List.concat pre ++ s) v =
    scan (S (List.length s)) key n s v.
Proof.
  induction pre as [| l pre IH]; intros s H; [reflexivity |].
  inversion H as [| ? ? [Hw Hk] Hrest]; subst.
  cbn [List.concat]. rewrite <- app_assoc.
  rewrite <- (IH s Hrest). set (t := List.concat pre ++ s).
  rewrite (scan_unfold key n v (List.length (l ++ t))).
  rewrite (fgets_whole_line l _ Hw), Hk.
  apply scan_fuel.
  destruct (whole_line_inv l Hw) as (body & -> & _). rewrite !length_app. cbn. lia.
Qed.

(** ** Numbers *)

Lemma of_uint_acc_value (d : Decimal.uint) :
  forall p, Z.pos (Pos.of_uint_acc d p) = uint_value (Z.pos p) d.
Proof.
  induction d; intro p; cbn [Pos.of_uint_acc uint_value]; try reflexivity;
    rewrite IHd; f_equal; lia.
Qed.

Lemma of_uint_value (d : Decimal.uint) : Z.of_uint d = uint_value 0 d.
Proof.
  unfold Z.of_uint.
  induction d; cbn [Pos.of_uint uint_value]; try reflexivity;
    try (cbn [Z.of_N]; rewrite of_uint_acc_value; reflexivity).
  exact IHd.
Qed.

Lemma digits_value_chars (d : Decimal.uint) :
  forall acc r, digits_value acc (chars d ++ r) = digits_value (uint_value acc d) r.
Proof.
  unfold chars.
  induction d; intros acc r; cbn [DecimalString.NilEmpty.string_of_uint list_ascii_of_string app
                                  digits_value uint_value]; try reflexivity;
    match goal with
    | |- context [isdigit ?c] => change (isdigit c) with true; cbv iota
    end; rewrite IHd; f_equal.
Qed.

Lemma chars_no_newline (d : Decimal.uint) :
  forallb (fun x => negb (Ascii.eqb x NL)) (chars d) = true.
Proof. unfold chars. induction d; cbn; try reflexivity; exact IHd. Qed.

Lemma chars_head (d : Decimal.uint) :
  match chars d with c :: _ => isspace c = false /\ c <> "-"%char /\ c <> "+"%char | [] => True end.
Proof. unfold chars. destruct d; cbn; try exact I; repeat split; discriminate. Qed.

Lemma decimal_chars (z : Z) :
  0 <= z -> exists d, decimal z = chars d /\ d <> Decimal.Nil /\ Z.of_uint d = z.
Proof.
  intro Hz. unfold decimal.
  destruct z as [| p | p]; [| | lia].
  - exists (Decimal.D0 Decimal.Nil). repeat split; [discriminate].
  - assert (K : Z.of_uint (Pos.to_uint p) = Z.pos p) by exact (DecimalZ.of_to (Z.pos p)).
    exists (Pos.to_uint p). split; [| split; [| exact K]].
    + change (Z.to_int (Z.pos p)) with (Decimal.Pos (Pos.to_uint p)).
      unfold chars. cbn [DecimalString.NilZero.string_of_int].
      destruct (Pos.to_uint p) eqn:E; try reflexivity.
      exfalso. cbn in K. discriminate.
    + intro E. rewrite E in K. cbn in K. discriminate.
Qed.

Lemma skip_space_blank (ws t : list ascii) :
  forallb blank ws = true -> skip_space (ws ++ t) = skip_space t.
Proof.
  induction ws as [| c ws IH]; intro H; [reflexivity |].
  cbn [forallb] in H. apply andb_true_iff in H. destruct H as [Hc Hw].
  cbn [app skip_space].
  assert (isspace c = true).
  { unfold blank in Hc. apply orb_true_iff in Hc.
    destruct Hc as [Hc | Hc]; apply Ascii.eqb_eq in Hc; subst c; reflexivity. }
  rewrite H. apply IH. exact Hw.
Qed.

Lemma blank_no_newline (ws : list ascii) :
  forallb blank ws = true -> forallb (fun x => negb (Ascii.eqb x NL)) ws = true.
Proof.
  induction ws as [| c ws IH]; intro H; [reflexivity |].
  cbn [forallb] in *. apply andb_true_iff in H. destruct H as [Hc Hw].
  rewrite (IH Hw), andb_true_r.
  unfold blank in Hc. apply orb_true_iff in Hc.
  destruct Hc as [Hc | Hc]; apply Ascii.eqb_eq in Hc; subst c; reflexivity.
Qed.

Lemma forallb_app' (f : ascii -> bool) (a b : list ascii) :
  forallb f a = true -> forallb f b = true -> forallb f (a ++ b) = true.
Proof. intros Ha Hb. rewrite forallb_app, Ha, Hb. reflexivity. Qed.

Lemma digits_value_stop (v : Z) (r : list ascii) :
  isdigit (hd NUL r) = false -> digits_value v r = v.
Proof. destruct r as [| c r]; [reflexivity |]. cbn. intros ->. reflexivity. Qed.

(** The line with the key: [fgets] delivers the key, the blanks and all
    digits, and [atoll] behind the key reads the number. *)
Lemma scan_field (key ws rest : list ascii) (n : nat) (kb v : Z) :
  List.length key = n ->
  strncmp_eq n key key = true ->
  (forall t, strncmp_eq n (key ++ t) key = true) ->
  forallb (fun x => negb (Ascii.eqb x NL)) key = true ->
  forallb blank ws = true ->
  0 <= kb ->
  isdigit (hd NUL rest) = false ->
  (n + List.length ws + List.length (decimal kb) <= 127)%nat ->
  forall fuel,
  scan (S fuel) key n (key ++ ws ++ decimal kb ++ rest) v = to_uint64 kb / 1024.
Proof.
  intros Hn _ Hkey Hk Hws Hkb Hrest Hlen fuel.
  destruct (decimal_chars kb Hkb) as (d & Ed & Hd & Hv).
  set (a := key ++ ws ++ decimal kb).
  assert (Ha : forallb (fun x => negb (Ascii.eqb x NL)) a = true).
  { unfold a. apply forallb_app'; [exact Hk |]. apply forallb_app'.
    - apply blank_no_newline, Hws.
    - rewrite Ed. apply chars_no_newline. }
  assert (La : (List.length a <= 127)%nat).
  { unfold a. rewrite !length_app. lia. }
  replace (key ++ ws ++ decimal kb ++ rest) with (a ++ rest)
    by (unfold a; rewrite <- !app_assoc; reflexivity).
  cbn [scan]. unfold fgets.
  destruct (a ++ rest) eqn:E.
  { exfalso. unfold a in E. rewrite Ed in E. destruct key; [| discriminate].
    destruct ws; [| discriminate]. cbn in E. unfold chars in E.
    destruct d; try discriminate. contradiction. }
  rewrite <- E. rewrite (read_line_app a (128 - 1) rest Ha ltac:(lia)).
  set (r' := fst (read_line (128 - 1 - List.length a) rest)).
  assert (Hr' : isdigit (hd NUL r') = false).
  { unfold r'. remember (128 - 1 - List.length a)%nat as k.
    destruct k as [| k]; [reflexivity |].
    destruct rest as [| c rest']; [reflexivity |].
    cbn [read_line]. cbn [hd] in Hrest.
    destruct (Ascii.eqb c NL); [exact Hrest |].
    destruct (read_line k rest'). exact Hrest. }
  unfold a. rewrite <- !app_assoc. rewrite Hkey.
  rewrite <- Hn. rewrite skipn_app, skipn_all, Nat.sub_diag. cbn [skipn app].
  unfold atoll. rewrite (skip_space_blank ws _ Hws).
  rewrite Ed. pose proof (chars_head d) as Hh.
  assert (Hne : chars d <> []).
  { unfold chars. destruct d; try discriminate. contradiction. }
  destruct (chars d) as [| c cs] eqn:Ec; [contradiction |].
  destruct Hh as (Hsp & Hm & Hp).
  cbn [app skip_space]. rewrite Hsp.
  assert (Hval : digits_value 0 (c :: cs ++ r') = kb).
  { change (c :: cs ++ r') with ((c :: cs) ++ r'). rewrite <- Ec.
    rewrite digits_value_chars, digits_value_stop by exact Hr'.
    rewrite <- of_uint_value. exact Hv. }
  destruct c as [b0 b1 b2 b3 b4 b5 b6 b7].
  destruct b0, b1, b2, b3, b4, b5, b6, b7;
    try (exfalso; apply Hm; reflexivity); try (exfalso; apply Hp; reflexivity);
    rewrite Hval; reflexivity.
Qed.

End ProcFsFacts.


(* ===================================================================== *)
(** * The properties of the specification                                *)
(* ===================================================================== *)

(** C7.  The claim fails on the GNU variant of the detector, by a
    slip: [detect_cpu_features] hands the variables [ecx] and [edx] of
    the leaf-1 query to the leaf-7 query, which overwrites them, so the
    SSE4.2 flag is read from leaf 7.  On a processor that reports SSE4.2
    and CLFLUSH in leaf 1, no AVX2, and whose leaf 7 answers, the GNU
    variant finds no feature and returns level 0, where the rule of the
    claim gives 1; the MSVC variant, which copies [ecx] and [edx] before
    the second query, returns 1 there.
    In general the level is 0, 1 or 2, and, the queries succeeding: it
    is 2 exactly when AVX2 (leaf 7, [ebx] bit 5) and CLFLUSH (leaf 1,
    [edx] bit 9) are reported, in both variants; it is 1 exactly when
    AVX2 is not reported and CLFLUSH and SSE4.2 (leaf 1, [ecx] bit 20)
    are, in the MSVC variant and in the GNU variant without leaf 7; in
    the GNU variant with leaf 7 it is 1 exactly when AVX2 is not
    reported, CLFLUSH is, and bit 20 of the leaf-7 [ecx] is set. *)
Theorem optimization_level_reads_leaf7 :
  let bit r k := Z.land r (Z.shiftl 1 k) <> 0 in
  let level := PipelineOpt.is_pipeline_opt_supported in
  (bit (PipelineOpt.ecx (PipelineOpt.msvc_cpuid Scenarios.sse42_cpu 1)) 20 /\
   bit (PipelineOpt.edx (PipelineOpt.msvc_cpuid Scenarios.sse42_cpu 1)) 9 /\
   ~ bit (PipelineOpt.ebx (PipelineOpt.msvc_cpuid Scenarios.sse42_cpu 7)) 5 /\
   PipelineOpt.get_cpuid Scenarios.sse42_cpu 1
     = Some (PipelineOpt.msvc_cpuid Scenarios.sse42_cpu 1) /\
   PipelineOpt.get_cpuid_count Scenarios.sse42_cpu 7 0
     = Some (PipelineOpt.msvc_cpuid Scenarios.sse42_cpu 7)) /\
  PipelineOpt.detect_cpu_features PipelineOpt.GNU Scenarios.sse42_cpu = 0 /\
  PipelineOpt.detect_prefetch_support PipelineOpt.GNU Scenarios.sse42_cpu = 1 /\
  level PipelineOpt.GNU Scenarios.sse42_cpu = 0 /\
  PipelineOpt.detect_cpu_features PipelineOpt.MSVC Scenarios.sse42_cpu = 127 /\
  level PipelineOpt.MSVC Scenarios.sse42_cpu = 1 /\
  (forall cc c, level cc c = 0 \/ level cc c = 1 \/ level cc c = 2) /\
  (forall c,
      let r1 := PipelineOpt.msvc_cpuid c 1 in
      let r7 := PipelineOpt.msvc_cpuid c 7 in
      (level PipelineOpt.MSVC c = 2 <->
       bit (PipelineOpt.ebx r7) 5 /\ bit (PipelineOpt.edx r1) 9) /\
      (level PipelineOpt.MSVC c = 1 <->
       ~ bit (PipelineOpt.ebx r7) 5 /\ bit (PipelineOpt.ecx r1) 20 /\
       bit (PipelineOpt.edx r1) 9)) /\
  (forall c r1,
      PipelineOpt.get_cpuid c 1 = Some r1 ->
      PipelineOpt.get_cpuid_count c 7 0 = None ->
      level PipelineOpt.GNU c <> 2 /\
      (level PipelineOpt.GNU c = 1 <->
       bit (PipelineOpt.ecx r1) 20 /\ bit (PipelineOpt.edx r1) 9)) /\
  (forall c r1 r7,
      PipelineOpt.get_cpuid c 1 = Some r1 ->
      PipelineOpt.get_cpuid_count c 7 0 = Some r7 ->
      (level PipelineOpt.GNU c = 2 <->
       bit (PipelineOpt.ebx r7) 5 /\ bit (PipelineOpt.edx r1) 9) /\
      (level PipelineOpt.GNU c = 1 <->
       ~ bit (PipelineOpt.ebx r7) 5 /\ bit (PipelineOpt.ecx r7) 20 /\
       bit (PipelineOpt.edx r1) 9)).
Proof.
  intros bit level.
  assert (P : forall x, (if Z.land x (Z.shiftl 1 9) =? 0 then 0 else 1) <> 0 <-> bit x 9).
  { intro x. subst bit. cbv beta.
    destruct (Z.eqb_spec (Z.land x (Z.shiftl 1 9)) 0) as [E | E]; split; intro K;
      try assumption; try discriminate; contradiction. }
  assert (L : forall ebx ecx edx x,
             let l := if PipelineOpt.truthy (Z.land (PipelineOpt.feature_bits ebx ecx edx) 128)
                         && PipelineOpt.truthy (if Z.land x (Z.shiftl 1 9) =? 0 then 0 else 1)
                      then 2
                      else if PipelineOpt.truthy
                                (Z.land (PipelineOpt.feature_bits ebx ecx edx) 32)
                              && PipelineOpt.truthy
                                   (if Z.land x (Z.shiftl 1 9) =? 0 then 0 else 1)
                           then 1 else 0 in
             (l = 2 <-> bit ebx 5 /\ bit x 9) /\
             (l = 1 <-> ~ bit ebx 5 /\ bit ecx 20 /\ bit x 9)).
  { intros ebx ecx edx x.
    pose proof (PipelineOptFacts.level_cases
                  (PipelineOpt.feature_bits ebx ecx edx)
                  (if Z.land x (Z.shiftl 1 9) =? 0 then 0 else 1)) as K.
    destruct (PipelineOptFacts.feature_bits_flags ebx ecx edx) as [F128 F32].
    cbv zeta in *. destruct K as (_ & K2 & K1 & _).
    rewrite K2, K1, F128, F32, P. subst bit. cbv beta. split; reflexivity. }
  split; [subst bit; cbv beta; repeat split; vm_compute; congruence |].
  split; [reflexivity |]. split; [reflexivity |]. split; [reflexivity |].
  split; [reflexivity |]. split; [reflexivity |].
  split.
  { intros cc c.
    pose proof (PipelineOptFacts.level_cases
                  (PipelineOpt.detect_cpu_features cc c)
                  (PipelineOpt.detect_prefetch_support cc c)) as K.
    cbv zeta in K. apply K. }
  split; [| split].
  - intros c r1 r7. subst r1 r7 level. cbv beta.
    unfold PipelineOpt.is_pipeline_opt_supported. cbv zeta.
    cbn [PipelineOpt.detect_cpu_features PipelineOpt.detect_prefetch_support].
    apply L.
  - intros c r1 H1 H7. subst level. cbv beta.
    unfold PipelineOpt.is_pipeline_opt_supported. cbv zeta.
    cbn [PipelineOpt.detect_cpu_features PipelineOpt.detect_prefetch_support].
    rewrite H1, H7. cbn [PipelineOpt.ebx PipelineOpt.ecx PipelineOpt.edx].
    destruct (L 0 (PipelineOpt.ecx r1) (PipelineOpt.edx r1) (PipelineOpt.edx r1))
      as [L2 L1].
    cbv zeta in L2, L1. split.
    + intro K. apply L2 in K. destruct K as [K _]. apply K. reflexivity.
    + rewrite L1. split.
      * intros (_ & A & B). split; assumption.
      * intros (A & B). split; [| split; assumption].
        intro K. apply K. reflexivity.
  - intros c r1 r7 H1 H7. subst level. cbv beta.
    unfold PipelineOpt.is_pipeline_opt_supported. cbv zeta.
    cbn [PipelineOpt.detect_cpu_features PipelineOpt.detect_prefetch_support].
    rewrite H1, H7. apply L.
Qed.

(** C8.  When the base capability query fails, detection degrades
    without any error: no feature flag, no prefetch support, level 0,
    and a cache line of 64 bytes; the cache line is 64 bytes as well when
    the query succeeds and its byte field (bits 8..15 of [ebx]) is zero. *)
Theorem detection_degrades
    (cc : PipelineOpt.compiler) (c : PipelineOpt.cpu)
    (Hfail : PipelineOpt.base_query cc c = None) :
  PipelineOpt.detect_cpu_features cc c = 0 /\
  PipelineOpt.detect_prefetch_support cc c = 0 /\
  PipelineOpt.is_pipeline_opt_supported cc c = 0 /\
  PipelineOpt.get_cache_line_size cc c = 64 /\
  (forall cc' c' r,
      PipelineOpt.base_query cc' c' = Some r ->
      Z.land (Z.shiftr (PipelineOpt.ebx r) 8) 255 = 0 ->
      PipelineOpt.get_cache_line_size cc' c' = 64).
Proof.
  destruct cc; cbn in Hfail; [discriminate |].
  unfold PipelineOpt.is_pipeline_opt_supported, PipelineOpt.detect_cpu_features,
    PipelineOpt.detect_prefetch_support, PipelineOpt.get_cache_line_size.
  rewrite Hfail. repeat split.
  intros cc' c' r Hq Hz.
  destruct cc'; cbn in Hq.
  - inversion Hq; subst r. unfold PipelineOpt.clflush_line_size. rewrite Hz. reflexivity.
  - rewrite Hq. unfold PipelineOpt.clflush_line_size. rewrite Hz. reflexivity.
Qed.

Lemma detection_degrades_witness :
  PipelineOpt.base_query PipelineOpt.GNU Examples.no_cpuid = None /\
  PipelineOpt.is_pipeline_opt_supported PipelineOpt.GNU Examples.no_cpuid = 0 /\
  PipelineOpt.get_cache_line_size PipelineOpt.GNU Examples.no_cpuid = 64.
Proof.
  split; [reflexivity |].
  pose proof (detection_degrades PipelineOpt.GNU Examples.no_cpuid eq_refl) as K.
  split; [apply K | apply K].
Defined.

(** C10.  [check_memory_usage] returns 1 exactly when the threshold is
    positive and the current memory is above it, and 0 otherwise,
    whether or not a result object is passed; a result object is filled
    and its [threshold_exceeded] field is the returned value; with
    threshold 0 the call returns 0 and writes no alert. *)
Theorem check_memory_usage_exceeded
    (o : MemoryProbes.os) (probe_name : option string) (threshold : N)
    (res : option MemoryProbes.MemoryProbeResult) (r0 : MemoryProbes.MemoryProbeResult)
    (w : MemoryProbes.world) :
  let ret := fst (fst (MemoryProbes.check_memory_usage o probe_name threshold res w)) in
  (ret = 1 <-> (0 < threshold /\ threshold < MemoryProbes.current_mem o)%N) /\
  (ret = 0 \/ ret = 1) /\
  (exists r,
      snd (fst (MemoryProbes.check_memory_usage o probe_name threshold (Some r0) w)) = Some r /\
      MemoryProbes.threshold_exceeded r =
        fst (fst (MemoryProbes.check_memory_usage o probe_name threshold (Some r0) w)) /\
      (MemoryProbes.threshold_exceeded r = 1 <->
       (0 < threshold /\ threshold < MemoryProbes.current_mem o)%N)) /\
  (threshold = 0%N ->
   ret = 0 /\
   MemoryProbes.alerts (snd (MemoryProbes.check_memory_usage o probe_name threshold res w))
   = MemoryProbes.alerts w).
Proof.
  intro ret. unfold MemoryProbes.check_memory_usage in *.
  set (p := MemoryProbes.mkProbe _ _ _ _ _) in *.
  assert (Hflag : forall res',
             fst (fst (MemoryProbes.mem_probe o (Some p) res' w)) =
             if (0 <? threshold)%N && (threshold <? MemoryProbes.current_mem o)%N
             then 1 else 0).
  { intro res'. apply (MemoryProbesFacts.mem_probe_flag o p res' w). }
  assert (Hiff : forall res',
             fst (fst (MemoryProbes.mem_probe o (Some p) res' w)) = 1 <->
             (0 < threshold /\ threshold < MemoryProbes.current_mem o)%N).
  { intro res'. rewrite Hflag.
    destruct (N.ltb_spec 0 threshold), (N.ltb_spec threshold (MemoryProbes.current_mem o));
      cbn; split; intros; try lia; try discriminate. }
  split; [apply Hiff |].
  split.
  { subst ret. rewrite Hflag. destruct (_ && _); auto. }
  split.
  { destruct (MemoryProbesFacts.mem_probe_result o p r0 w) as (r & Hr & He & _).
    exists r. split; [exact Hr |]. split; [exact He |].
    rewrite He. apply Hiff. }
  intro Hz.
  assert (R0 : ret = 0).
  { subst ret. rewrite Hflag. subst threshold. reflexivity. }
  split; [exact R0 |].
  apply MemoryProbesFacts.mem_probe_alerts. exact R0.
Qed.

Import Mem Examples.

(** C1.  The claim fails on the vector kernels of [simd_kernels.cpp]:
    they have no remainder pass.  Called with [n = 3] on three-element
    buffers, [matrix_mult_avx512] loads [a[0..15]] and [b[0..15]] and
    stores [c[0..15]], so its accesses leave the caller's indices
    [0..2] (and so do those of [matrix_add_avx512]); the baseline kernel
    and the AVX2 branch of [asm_matrix_add], which has the scalar
    remainder loop, stay inside them on the same input. *)
Theorem matrix_mult_avx512_overrun :
  trace (Simd.matrix_mult_avx512 3 abc3)
  = map (Load PA) (lanes 16) ++ map (Load PB) (lanes 16) ++ map (Store PC) (lanes 16) /\
  in_boundsb 3 (trace (Simd.matrix_mult_avx512 3 abc3)) = false /\
  in_boundsb 3 (trace (Simd.matrix_add_avx512 3 abc3)) = false /\
  in_boundsb 3 (trace (Simd.matrix_mult_baseline 3 abc3)) = true /\
  in_boundsb 3 (trace (Asm.asm_matrix_add Asm.AVX2 3 abc3)) = true.
Proof. repeat split; vm_compute; reflexivity. Qed.

(** C2, as stated, fails by the design of the vector reductions: on
    the four products [2^24, 1, 1, -2^24] the SSE4.2 branch of
    [asm_vector_dot] adds lanes pairwise and returns 1.0, the scalar
    baseline adds left to right and returns 0.0; the two are not within
    relative tolerance 1e-5 of one another.  On the 1024 products
    [2^24, 1, ..., 1] the SSE4.2 branch returns 2^24 + 768 and the
    baseline 2^24: their distance exceeds 1e-5 times either result, and
    also 1e-5 times the sum of the magnitudes of the products. *)
Lemma dot_reduction_exceeds_tolerance :
  Dot.asm_vector_dot Asm.SSE42 cancelA cancelB 4 = b32_of_Z 1 /\
  Dot.asm_vector_dot Asm.Scalar cancelA cancelB 4 = b32_of_Z 0 /\
  ~ within_rel_tol (1 # 100000)
      (b32_to_Q (Dot.asm_vector_dot Asm.SSE42 cancelA cancelB 4))
      (b32_to_Q (Dot.asm_vector_dot Asm.Scalar cancelA cancelB 4)) /\
  Dot.asm_vector_dot Asm.SSE42 longA longB 1024 = b32_of_Z 16777984 /\
  Dot.asm_vector_dot Asm.Scalar longA longB 1024 = b32_of_Z 16777216 /\
  ~ within_rel_tol (1 # 100000)
      (b32_to_Q (Dot.asm_vector_dot Asm.SSE42 longA longB 1024))
      (b32_to_Q (Dot.asm_vector_dot Asm.Scalar longA longB 1024)) /\
  ~ (Qabs (b32_to_Q (Dot.asm_vector_dot Asm.SSE42 longA longB 1024)
           - b32_to_Q (Dot.asm_vector_dot Asm.Scalar longA longB 1024))
     <= (1 # 100000) * sum_abs_products longA longB 1024)%Q.
Proof.
  split; [vm_compute; reflexivity |]. split; [vm_compute; reflexivity |].
  split; [intros [K | K]; vm_compute in K; apply K; reflexivity |].
  split; [vm_compute; reflexivity |]. split; [vm_compute; reflexivity |].
  split; [intros [K | K]; vm_compute in K; apply K; reflexivity |].
  intro K. vm_compute in K. apply K. reflexivity.
Qed.

(** C2, amended.  For every element type:
    - [asm_matrix_add], [asm_vector_scale], [asm_vector_bitwise_or] and
      [asm_vector_bitwise_and] leave, in every tier and for every size
      from [INT_MIN + 8] on (so that the loop bound [size - W] is an
      [int]), exactly the memory the scalar branch leaves;
    - the [matrix_mult_*], [matrix_add_*] and [vector_scale_*] kernels of
      [simd_kernels.cpp] leave the memory of their baseline whenever [n]
      is a non-negative multiple of the vector width (other [n] are not
      covered);
    - on such [n], [fma_avx2] without [__FMA__] equals [fma_baseline],
      [fma_neon] does when addition is commutative, and the fused
      [fma_avx512] and [fma_avx2] do on the inputs on which, at every
      index below [n], the fused [a[i] * b[i] + c[i]] is the two-step
      one;
    - the plain-loop branches of [asm_matrix_multiply] are the loop of
      [matrix_multiply];
    - [asm_vector_dot] on binary32 returns the bits of the scalar branch
      whenever [size] is below the tier's width (and at least
      [INT_MIN + 8]), and with exact (integer) arithmetic it returns the
      scalar sum for every size from [INT_MIN + 8] on. *)
Theorem tiers_agree_with_baseline {V : Type} `{Arith V} `{Fused V} :
  (forall t size (s : state V) q idx,
      INT_MIN + 8 <= size <= INT_MAX ->
      mem (Asm.asm_matrix_add t size s) q idx =
      mem (Asm.asm_matrix_add Asm.Scalar size s) q idx) /\
  (forall t scalar size (s : state V) q idx,
      INT_MIN + 8 <= size <= INT_MAX ->
      mem (Asm.asm_vector_scale t scalar size s) q idx =
      mem (Asm.asm_vector_scale Asm.Scalar scalar size s) q idx) /\
  (forall t size (s : state Z) q idx,
      INT_MIN + 8 <= size <= INT_MAX ->
      mem (Asm.asm_vector_bitwise_or t size s) q idx =
      mem (Asm.asm_vector_bitwise_or Asm.Scalar size s) q idx) /\
  (forall t size (s : state Z) q idx,
      INT_MIN + 8 <= size <= INT_MAX ->
      mem (Asm.asm_vector_bitwise_and t size s) q idx =
      mem (Asm.asm_vector_bitwise_and Asm.Scalar size s) q idx) /\
  (forall t n (s : state V) q idx,
      0 <= n -> n mod Simd.width t = 0 ->
      mem (Simd.matrix_mult t n s) q idx = mem (Simd.matrix_mult_baseline n s) q idx) /\
  (forall t n (s : state V) q idx,
      0 <= n -> n mod Simd.width t = 0 ->
      mem (Simd.matrix_add t n s) q idx = mem (Simd.matrix_add_baseline n s) q idx) /\
  (forall t scalar n (s : state V) q idx,
      0 <= n -> n mod Simd.width t = 0 ->
      mem (Simd.vector_scale t scalar n s) q idx =
      mem (Simd.vector_scale_baseline scalar n s) q idx) /\
  (forall n (s : state V) q idx,
      0 <= n -> n mod 8 = 0 ->
      mem (Simd.fma_avx2 false n s) q idx = mem (Simd.fma_baseline n s) q idx) /\
  (forall n (s : state V) q idx,
      (forall x y : V, add x y = add y x) ->
      0 <= n -> n mod 4 = 0 ->
      mem (Simd.fma_neon n s) q idx = mem (Simd.fma_baseline n s) q idx) /\
  (forall n (s : state V) q idx,
      (forall i, 0 <= i < n ->
                 fmadd (mem s PA i) (mem s PB i) (mem s PC i) =
                 add (mul (mem s PA i) (mem s PB i)) (mem s PC i)) ->
      0 <= n ->
      (n mod 16 = 0 ->
       mem (Simd.fma_avx512 n s) q idx = mem (Simd.fma_baseline n s) q idx) /\
      (n mod 8 = 0 ->
       mem (Simd.fma_avx2 true n s) q idx = mem (Simd.fma_baseline n s) q idx)) /\
  (forall (A B C : buffer V) M N K,
      AsmMatMul.asm_matrix_multiply AsmMatMul.Naive A B C M N K =
      MatMul.matrix_multiply A B C M K N) /\
  (forall t (A B : buffer binary32) size,
      INT_MIN + 8 <= size -> size < Asm.width t ->
      Dot.asm_vector_dot t A B size = Dot.asm_vector_dot Asm.Scalar A B size) /\
  (forall t (A B : buffer Z) size,
      INT_MIN + 8 <= size <= INT_MAX ->
      Dot.asm_vector_dot t A B size = Dot.asm_vector_dot Asm.Scalar A B size).
Proof.
  assert (Hsimd : forall (F : elementwise (V:=V)) W n hi (s s1 s2 : state V) q idx,
             0 < W -> 0 <= n -> n mod W = 0 -> n <= hi < n + W -> hi mod W = 0 ->
             processed F s 0 hi s1 -> processed F s 0 n s2 ->
             mem s1 q idx = mem s2 q idx).
  { intros F W n hi s s1 s2 q idx HW Hn Hm Hhi Hhm P1 P2.
    apply (MemFacts.processed_same_mem F s 0 n); [| exact P2].
    apply (ElementwiseFacts.processed_multiple F s s1 W n hi); assumption. }
  assert (Hw : forall t, 0 < Simd.width t) by (intros []; cbn; lia).
  assert (Hfma : forall (W : nat) (fm : V -> V -> V -> V) n (s : state V) q idx,
             (0 < W)%nat -> 0 <= n -> n mod Z.of_nat W = 0 ->
             (forall i, 0 <= i < n ->
                        fm (mem s PA i) (mem s PB i) (mem s PC i) =
                        add (mul (mem s PA i) (mem s PB i)) (mem s PC i)) ->
             mem (snd (for_lt n (Z.of_nat W) (Simd.vec_fma W fm) 0 s)) q idx =
             mem (Simd.fma_baseline n s) q idx).
  { intros W fm n s q idx HW Hn Hm Hlaw.
    destruct (FmaFacts.fma_vectors_processed W fm n s HW Hn Hm) as [M1 _].
    destruct (FmaFacts.fma_baseline_processed n s Hn) as [M2 _].
    rewrite M1, M2.
    destruct (Z.leb_spec 0 idx); [| reflexivity].
    destruct (Z.ltb_spec idx n); [| reflexivity].
    cbn [andb]. unfold Ffma. destruct (ptr_eqb q PR); [| reflexivity].
    apply Hlaw. lia. }
  repeat apply conj.
  - intros t size s q idx Hr.
    apply (MemFacts.processed_same_mem (Fbinop add) s 0 (Z.max 0 size));
      apply ElementwiseFacts.asm_binop_processed; exact Hr.
  - intros t scalar size s q idx Hr.
    apply (MemFacts.processed_same_mem (Fscale_to mul scalar) s 0 (Z.max 0 size));
      apply ElementwiseFacts.asm_vector_scale_processed; exact Hr.
  - intros t size s q idx Hr.
    apply (MemFacts.processed_same_mem (Fbinop Z.lor) s 0 (Z.max 0 size));
      apply ElementwiseFacts.asm_binop_processed; exact Hr.
  - intros t size s q idx Hr.
    apply (MemFacts.processed_same_mem (Fbinop Z.land) s 0 (Z.max 0 size));
      apply ElementwiseFacts.asm_binop_processed; exact Hr.
  - intros t n s q idx Hn Hm.
    destruct (ElementwiseFacts.matrix_mult_processed t n s Hn) as (hi & Hhi & Hhm & P1).
    destruct (ElementwiseFacts.matrix_mult_processed Simd.Baseline n s Hn)
      as (hi' & Hhi' & _ & P2).
    cbn [Simd.width Simd.matrix_mult] in Hhi', P2.
    replace hi' with n in P2 by lia.
    apply (Hsimd (Fbinop mul) (Simd.width t) n hi s); auto.
  - intros t n s q idx Hn Hm.
    destruct (ElementwiseFacts.matrix_add_processed t n s Hn) as (hi & Hhi & Hhm & P1).
    destruct (ElementwiseFacts.matrix_add_processed Simd.Baseline n s Hn)
      as (hi' & Hhi' & _ & P2).
    cbn [Simd.width Simd.matrix_add] in Hhi', P2.
    replace hi' with n in P2 by lia.
    apply (Hsimd (Fbinop add) (Simd.width t) n hi s); auto.
  - intros t scalar n s q idx Hn Hm.
    destruct (ElementwiseFacts.vector_scale_processed t scalar n s Hn)
      as (hi & Hhi & Hhm & P1).
    destruct (ElementwiseFacts.vector_scale_processed Simd.Baseline scalar n s Hn)
      as (hi' & Hhi' & _ & P2).
    cbn [Simd.width Simd.vector_scale] in Hhi', P2.
    replace hi' with n in P2 by lia.
    apply (Hsimd (Fscale_inplace mul scalar) (Simd.width t) n hi s); auto.
  - intros n s q idx Hn Hm. unfold Simd.fma_avx2.
    apply (Hfma 8%nat); auto; lia.
  - intros n s q idx Hcomm Hn Hm. unfold Simd.fma_neon.
    apply (Hfma 4%nat); [lia | exact Hn | exact Hm |].
    intros i Hi. apply Hcomm.
  - intros n s q idx Hlaw Hn. split; intro Hm.
    + unfold Simd.fma_avx512. apply (Hfma 16%nat); auto; lia.
    + unfold Simd.fma_avx2. apply (Hfma 8%nat); auto; lia.
  - intros A B C M N K. apply AsmMatMulFacts.asm_naive_is_matrix_multiply.
  - intros t A B size Hr Hs. apply DotFacts.dot_small_binary32; assumption.
  - intros t A B size Hr. apply DotFacts.dot_exact. exact Hr.
Qed.

Lemma tiers_agree_with_baseline_witness :
  mem (Simd.matrix_add Simd.SSE42 4 ints4) PC 2 = mem (Simd.matrix_add_baseline 4 ints4) PC 2 /\
  mem (Asm.asm_matrix_add Asm.AVX2 3 abc3) PC 2 = mem (Asm.asm_matrix_add Asm.Scalar 3 abc3) PC 2 /\
  mem (Simd.fma_avx512 16 fma_small) PR 0 = mem (Simd.fma_baseline 16 fma_small) PR 0.
Proof.
  destruct (@tiers_agree_with_baseline Z _ _) as (_ & _ & _ & _ & _ & K & _).
  destruct (@tiers_agree_with_baseline binary32 _ _)
    as (Ka & _ & _ & _ & _ & _ & _ & _ & _ & Kf & _).
  split; [apply K; [lia | reflexivity] |].
  split; [apply Ka; vm_compute; split; discriminate |].
  destruct (Kf 16 fma_small PR 0) as [K512 _].
  - intros i Hi. vm_compute. reflexivity.
  - lia.
  - apply K512. reflexivity.
Defined.

(** C3.  For all dimensions [rows_a], [cols_a], [cols_b] >= 0, smaller
    than, equal to, or not a multiple of the block extent 32, the
    cache-blocked [matrix_multiply_optimized] leaves in every element of
    [C] exactly (bit for bit, hence within every tolerance) what the
    naive [matrix_multiply] leaves there, and it leaves every element
    outside the [rows_a * cols_b] entries of [C] as it was: the edge
    blocks are clipped. *)
Theorem blocked_matches_naive {V : Type} `{Arith V}
    (A B C : buffer V) (rows_a cols_a cols_b : Z) (simd_type : string) (idx : Z) :
  0 <= rows_a -> 0 <= cols_a -> 0 <= cols_b ->
  MatMul.matrix_multiply_optimized A B C rows_a cols_a cols_b simd_type idx =
  MatMul.matrix_multiply A B C rows_a cols_a cols_b idx /\
  (~ 0 <= idx < rows_a * cols_b ->
   MatMul.matrix_multiply_optimized A B C rows_a cols_a cols_b simd_type idx = C idx).
Proof.
  intros Hm Hk Hn. split.
  - apply MatMulFacts.blocked_eq_naive; assumption.
  - intro Hout. rewrite MatMulFacts.matrix_multiply_optimized_spec by assumption.
    rewrite MatMulFacts.in_rect_all by assumption.
    bdestruct; try reflexivity. exfalso. apply Hout. lia.
Qed.

Lemma blocked_matches_naive_witness :
  MatMul.matrix_multiply_optimized matA matB matC 2 3 2 "avx2" 3 =
  MatMul.matrix_multiply matA matB matC 2 3 2 3.
Proof.
  apply (blocked_matches_naive matA matB matC 2 3 2 "avx2" 3); lia.
Defined.

(** C4.  For [A = [1,2,3,4]], [B = [5,6,7,8]] and size 4,
    [asm_vector_dot] returns 70.0 in each of its instruction-set
    branches (AVX2, SSE4.2, NEON, scalar). *)
Theorem asm_vector_dot_example (t : Asm.tier) :
  Dot.asm_vector_dot t dotA dotB 4 = b32_of_Z 70.
Proof. destruct t; vm_compute; reflexivity. Qed.

(** C5.  The claim fails on the vector scale kernels of
    [simd_kernels.cpp]: [vector_scale_sse42] called on [vec = [1,2,3]]
    with scalar 2.0 and [n = 3] leaves [2,4,6] in [vec[0..2]] but loads
    and stores the whole vector [vec[0..3]], so it touches index 3; no
    remainder path exists.  Every branch of [asm_vector_scale], on the
    same input, yields [2,4,6] and stays inside indices [0..2]. *)
Theorem vector_scale_sse42_overrun :
  let s := Simd.vector_scale_sse42 (b32_of_Z 2) 3 abc3 in
  contents (mem s PA) 3 = map b32_of_Z [2; 4; 6] /\
  trace s = [Load PA 0; Load PA 1; Load PA 2; Load PA 3;
             Store PA 0; Store PA 1; Store PA 2; Store PA 3] /\
  in_boundsb 3 (trace s) = false /\
  (forall t,
      let s' := Asm.asm_vector_scale t (b32_of_Z 2) 3 abc3 in
      contents (mem s' PB) 3 = map b32_of_Z [2; 4; 6] /\
      in_boundsb 3 (trace s') = true).
Proof.
  repeat split; try (vm_compute; reflexivity); destruct t; vm_compute; reflexivity.
Qed.

(** C6.  With a NULL [simd_type], [dispatch_matrix_multiply] calls the
    kernel of the first tier, in the order AVX-512, AVX2, AVX, SSE4.2,
    NEON, scalar baseline, that the build has compiled in (the scalar
    baseline always is), and whatever the build, every entry [(i, j)] of
    [C] receives the matrix product
    [sum over k of A[i,k] * B[k,j]]. *)
Theorem dispatch_auto_selects_widest {V : Type} `{Arith V}
    (m : Build.macros) (A B C : buffer V) (rows_a cols_a cols_b i j : Z) :
  0 <= rows_a -> 0 <= cols_a -> 0 <= cols_b ->
  0 <= i < rows_a -> 0 <= j < cols_b ->
  (exists t, MatMul.dispatch_select m None = MatMul.call_of_tier t /\
             MatMul.compiled_in m t = true /\
             forall t', MatMul.compiled_in m t' = true -> MatMul.rank t <= MatMul.rank t') /\
  MatMul.dispatch_matrix_multiply m A B C rows_a cols_a cols_b None (i * cols_b + j)
  = MatMul.product_entry A B cols_a cols_b i j.
Proof.
  intros Hm Hk Hn Hi Hj. split.
  - unfold MatMul.dispatch_select.
    destruct (Build.def_AVX512F m) eqn:E1;
      [exists MatMul.T_AVX512; repeat split; [exact E1 | intros []; cbn; intros; lia] |].
    destruct (Build.def_AVX2 m) eqn:E2;
      [exists MatMul.T_AVX2; repeat split; [exact E2 | intros []; cbn; intros; try lia; congruence] |].
    destruct (Build.def_AVX m) eqn:E3;
      [exists MatMul.T_AVX; repeat split; [exact E3 | intros []; cbn; intros; try lia; congruence] |].
    destruct (Build.def_SSE4_2 m) eqn:E4;
      [exists MatMul.T_SSE42; repeat split; [exact E4 | intros []; cbn; intros; try lia; congruence] |].
    destruct (Build.def_ARM_NEON m) eqn:E5;
      [exists MatMul.T_NEON; repeat split; [exact E5 | intros []; cbn; intros; try lia; congruence] |].
    exists MatMul.T_SCALAR. repeat split. intros []; cbn; intros; try lia; congruence.
  - assert (Hnaive : MatMul.matrix_multiply A B C rows_a cols_a cols_b (i * cols_b + j)
                     = MatMul.product_entry A B cols_a cols_b i j).
    { rewrite MatMulFacts.matrix_multiply_spec by assumption.
      destruct (MatMulFacts.flat_index cols_b i j Hj) as [Hd Hmod].
      unfold MatMul.in_rect. rewrite Hd, Hmod.
      replace ((0 <=? i) && (i <? rows_a) && (0 <=? j) && (j <? cols_b)) with true
        by (bdestruct; try reflexivity; lia).
      apply ProductFacts.accumulate_product. assumption. }
    unfold MatMul.dispatch_matrix_multiply.
    destruct (MatMul.dispatch_select m None).
    + rewrite MatMulFacts.blocked_eq_naive by assumption. exact Hnaive.
    + exact Hnaive.
Qed.

Lemma dispatch_auto_selects_widest_witness :
  MatMul.dispatch_matrix_multiply no_macros matA matB matC 2 3 2 None (1 * 2 + 1)
  = MatMul.product_entry matA matB 3 2 1 1.
Proof.
  apply (dispatch_auto_selects_widest no_macros matA matB matC 2 3 2 1 1); lia.
Defined.

(** C9.  [matrix_multiply_optimized] does not look at its [simd_type]
    argument: for any two hint strings it leaves the same [C], and so
    does [dispatch_matrix_multiply] when it is given a hint. *)
Theorem simd_type_hint_ignored {V : Type} `{Arith V}
    (m : Build.macros) (A B C : buffer V) (rows_a cols_a cols_b : Z) (h1 h2 : string) :
  MatMul.matrix_multiply_optimized A B C rows_a cols_a cols_b h1 =
  MatMul.matrix_multiply_optimized A B C rows_a cols_a cols_b h2 /\
  MatMul.dispatch_matrix_multiply m A B C rows_a cols_a cols_b (Some h1) =
  MatMul.dispatch_matrix_multiply m A B C rows_a cols_a cols_b (Some h2).
Proof. split; reflexivity. Qed.

(* ===================================================================== *)
(** * Further properties of the code                                     *)
(* ===================================================================== *)

Import LoopExtFacts.

(** X1.  For every branch (AVX2, SSE4.2, NEON, scalar) and every [int]
    [size] from [INT_MIN + 8] on (negative ones included; below that the
    loop bound [size - 8] overflows), [asm_matrix_add],
    [asm_vector_scale], [asm_vector_bitwise_or] and
    [asm_vector_bitwise_and] leave in the output buffer, at each index
    [0 <= idx < size], the sum, the scaled element, the bitwise or / and
    of the inputs at that index, and leave every other element of every
    buffer as it was. *)
Theorem asm_elementwise_result {V : Type} `{Arith V}
    (t : Asm.tier) (scalar : V) (size : Z) (s : state V) (sz : state Z) (q : ptr) (idx : Z) :
  INT_MIN + 8 <= size <= INT_MAX ->
  mem (Asm.asm_matrix_add t size s) q idx =
    (if ptr_eqb q PC && ((0 <=? idx) && (idx <? size))
     then add (mem s PA idx) (mem s PB idx) else mem s q idx) /\
  mem (Asm.asm_vector_scale t scalar size s) q idx =
    (if ptr_eqb q PB && ((0 <=? idx) && (idx <? size))
     then mul (mem s PA idx) scalar else mem s q idx) /\
  mem (Asm.asm_vector_bitwise_or t size sz) q idx =
    (if ptr_eqb q PC && ((0 <=? idx) && (idx <? size))
     then Z.lor (mem sz PA idx) (mem sz PB idx) else mem sz q idx) /\
  mem (Asm.asm_vector_bitwise_and t size sz) q idx =
    (if ptr_eqb q PC && ((0 <=? idx) && (idx <? size))
     then Z.land (mem sz PA idx) (mem sz PB idx) else mem sz q idx).
Proof.
  intro Hr.
  assert (R : (0 <=? idx) && (idx <? Z.max 0 size) = (0 <=? idx) && (idx <? size))
    by (bdestruct; try reflexivity; lia).
  assert (B : forall (W : Type) (op : W -> W -> W) (s' : state W),
             mem (Asm.asm_binop op t size s') q idx =
             (if ptr_eqb q PC && ((0 <=? idx) && (idx <? size))
              then op (mem s' PA idx) (mem s' PB idx) else mem s' q idx)).
  { intros W op s'.
    destruct (ElementwiseFacts.asm_binop_processed op t size s' Hr) as [M _].
    rewrite M, R. unfold Fbinop.
    destruct (ptr_eqb q PC), ((0 <=? idx) && (idx <? size)); reflexivity. }
  split; [apply B |]. split; [| split; apply B].
  destruct (ElementwiseFacts.asm_vector_scale_processed t scalar size s Hr) as [M _].
  rewrite M, R. unfold Fscale_to.
  destruct (ptr_eqb q PB), ((0 <=? idx) && (idx <? size)); reflexivity.
Qed.

Lemma asm_elementwise_result_witness :
  mem (Asm.asm_matrix_add Asm.SSE42 3 ints4) PC 2 = 33 /\
  mem (Asm.asm_matrix_add Asm.SSE42 3 ints4) PC 3 = 0.
Proof.
  pose proof (asm_elementwise_result Asm.SSE42 0 3 ints4 ints4 PC 2
                ltac:(vm_compute; split; discriminate)) as K2.
  pose proof (asm_elementwise_result Asm.SSE42 0 3 ints4 ints4 PC 3
                ltac:(vm_compute; split; discriminate)) as K3.
  destruct K2 as [K2 _]. destruct K3 as [K3 _].
  split; [rewrite K2 | rewrite K3]; reflexivity.
Defined.

(** X2.  For every [int] [size] from [INT_MIN + 8] on, the loads and
    stores of the four element-wise [asm_*] kernels are appended to the
    access log, every one of them has its index in [0 .. size-1], and
    every index of that range is accessed: the chunk loop and the
    remainder loop together cover the buffers exactly. *)
Theorem asm_elementwise_accesses {V : Type} `{Arith V}
    (t : Asm.tier) (scalar : V) (size : Z) (s : state V) (sz : state Z) :
  INT_MIN + 8 <= size <= INT_MAX ->
  let covers (old new : list access) :=
    exists tr, new = old ++ tr /\
               Forall (fun a => 0 <= access_index a < size) tr /\
               forall idx, 0 <= idx < size -> exists a, In a tr /\ access_index a = idx in
  covers (trace s) (trace (Asm.asm_matrix_add t size s)) /\
  covers (trace s) (trace (Asm.asm_vector_scale t scalar size s)) /\
  covers (trace sz) (trace (Asm.asm_vector_bitwise_or t size sz)) /\
  covers (trace sz) (trace (Asm.asm_vector_bitwise_and t size sz)).
Proof.
  intros Hr covers.
  assert (K : forall (W : Type) (F : elementwise (V:=W)) (s0 s1 : state W),
             processed F s0 0 (Z.max 0 size) s1 -> covers (trace s0) (trace s1)).
  { intros W F s0 s1 (_ & tr & T & Bd & Cov). exists tr. split; [exact T |]. split.
    - eapply Forall_impl; [| exact Bd]. cbn. intros; lia.
    - intros idx Hi. apply Cov. lia. }
  split; [apply (K V (Fbinop add)), ElementwiseFacts.asm_binop_processed, Hr |].
  split; [apply (K V (Fscale_to mul scalar)), ElementwiseFacts.asm_vector_scale_processed, Hr |].
  split; [apply (K Z (Fbinop Z.lor)) | apply (K Z (Fbinop Z.land))];
    apply ElementwiseFacts.asm_binop_processed, Hr.
Qed.

Lemma asm_elementwise_accesses_witness :
  exists tr, trace (Asm.asm_vector_bitwise_or Asm.AVX2 3 ints4) = trace ints4 ++ tr /\
             Forall (fun a => 0 <= access_index a < 3) tr.
Proof.
  pose proof (asm_elementwise_accesses Asm.AVX2 0 3 ints4 ints4
                ltac:(vm_compute; split; discriminate)) as K.
  cbv zeta in K. destruct K as (_ & _ & (tr & E & B & _) & _).
  exists tr. split; [exact E | exact B].
Defined.

(** X3.  For [n >= 0], [matrix_mult_*], [matrix_add_*] and
    [vector_scale_*] of [simd_kernels.cpp] write the element-wise
    product, sum and scaled element at every index below [n] rounded up
    to a multiple of the vector width, and nothing else; the rounded
    bound is [n] when the width divides [n] and lies beyond [n]
    otherwise. *)
Theorem simd_kernels_whole_vectors {V : Type} `{Arith V}
    (t : Simd.isa) (scalar : V) (n : Z) (s : state V) (q : ptr) (idx : Z) :
  0 <= n ->
  let hi := round_up n (Simd.width t) in
  mem (Simd.matrix_mult t n s) q idx =
    (if ptr_eqb q PC && ((0 <=? idx) && (idx <? hi))
     then mul (mem s PA idx) (mem s PB idx) else mem s q idx) /\
  mem (Simd.matrix_add t n s) q idx =
    (if ptr_eqb q PC && ((0 <=? idx) && (idx <? hi))
     then add (mem s PA idx) (mem s PB idx) else mem s q idx) /\
  mem (Simd.vector_scale t scalar n s) q idx =
    (if ptr_eqb q PA && ((0 <=? idx) && (idx <? hi))
     then mul (mem s PA idx) scalar else mem s q idx) /\
  (n mod Simd.width t <> 0 -> n < hi) /\
  (n mod Simd.width t = 0 -> hi = n).
Proof.
  intros Hn hi.
  pose proof (SimdFootprintFacts.width_pos t) as HW.
  destruct (ElementwiseFacts.matrix_mult_processed t n s Hn) as (h1 & B1 & M1 & [P1 _]).
  destruct (ElementwiseFacts.matrix_add_processed t n s Hn) as (h2 & B2 & M2 & [P2 _]).
  destruct (ElementwiseFacts.vector_scale_processed t scalar n s Hn) as (h3 & B3 & M3 & [P3 _]).
  rewrite (SimdFootprintFacts.round_up_unique n _ h1 HW B1 M1) in P1.
  rewrite (SimdFootprintFacts.round_up_unique n _ h2 HW B2 M2) in P2.
  rewrite (SimdFootprintFacts.round_up_unique n _ h3 HW B3 M3) in P3.
  fold hi in P1, P2, P3.
  split; [| split; [| split; [| split]]].
  - rewrite P1. unfold Fbinop.
    destruct (ptr_eqb q PC), ((0 <=? idx) && (idx <? hi)); reflexivity.
  - rewrite P2. unfold Fbinop.
    destruct (ptr_eqb q PC), ((0 <=? idx) && (idx <? hi)); reflexivity.
  - rewrite P3. unfold Fscale_inplace.
    destruct (ptr_eqb q PA), ((0 <=? idx) && (idx <? hi)); reflexivity.
  - intro Hm. apply SimdFootprintFacts.round_up_overrun; assumption.
  - intro Hm. symmetry. apply SimdFootprintFacts.round_up_unique; [exact HW | lia | exact Hm].
Qed.

Lemma simd_kernels_whole_vectors_witness :
  mem (Simd.matrix_add Simd.SSE42 3 Examples.ints4) PC 3 = 44.
Proof.
  destruct (simd_kernels_whole_vectors Simd.SSE42 0 3 Examples.ints4 PC 3 ltac:(lia))
    as (_ & K & _).
  rewrite K. reflexivity.
Defined.

(** X4.  With [INT_MIN + 8 <= size <= 0] no kernel touches memory: the
    element-wise [asm_*] kernels and the [simd_kernels.cpp] kernels
    (multiply, add, scale and the FMA kernels, every tier and the
    baseline) return the state they were given, with nothing logged,
    and [asm_vector_dot] returns [+0.0f].  The [simd_kernels.cpp]
    kernels, which compute no loop bound, do so for every [size <= 0]. *)
Theorem kernels_empty_input {V : Type} `{Arith V} `{Fused V}
    (ta : Asm.tier) (ts : Simd.isa) (scalar : V) (size : Z) (def_FMA : bool)
    (s : state V) (sz : state Z) (A B : buffer binary32) :
  size <= 0 ->
  (INT_MIN + 8 <= size ->
   Asm.asm_matrix_add ta size s = s /\
   Asm.asm_vector_scale ta scalar size s = s /\
   Asm.asm_vector_bitwise_or ta size sz = sz /\
   Asm.asm_vector_bitwise_and ta size sz = sz /\
   Dot.asm_vector_dot ta A B size = S754_zero false) /\
  Simd.matrix_mult ts size s = s /\
  Simd.matrix_add ts size s = s /\
  Simd.vector_scale ts scalar size s = s /\
  Simd.fma_avx512 size s = s /\
  Simd.fma_avx2 def_FMA size s = s /\
  Simd.fma_neon size s = s /\
  Simd.fma_baseline size s = s.
Proof.
  intro Hs. pose proof KernelFacts.INT_MAX_value as Hmax. split.
  { intro Hr.
    assert (Hchunk : forall (W : Type) (w : Z) (vb sb : Z -> state W -> state W)
                       (s' : state W),
               0 < w <= 8 -> Asm.chunked w vb sb size s' = s').
    { intros W w vb sb s' Hw. unfold Asm.chunked.
      rewrite KernelFacts.int_sub_exact by lia.
      rewrite DotFacts.for_le_done by lia. rewrite LoopFacts.for_lt_done by lia.
      reflexivity. }
    assert (Hbin : forall (W : Type) (op : W -> W -> W) (s' : state W),
               Asm.asm_binop op ta size s' = s').
    { intros W op s'. destruct ta; unfold Asm.asm_binop;
        try (apply Hchunk; lia). rewrite LoopFacts.for_lt_done by lia. reflexivity. }
    split; [apply Hbin |]. split.
    { destruct ta; unfold Asm.asm_vector_scale; try (apply Hchunk; lia).
      rewrite LoopFacts.for_lt_done by lia. reflexivity. }
    split; [apply Hbin |]. split; [apply Hbin |].
    destruct ta; unfold Dot.asm_vector_dot, Dot.dot_tail; cbv zeta;
      rewrite ?KernelFacts.int_sub_exact by lia;
      try rewrite DotFacts.for_le_done by lia;
      rewrite LoopFacts.for_lt_done by lia; reflexivity. }
  split; [destruct ts; cbn; unfold Simd.matrix_mult_avx512, Simd.matrix_mult_avx2,
            Simd.matrix_mult_avx, Simd.matrix_mult_sse42, Simd.matrix_mult_neon,
            Simd.matrix_mult_baseline; rewrite LoopFacts.for_lt_done by lia; reflexivity |].
  split; [destruct ts; cbn; unfold Simd.matrix_add_avx512, Simd.matrix_add_avx2,
            Simd.matrix_add_avx, Simd.matrix_add_sse42, Simd.matrix_add_neon,
            Simd.matrix_add_baseline; rewrite LoopFacts.for_lt_done by lia; reflexivity |].
  split; [destruct ts; cbn; unfold Simd.vector_scale_avx512, Simd.vector_scale_avx2,
            Simd.vector_scale_avx, Simd.vector_scale_sse42, Simd.vector_scale_neon,
            Simd.vector_scale_baseline; rewrite LoopFacts.for_lt_done by lia; reflexivity |].
  unfold Simd.fma_avx512, Simd.fma_avx2, Simd.fma_neon, Simd.fma_baseline.
  destruct def_FMA; rewrite !LoopFacts.for_lt_done by lia; repeat split.
Qed.

Lemma kernels_empty_input_witness :
  Asm.asm_matrix_add Asm.AVX2 0 Examples.abc3 = Examples.abc3 /\
  Simd.fma_avx512 (-5) Examples.fma16 = Examples.fma16.
Proof.
  pose proof (kernels_empty_input Asm.AVX2 Simd.AVX2 (S754_zero false) 0 true
                Examples.abc3 Examples.ints4 Examples.dotA Examples.dotB
                ltac:(lia)) as [K _].
  pose proof (kernels_empty_input Asm.AVX2 Simd.AVX2 (S754_zero false) (-5) true
                Examples.fma16 Examples.ints4 Examples.dotA Examples.dotB
                ltac:(lia)) as (_ & _ & _ & _ & K' & _).
  split; [| exact K'].
  exact (proj1 (K ltac:(vm_compute; discriminate))).
Defined.

(** X5.  [asm_vector_dot] gives the same [float], bit for bit, when
    its two vectors are exchanged, on every branch and for every size. *)
Theorem asm_vector_dot_symmetric (t : Asm.tier) (A B : buffer binary32) (size : Z) :
  Dot.asm_vector_dot t A B size = Dot.asm_vector_dot t B A size.
Proof.
  destruct t; unfold Dot.asm_vector_dot; cbv zeta.
  - rewrite (for_le_ext _ _ (Dot.dot_chunk 8 A B) (Dot.dot_chunk 8 B A))
      by (intros; apply DotSymFacts.dot_chunk_comm).
    destruct (for_le _ _ _ _ _). apply DotSymFacts.dot_tail_comm.
  - rewrite (for_le_ext _ _ (Dot.dot_chunk 4 A B) (Dot.dot_chunk 4 B A))
      by (intros; apply DotSymFacts.dot_chunk_comm).
    destruct (for_le _ _ _ _ _). apply DotSymFacts.dot_tail_comm.
  - rewrite (for_le_ext _ _ (Dot.dot_chunk 4 A B) (Dot.dot_chunk 4 B A))
      by (intros; apply DotSymFacts.dot_chunk_comm).
    destruct (for_le _ _ _ _ _). apply DotSymFacts.dot_tail_comm.
  - apply DotSymFacts.dot_tail_comm.
Qed.

(** X6.  For non-negative dimensions, the entries of the product
    written by [matrix_multiply] and by [matrix_multiply_optimized] do
    not depend on what [C] held before the call, and computing the
    product again into the same [C], by either function and in either
    order, changes nothing. *)
Theorem matrix_product_recomputed {V : Type} `{Arith V}
    (A B C C' : buffer V) (rows_a cols_a cols_b : Z) (h h' : string) (idx : Z) :
  0 <= rows_a -> 0 <= cols_a -> 0 <= cols_b ->
  let naive := fun C => MatMul.matrix_multiply A B C rows_a cols_a cols_b in
  let blocked := fun h C => MatMul.matrix_multiply_optimized A B C rows_a cols_a cols_b h in
  (0 <= idx < rows_a * cols_b ->
   naive C idx = naive C' idx /\ blocked h C idx = blocked h C' idx) /\
  naive (naive C) idx = naive C idx /\
  blocked h' (blocked h C) idx = blocked h C idx /\
  blocked h (naive C) idx = naive C idx /\
  naive (blocked h C) idx = blocked h C idx.
Proof.
  intros Hm Hk Hn naive blocked. subst naive blocked. cbv beta.
  rewrite !MatMulExtraFacts.blocked_entries, !MatMulExtraFacts.naive_entries by assumption.
  rewrite ?MatMulExtraFacts.blocked_entries, ?MatMulExtraFacts.naive_entries by assumption.
  destruct ((0 <=? idx) && (idx <? rows_a * cols_b)) eqn:E.
  - split; [intros _; split; reflexivity |]. repeat split; reflexivity.
  - split; [| repeat split; reflexivity].
    intros Hin. exfalso. revert E. bdestruct; intros; try discriminate; lia.
Qed.

Lemma matrix_product_recomputed_witness :
  MatMul.matrix_multiply_optimized Examples.matA Examples.matB
    (MatMul.matrix_multiply Examples.matA Examples.matB Examples.matC 2 3 2) 2 3 2 "avx2" 1
  = MatMul.matrix_multiply Examples.matA Examples.matB Examples.matC 2 3 2 1.
Proof.
  pose proof (matrix_product_recomputed Examples.matA Examples.matB Examples.matC
                Examples.matC 2 3 2 "avx2" "avx2" 1
                ltac:(lia) ltac:(lia) ltac:(lia)) as K.
  cbv zeta in K. destruct K as (_ & _ & _ & K & _). exact K.
Defined.

(** X7.  With [cols_a = 0] both matrix products fill [C] with zeros;
    with [rows_a = 0] or [cols_b = 0] they leave [C] as it was. *)
Theorem matrix_product_degenerate {V : Type} `{Arith V}
    (A B C : buffer V) (rows_a cols_a cols_b : Z) (h : string) (idx : Z) :
  0 <= rows_a -> 0 <= cols_a -> 0 <= cols_b ->
  (cols_a = 0 -> 0 <= idx < rows_a * cols_b ->
   MatMul.matrix_multiply A B C rows_a cols_a cols_b idx = zero /\
   MatMul.matrix_multiply_optimized A B C rows_a cols_a cols_b h idx = zero) /\
  (rows_a = 0 \/ cols_b = 0 ->
   MatMul.matrix_multiply A B C rows_a cols_a cols_b idx = C idx /\
   MatMul.matrix_multiply_optimized A B C rows_a cols_a cols_b h idx = C idx).
Proof.
  intros Hm Hk Hn.
  rewrite MatMulExtraFacts.blocked_entries, MatMulExtraFacts.naive_entries by assumption.
  split.
  - intros -> Hin.
    replace ((0 <=? idx) && (idx <? rows_a * cols_b)) with true
      by (bdestruct; try reflexivity; lia).
    rewrite MatMulFacts.accumulate_empty by lia. split; reflexivity.
  - intros Hz.
    replace ((0 <=? idx) && (idx <? rows_a * cols_b)) with false
      by (bdestruct; try reflexivity; nia).
    split; reflexivity.
Qed.

Lemma matrix_product_degenerate_witness :
  MatMul.matrix_multiply Examples.matA Examples.matB Examples.matC 2 0 2 3 = 0.
Proof.
  pose proof (matrix_product_degenerate Examples.matA Examples.matB Examples.matC
                2 0 2 "x" 3 ltac:(lia) ltac:(lia) ltac:(lia)) as [K _].
  exact (proj1 (K eq_refl ltac:(lia))).
Defined.



(** X9.  [get_platform_info] returns a code between 0 and 10, and a
    code other than 0 identifies the platform and the architecture: two
    builds with the same non-zero code have the same platform and the
    same architecture. *)
Theorem get_platform_info_codes (pl pl' : Build.platform) (ar ar' : Build.arch) :
  0 <= Platform.get_platform_info pl ar <= 10 /\
  (Platform.get_platform_info pl ar = Platform.get_platform_info pl' ar' ->
   Platform.get_platform_info pl ar <> 0 -> pl = pl' /\ ar = ar').
Proof.
  split.
  - destruct pl, ar; cbn; lia.
  - destruct pl, ar, pl', ar'; cbn; intros E N; try discriminate; try contradiction;
      split; reflexivity.
Qed.

Lemma get_platform_info_codes_witness :
  Build.PLATFORM_LINUX = Build.PLATFORM_LINUX /\ Build.ARCH_ARM64 = Build.ARCH_ARM64.
Proof.
  apply (proj2 (get_platform_info_codes Build.PLATFORM_LINUX Build.PLATFORM_LINUX
                  Build.ARCH_ARM64 Build.ARCH_ARM64)); [reflexivity | discriminate].
Defined.

(** X10.  The platform chain of [assembly_kernels.h] tests
    [__linux__] before [__ANDROID__]: a build that predefines
    [__linux__], as an Android build does, never gets the Android codes
    9 and 10, and on 32-bit ARM it gets the Linux code 7. *)
Theorem android_reported_as_linux (p : Platform.predefined) :
  Platform.def__linux__ p = true ->
  Platform.platform_info_of p <> 9 /\ Platform.platform_info_of p <> 10 /\
  (Platform.def_WIN32 p = false -> Platform.def_WIN64 p = false ->
   Platform.def__APPLE__ p = false -> Platform.def__MACH__ p = false ->
   Platform.def__arm__ p = true -> Platform.def__x86_64__ p = false ->
   Platform.def_M_X64 p = false -> Platform.def__i386 p = false ->
   Platform.def_M_IX86 p = false ->
   Platform.platform_info_of p = 7).
Proof.
  intro HL. unfold Platform.platform_info_of, Platform.platform_of, Platform.arch_of.
  rewrite HL.
  split; [| split].
  - destruct (_ || _); [destruct (_ || _); [| destruct (_ || _); [| destruct (_ || _);
      [| destruct (Platform.def__aarch64__ p)]]]; cbn; discriminate |].
    destruct (Platform.def__APPLE__ p || _);
      (destruct (_ || _); [| destruct (_ || _); [| destruct (_ || _);
        [| destruct (Platform.def__aarch64__ p)]]]; cbn; discriminate).
  - destruct (_ || _); [destruct (_ || _); [| destruct (_ || _); [| destruct (_ || _);
      [| destruct (Platform.def__aarch64__ p)]]]; cbn; discriminate |].
    destruct (Platform.def__APPLE__ p || _);
      (destruct (_ || _); [| destruct (_ || _); [| destruct (_ || _);
        [| destruct (Platform.def__aarch64__ p)]]]; cbn; discriminate).
  - intros -> -> -> -> -> -> -> -> ->. reflexivity.
Qed.

Lemma android_reported_as_linux_witness :
  Platform.platform_info_of Scenarios.android_arm = 7.
Proof.
  pose proof (android_reported_as_linux Scenarios.android_arm eq_refl) as K.
  destruct K as (_ & _ & K).
  exact (K eq_refl eq_refl eq_refl eq_refl eq_refl eq_refl eq_refl eq_refl eq_refl).
Defined.

(** X11.  When the base CPUID query succeeds, the word returned by
    [detect_cpu_features] lies in [0 .. 255], and its flag 128 is set
    exactly when bit 5 of the leaf-7 [ebx] is (it is clear when the GNU
    variant cannot query leaf 7).  In the MSVC variant, and in the GNU
    variant when leaf 7 cannot be queried, the flags 1, 2, 4, 8, 16, 32
    and 64 are set exactly when [edx] bits 25, 26 and [ecx] bits 0, 9,
    19, 20, 28 of leaf 1 are.  In the GNU variant when leaf 7 answers,
    the second query has overwritten [ecx] and [edx], and these seven
    flags are set exactly when the same bit positions of the leaf-7
    [ecx] and [edx] are, whatever leaf 1 reported. *)
Theorem detect_cpu_features_table (cc : PipelineOpt.compiler) (c : PipelineOpt.cpu)
    (r1 : PipelineOpt.regs) :
  PipelineOpt.base_query cc c = Some r1 ->
  let f := PipelineOpt.detect_cpu_features cc c in
  let set flag := Z.land f flag <> 0 in
  let bit r k := Z.land r (Z.shiftl 1 k) <> 0 in
  let read_from ecx edx :=
    (set 1 <-> bit edx 25) /\ (set 2 <-> bit edx 26) /\
    (set 4 <-> bit ecx 0) /\ (set 8 <-> bit ecx 9) /\
    (set 16 <-> bit ecx 19) /\ (set 32 <-> bit ecx 20) /\
    (set 64 <-> bit ecx 28) in
  0 <= f < 256 /\
  (cc = PipelineOpt.MSVC ->
   read_from (PipelineOpt.ecx r1) (PipelineOpt.edx r1) /\
   (set 128 <-> bit (PipelineOpt.ebx (PipelineOpt.msvc_cpuid c 7)) 5)) /\
  (cc = PipelineOpt.GNU -> PipelineOpt.get_cpuid_count c 7 0 = None ->
   read_from (PipelineOpt.ecx r1) (PipelineOpt.edx r1) /\ ~ set 128) /\
  (forall r7, cc = PipelineOpt.GNU -> PipelineOpt.get_cpuid_count c 7 0 = Some r7 ->
   read_from (PipelineOpt.ecx r7) (PipelineOpt.edx r7) /\
   (set 128 <-> bit (PipelineOpt.ebx r7) 5)).
Proof.
  intros Hq f set bit read_from.
  assert (T : forall ebx ecx edx,
             f = PipelineOpt.feature_bits ebx ecx edx ->
             0 <= f < 256 /\ read_from ecx edx /\ (set 128 <-> bit ebx 5)).
  { intros ebx ecx edx E.
    destruct (DetectFacts.feature_bits_table ebx ecx edx)
      as (R & F1 & F2 & F4 & F8 & F16 & F32 & F64 & F128).
    cbv zeta in *. subst read_from set bit. cbv beta. rewrite E.
    split; [exact R |].
    split; [repeat (split; [assumption |]); assumption | assumption]. }
  destruct cc; cbn in Hq.
  - inversion Hq; subst r1. clear Hq.
    destruct (T (PipelineOpt.ebx (PipelineOpt.msvc_cpuid c 7))
                (PipelineOpt.ecx (PipelineOpt.msvc_cpuid c 1))
                (PipelineOpt.edx (PipelineOpt.msvc_cpuid c 1)) eq_refl) as (R & L & A).
    split; [exact R |]. split; [intros _; split; assumption |].
    split; [intros; discriminate | intros; discriminate].
  - destruct (PipelineOpt.get_cpuid_count c 7 0) as [r7 |] eqn:E7.
    + destruct (T (PipelineOpt.ebx r7) (PipelineOpt.ecx r7) (PipelineOpt.edx r7))
        as (R & L & A).
      { subst f. unfold PipelineOpt.detect_cpu_features. rewrite Hq, E7. reflexivity. }
      split; [exact R |]. split; [intros; discriminate |].
      split; [intros; discriminate |].
      intros r7' _ E. inversion E; subst r7'. split; assumption.
    + destruct (T 0 (PipelineOpt.ecx r1) (PipelineOpt.edx r1)) as (R & L & A).
      { subst f. unfold PipelineOpt.detect_cpu_features. rewrite Hq, E7. reflexivity. }
      split; [exact R |]. split; [intros; discriminate |].
      split; [| intros; discriminate].
      intros _ _. split; [exact L |].
      intro K. apply A in K. apply K. reflexivity.
Qed.

Lemma detect_cpu_features_table_witness :
  Z.land (PipelineOpt.ecx (PipelineOpt.mkRegs 0 2048 (Z.shiftl 1 20) (Z.shiftl 1 9)))
         (Z.shiftl 1 20) <> 0 /\
  ~ Z.land (PipelineOpt.detect_cpu_features PipelineOpt.GNU Scenarios.avx2_cpu) 32 <> 0.
Proof.
  pose proof (detect_cpu_features_table PipelineOpt.GNU Scenarios.avx2_cpu
                (PipelineOpt.mkRegs 0 2048 (Z.shiftl 1 20) (Z.shiftl 1 9)) eq_refl) as K.
  cbv zeta in K. destruct K as (_ & _ & _ & K).
  destruct (K (PipelineOpt.mkRegs 0 (Z.shiftl 1 5) 0 0) eq_refl eq_refl)
    as ((_ & _ & _ & _ & _ & K32 & _) & _).
  split; [vm_compute; discriminate |].
  intro F. apply K32 in F. apply F. reflexivity.
Defined.

(** X12.  [get_cache_line_size] returns a multiple of 8 between 8 and
    2040, whatever CPUID reports. *)
Theorem get_cache_line_size_range (cc : PipelineOpt.compiler) (c : PipelineOpt.cpu) :
  8 <= PipelineOpt.get_cache_line_size cc c <= 2040 /\
  PipelineOpt.get_cache_line_size cc c mod 8 = 0.
Proof.
  destruct (DetectFacts.cache_line_size_octets cc c) as (k & Hk & E).
  rewrite E. split; [lia |].
  rewrite Z.mul_comm. apply Z.mod_mul. lia.
Qed.

(** X13.  On an x86 build without [_MSC_VER], when both detectors
    see the same CPUID answers and [is_pipeline_opt_supported] returns
    2, [get_assembly_optimization_level] returns 2 as well, except on a
    build outside macOS compiled with [__AVX__] or [__SSE4_2__] but
    without [__AVX2__], where the macros cap it at 1. *)
Theorem pipeline_level_2_vs_assembly_level
    (c : PipelineOpt.cpu) (cpuid : AsmLevel.cpuid_insn) (b : Build.build) :
  PipelineOpt.get_cpuid c 1 = Some (cpuid 1 0) ->
  PipelineOpt.get_cpuid_count c 7 0 = Some (cpuid 7 0) ->
  (Build.b_arch b = Build.ARCH_X86_64 \/ Build.b_arch b = Build.ARCH_X86) ->
  Build.def_MSC_VER (Build.b_macros b) = false ->
  PipelineOpt.is_pipeline_opt_supported PipelineOpt.GNU c = 2 ->
  let m := Build.b_macros b in
  AsmLevel.get_assembly_optimization_level b cpuid =
  match Build.b_platform b with
  | Build.PLATFORM_MACOS => 2
  | _ => if Build.def_AVX2 m then 2
         else if Build.def_AVX m || Build.def_SSE4_2 m then 1
         else 2
  end.
Proof.
  intros H1 H7 Harch Hmsc Hlvl m. subst m.
  assert (Havx2 : Z.land (PipelineOpt.ebx (cpuid 7 0)) (Z.shiftl 1 5) <> 0).
  { pose proof (PipelineOptFacts.level_cases
                  (PipelineOpt.detect_cpu_features PipelineOpt.GNU c)
                  (PipelineOpt.detect_prefetch_support PipelineOpt.GNU c)) as K.
    cbv zeta in K. destruct K as (_ & K2 & _).
    apply K2 in Hlvl. destruct Hlvl as [Hf _].
    unfold PipelineOpt.detect_cpu_features in Hf. rewrite H1, H7 in Hf.
    apply (PipelineOptFacts.feature_bits_flags _ _ _) in Hf. exact Hf. }
  unfold AsmLevel.get_assembly_optimization_level, AsmLevel.bit_set. rewrite Hmsc.
  destruct (Z.eqb_spec (Z.land (PipelineOpt.ebx (cpuid 7 0)) (Z.shiftl 1 5)) 0); [contradiction |].
  destruct (Build.b_arch b) eqn:Ea;
    try (exfalso; destruct Harch; discriminate);
    destruct (Build.def_AVX2 (Build.b_macros b)), (Build.def_AVX (Build.b_macros b)),
      (Build.def_SSE4_2 (Build.b_macros b)), (Build.b_platform b); cbn;
    repeat match goal with |- context [if ?x then _ else _] => destruct x end;
    reflexivity.
Qed.

Lemma pipeline_level_2_vs_assembly_level_witness :
  AsmLevel.get_assembly_optimization_level Scenarios.linux_avx_build Scenarios.avx2_insn = 1.
Proof.
  pose proof (pipeline_level_2_vs_assembly_level Scenarios.avx2_cpu Scenarios.avx2_insn Scenarios.linux_avx_build
                eq_refl eq_refl (or_introl eq_refl) eq_refl eq_refl) as K.
  exact K.
Defined.

(** X14.  The text written by [get_cpu_features_string] fits its
    buffers: [cache_str] is shorter than its 32 bytes and the whole
    string is at most 80 characters, below the 256 of [features_str]. *)
Theorem features_string_fits (cc : PipelineOpt.compiler) (c : PipelineOpt.cpu) :
  (String.length (FeaturesString.cache_str cc c) < 32)%nat /\
  (String.length (fst (FeaturesString.get_cpu_features_string cc c EmptyString)) < 256)%nat /\
  (String.length (fst (FeaturesString.get_cpu_features_string cc c EmptyString)) <= 80)%nat.
Proof.
  pose proof (FeaturesStringFacts.decimal_cache_line cc c) as D.
  assert (L : (String.length (FeaturesString.cache_str cc c) <= 18)%nat).
  { unfold FeaturesString.cache_str. rewrite FeaturesStringFacts.length_append. cbn. lia. }
  assert (T : (String.length (FeaturesString.features_text cc c) <= 80)%nat).
  { unfold FeaturesString.features_text, FeaturesString.strcat_if. cbv zeta.
    fold (FeaturesString.cache_str cc c).
    rewrite FeaturesStringFacts.length_append.
    repeat match goal with |- context [if ?b then _ else _] => destruct b end;
      cbn [String.length String.append]; lia. }
  cbn [FeaturesString.get_cpu_features_string fst]. lia.
Qed.

(** X15.  The first call of [get_cpu_features_string] leaves a
    string that starts with [Features: ] in the static buffer, and every
    later call returns that string unchanged, whatever the processor
    reports then. *)
Theorem features_string_memoised
    (cc cc' : PipelineOpt.compiler) (c c' : PipelineOpt.cpu) :
  let first := FeaturesString.get_cpu_features_string cc c EmptyString in
  FeaturesString.get_cpu_features_string cc' c' (snd first) = first /\
  fst first = snd first /\
  prefix "Features: " (fst first) = true.
Proof.
  cbn [FeaturesString.get_cpu_features_string fst snd].
  assert (P : exists t, FeaturesString.features_text cc c = ("Features: " ++ t)%string).
  { unfold FeaturesString.features_text, FeaturesString.strcat_if. cbv zeta.
    repeat match goal with |- context [if ?b then _ else _] => destruct b end;
      eexists; cbn; reflexivity. }
  destruct P as (t & ->). cbn. repeat split; try reflexivity. destruct t; reflexivity.
Qed.

Import Brand.

(** X16.  The two loops at the end of [get_cpu_brand_string], run on
    a buffer that holds a C string of fewer than 64 characters, leave the
    string without its leading spaces and with every run of spaces
    reduced to one: the result does not start with a space, has no two
    spaces in a row, keeps the other characters in order, is not longer,
    and running the loops again changes nothing. *)
Theorem squeeze_spaces_result (m : buffer ascii) (l : list ascii) :
  holds m 0 l -> (List.length l < 64)%nat ->
  let r := cstring 64 (squeeze_spaces m) 0 in
  r = squeezed l /\
  match r with c :: _ => c <> SPACE | [] => True end /\
  single_spaced r = true /\
  filter not_space r = filter not_space l /\
  (List.length r <= List.length l)%nat /\
  cstring 64 (squeeze_spaces (squeeze_spaces m)) 0 = r.
Proof.
  intros H Hlen r.
  pose proof (BrandFacts.squeeze_spaces_holds m l H Hlen) as Hs.
  assert (Hl : (List.length (squeezed l) <= List.length l)%nat).
  { unfold squeezed. pose proof (BrandFacts.collapse_length NUL (skip_spaces l)).
    pose proof (BrandFacts.skip_spaces_length l). lia. }
  assert (Er : r = squeezed l) by (apply BrandFacts.cstring_holds; [exact Hs | lia]).
  rewrite Er. split; [reflexivity |]. split; [| split; [| split; [| split]]].
  - pose proof (BrandFacts.squeezed_head l) as K. destruct (squeezed l); [exact I |].
    intros ->. discriminate.
  - apply BrandFacts.collapse_single_spaced.
  - unfold squeezed. rewrite BrandFacts.collapse_keeps_letters.
    apply BrandFacts.skip_spaces_keeps_letters.
  - exact Hl.
  - rewrite <- (BrandFacts.squeezed_idempotent l).
    apply BrandFacts.cstring_holds; [| rewrite BrandFacts.squeezed_idempotent; lia].
    apply BrandFacts.squeeze_spaces_holds; [exact Hs | lia].
Qed.

Lemma squeeze_spaces_result_witness :
  cstring 64 (squeeze_spaces (store_bytes zeroed 0 Scenarios.padded_brand)) 0
  = squeezed Scenarios.padded_brand.
Proof.
  pose proof (squeeze_spaces_result (store_bytes zeroed 0 Scenarios.padded_brand) Scenarios.padded_brand) as K.
  assert (H : holds (store_bytes zeroed 0 Scenarios.padded_brand) 0 Scenarios.padded_brand).
  { exact (BrandStoreFacts.store_bytes_holds Scenarios.padded_brand zeroed eq_refl). }
  specialize (K H ltac:(cbn; lia)). cbv zeta in K. destruct K as [K _]. exact K.
Defined.

(** X17.  On its first call (zeroed static buffer)
    [get_cpu_brand_string] returns [Unknown CPU] when the extended
    leaves stop below 0x80000004, and otherwise the 48 brand bytes up to
    their first NUL, squeezed; the string has at most 48 characters, and
    once it is not empty every later call returns the buffer as it
    is. *)
Theorem get_cpu_brand_string_first_call (c c' : ext_cpu) :
  let b := get_cpu_brand_string c zeroed in
  let r := cstring 64 b 0 in
  (max_ext_id c < 0x80000004 -> r = list_ascii_of_string "Unknown CPU") /\
  (0x80000004 <= max_ext_id c -> r = squeezed (until_nul (brand_bytes c))) /\
  match r with ch :: _ => ch <> SPACE | [] => True end /\
  single_spaced r = true /\
  (List.length r <= 48)%nat /\
  (r <> [] -> get_cpu_brand_string c' b = b).
Proof.
  intros b r.
  assert (Hraw : exists l, (List.length l <= 48)%nat /\ holds b 0 (squeezed l) /\
                           (max_ext_id c < 0x80000004 -> l = list_ascii_of_string "Unknown CPU") /\
                           (0x80000004 <= max_ext_id c -> l = until_nul (brand_bytes c))).
  { subst b. unfold get_cpu_brand_string. cbn [zeroed negb]. 
    change (Ascii.eqb (zeroed 0) NUL) with true. cbn [negb].
    destruct (Z.leb_spec 0x80000004 (max_ext_id c)) as [Hge | Hlt].
    - exists (until_nul (brand_bytes c)).
      pose proof (BrandStoreFacts.until_nul_length (brand_bytes c)) as L.
      rewrite BrandStoreFacts.brand_bytes_length in L.
      split; [exact L |]. split; [| split; [intros; lia | reflexivity]].
      apply BrandFacts.squeeze_spaces_holds; [| lia].
      apply BrandStoreFacts.store_bytes_holds. reflexivity.
    - exists (list_ascii_of_string "Unknown CPU").
      split; [cbn; lia |]. split; [| split; [reflexivity | intros; lia]].
      apply BrandFacts.squeeze_spaces_holds; [| cbn; lia].
      unfold strcpy.
      apply (BrandStoreFacts.store_bytes_holds (list_ascii_of_string "Unknown CPU" ++ [NUL])).
      reflexivity. }
  destruct Hraw as (l & Hlen & Hh & Hu & Hb).
  assert (Hl : (List.length (squeezed l) <= List.length l)%nat).
  { unfold squeezed. pose proof (BrandFacts.collapse_length NUL (skip_spaces l)).
    pose proof (BrandFacts.skip_spaces_length l). lia. }
  assert (Er : r = squeezed l) by (apply BrandFacts.cstring_holds; [exact Hh | lia]).
  split; [intro Hlt; rewrite Er, (Hu Hlt); reflexivity |].
  split; [intro Hge; rewrite Er, (Hb Hge); reflexivity |].
  rewrite Er. split; [| split; [| split; [lia |]]].
  - pose proof (BrandFacts.squeezed_head l) as K. destruct (squeezed l); [exact I |].
    intros ->. discriminate.
  - apply BrandFacts.collapse_single_spaced.
  - intro Hne. unfold get_cpu_brand_string.
    destruct (squeezed l) as [| ch t] eqn:Es; [contradiction |].
    destruct (BrandFacts.holds_tail _ _ _ _ Hh) as (H0 & Hn & _).
    rewrite H0, (BrandFacts.eqb_NUL_false ch Hn). reflexivity.
Qed.

Lemma get_cpu_brand_string_first_call_witness :
  cstring 64 (get_cpu_brand_string Scenarios.no_ext zeroed) 0
  = list_ascii_of_string "Unknown CPU".
Proof.
  pose proof (get_cpu_brand_string_first_call Scenarios.no_ext Scenarios.no_ext) as K.
  cbv zeta in K. destruct K as [K _]. exact (K ltac:(cbn; lia)).
Defined.

Import MemoryProbes ProbeCalls.

(** X18.  Over any sequence of [mem_probe] calls the static peak is
    the maximum of its initial value and the readings of the calls that
    pass a result object (calls with a NULL result do not update it); it
    never decreases, alerts are only appended, and every result object
    has [current_memory <= peak_memory <=] the final peak. *)
Theorem static_peak_running_maximum (calls : list call) (w : world) :
  let '(outs, w') := mem_probe_calls calls w in
  static_peak w' = fold_left N.max (readings calls) (static_peak w) /\
  (static_peak w <= static_peak w')%N /\
  List.length outs = List.length calls /\
  (exists extra, alerts w' = alerts w ++ extra) /\
  Forall (fun out => match snd out with
                     | Some r => (current_memory r <= peak_memory r <= static_peak w')%N
                     | None => True
                     end) outs.
Proof.
  revert w. induction calls as [| [[o probe] res] rest IH]; intro w.
  - cbn. split; [reflexivity |]. split; [lia |]. split; [reflexivity |].
    split; [exists []; rewrite app_nil_r; reflexivity | constructor].
  - cbn [mem_probe_calls].
    destruct (mem_probe o probe res w) as [[e r] w1] eqn:E1.
    specialize (IH w1). destruct (mem_probe_calls rest w1) as [outs w2].
    destruct IH as (Hp & Hle & Hlen & (ex2 & Ha) & Hall).
    destruct (ProbeCallsFacts.mem_probe_world o probe res w) as (Hw & ex1 & Ha1).
    rewrite E1 in Hw, Ha1. cbn [snd] in Hw, Ha1.
    assert (Hr : readings ((o, probe, res) :: rest) =
                 match res with Some _ => current_mem o :: readings rest | None => readings rest end).
    { unfold readings. cbn. destruct res; reflexivity. }
    assert (Hfold : static_peak w2 =
                    fold_left N.max (readings ((o, probe, res) :: rest)) (static_peak w)).
    { rewrite Hp, Hr, Hw. destruct res; reflexivity. }
    split; [exact Hfold |].
    split; [destruct res; lia |].
    split; [cbn; rewrite Hlen; reflexivity |].
    split; [exists (ex1 ++ ex2); rewrite Ha, Ha1, app_assoc; reflexivity |].
    constructor; [| exact Hall].
    cbn [snd]. destruct res as [r0 |].
    + destruct (ProbeCallsFacts.mem_probe_peak_field o probe r0 w) as (r' & Er & Hc & Hpk).
      rewrite E1 in Er. cbn in Er. subst r. rewrite Hc, Hpk. lia.
    + assert (r = None); [| subst r; exact I].
      pose proof (f_equal (fun x => snd (fst x)) E1) as K. cbn in K. rewrite <- K.
      unfold mem_probe. destruct probe as [p |]; cbn;
        try destruct ((0 <? threshold p)%N && (threshold p <? current_mem o)%N); reflexivity.
Qed.

(** X19.  [mem_probe] overwrites the result object completely: the
    outcome does not depend on what the object held before, its
    timestamp and available memory are those of the call, its
    [threshold_exceeded] is the returned value, and [error_code] is
    always 0. *)
Theorem mem_probe_result_overwritten (o : os) (probe : option MemoryProbe)
    (r0 r0' : MemoryProbeResult) (w : world) :
  mem_probe o probe (Some r0) w = mem_probe o probe (Some r0') w /\
  exists r, snd (fst (mem_probe o probe (Some r0) w)) = Some r /\
            r_timestamp r = time_now o /\
            available_memory r = available_mem o /\
            error_code r = 0 /\
            threshold_exceeded r = fst (fst (mem_probe o probe (Some r0) w)).
Proof.
  split; [reflexivity |].
  unfold mem_probe. destruct probe as [p |]; cbn;
    try destruct ((0 <? threshold p)%N && (threshold p <? current_mem o)%N); cbn;
    eexists; repeat split.
Qed.

(** X20.  NULL arguments of [mem_probe]: with both pointers NULL the
    call returns 0 and changes nothing; with a NULL probe it returns 0
    and writes no alert; the returned value and the alerts are the same
    with and without a result object, and without one the static peak is
    left alone. *)
Theorem mem_probe_null_arguments (o : os) (probe : option MemoryProbe)
    (res : option MemoryProbeResult) (w : world) :
  mem_probe o None None w = (0, None, w) /\
  fst (fst (mem_probe o None res w)) = 0 /\
  alerts (snd (mem_probe o None res w)) = alerts w /\
  fst (fst (mem_probe o probe None w)) = fst (fst (mem_probe o probe res w)) /\
  alerts (snd (mem_probe o probe None w)) = alerts (snd (mem_probe o probe res w)) /\
  snd (fst (mem_probe o probe None w)) = None /\
  static_peak (snd (mem_probe o probe None w)) = static_peak w.
Proof.
  unfold mem_probe. destruct w as [pk al].
  destruct res as [r0 |], probe as [p |]; cbn;
    try destruct ((0 <? threshold p)%N && (threshold p <? current_mem o)%N); cbn;
    try destruct (name p); cbn; repeat split.
Qed.

(** X21.  [fast_mem_check] alerts exactly when
    [check_memory_usage] flags, for a positive threshold; with threshold
    0 [check_memory_usage] never flags, while [fast_mem_check] alerts
    whenever the reading is not 0. *)
Theorem fast_mem_check_vs_probe (o : os) (nm : option string) (threshold : N)
    (res : option MemoryProbeResult) (w : world) :
  let flagged := fst (fst (check_memory_usage o nm threshold res w)) =? 1 in
  ((0 < threshold)%N -> fast_mem_check o threshold = flagged) /\
  (threshold = 0%N -> flagged = false /\
                      fast_mem_check o threshold = negb (current_mem o =? 0)%N).
Proof.
  intro flagged. subst flagged. unfold check_memory_usage.
  rewrite MemoryProbesFacts.mem_probe_flag. cbn [MemoryProbes.threshold].
  unfold fast_mem_check. split.
  - intro Hpos. destruct (N.ltb_spec 0 threshold); [| lia]. cbn.
    destruct (threshold <? current_mem o)%N; reflexivity.
  - intros ->. cbn. split; [reflexivity |].
    destruct (N.ltb_spec 0 (current_mem o)), (N.eqb_spec (current_mem o) 0); cbn;
      try reflexivity; lia.
Qed.

Lemma fast_mem_check_vs_probe_witness :
  fast_mem_check (mkOs 300 1000 0) 0 = true /\
  fst (fst (check_memory_usage (mkOs 300 1000 0) (Some "decode"%string) 0 None (mkWorld 0 []))) = 0.
Proof.
  pose proof (fast_mem_check_vs_probe (mkOs 300 1000 0) (Some "decode"%string) 0 None
                (mkWorld 0 [])) as K.
  cbv zeta in K. destruct K as [_ K]. specialize (K eq_refl). destruct K as [K1 K2].
  split; [exact K2 | reflexivity].
Defined.

Import ProcFs.

(** X22.  [current_mem] and [available_mem] (non-Windows branch).  Let
    the file consist of complete lines, each of at most 127 characters
    with its newline and none starting with the key, followed by the
    key ([VmRSS:] or [MemAvailable:]), blanks (spaces or tabs), the
    decimal digits of [kb], [0 <= kb < 2^63], and then a character that
    is not a digit, or nothing.  When the key, the blanks and the digits
    together are at most 127 characters, which is what one [fgets] into
    the 128-byte [line] delivers, the function returns [kb / 1024]. *)
Theorem proc_field_parsed (pre : list (list ascii)) (ws rest : list ascii) (kb : Z) :
  forallb blank ws = true ->
  0 <= kb < 2 ^ 63 ->
  isdigit (hd NUL rest) = false ->
  ((6 + List.length ws + List.length (decimal kb) <= 127)%nat ->
   Forall (fun l => whole_line l = true /\
                    strncmp_eq 6 l (list_ascii_of_string "VmRSS:") = false) pre ->
   current_mem (Some (file_with pre (list_ascii_of_string "VmRSS:") ws kb rest)) = kb / 1024) /\
  ((13 + List.length ws + List.length (decimal kb) <= 127)%nat ->
   Forall (fun l => whole_line l = true /\
                    strncmp_eq 13 l (list_ascii_of_string "MemAvailable:") = false) pre ->
   available_mem (Some (file_with pre (list_ascii_of_string "MemAvailable:") ws kb rest))
   = kb / 1024).
Proof.
  intros Hws Hkb Hrest.
  assert (Hu : to_uint64 kb = kb).
  { unfold to_uint64. apply Z.mod_small. lia. }
  split; intros Hlen Hpre; unfold current_mem, available_mem, file_with.
  - rewrite (ProcFsFacts.scan_skips _ 6 0 pre _ Hpre).
    rewrite (ProcFsFacts.scan_field (list_ascii_of_string "VmRSS:") ws rest 6 kb 0);
      [rewrite Hu; reflexivity
      | first [reflexivity | assumption | lia | (intro t; reflexivity) | (cbn; lia)] ..].
  - rewrite (ProcFsFacts.scan_skips _ 13 0 pre _ Hpre).
    rewrite (ProcFsFacts.scan_field (list_ascii_of_string "MemAvailable:") ws rest 13 kb 0);
      [rewrite Hu; reflexivity
      | first [reflexivity | assumption | lia | (intro t; reflexivity) | (cbn; lia)] ..].
Qed.

Lemma proc_field_parsed_witness :
  current_mem (Some (file_with Scenarios.status_head (list_ascii_of_string "VmRSS:")
                       Scenarios.status_blanks 204800 Scenarios.status_tail)) = 200.
Proof.
  pose proof (proc_field_parsed Scenarios.status_head Scenarios.status_blanks
                Scenarios.status_tail 204800
                ltac:(reflexivity) ltac:(lia) ltac:(reflexivity)) as K.
  destruct K as [K _]. apply K; [cbn; lia |].
  constructor; [split; reflexivity | constructor].
Defined.

(** X23.  When /proc/self/status cannot be opened, or consists only of
    complete lines, each of at most 127 characters with its newline (so
    that one [fgets] delivers it whole) and none starting with
    [VmRSS:], [mem_probe] takes the reading to be 0: it returns 0
    whatever the threshold, writes no alert, leaves the peak as it was,
    and reports no error in the result object. *)
Theorem unreadable_status_never_flags
    (status meminfo : option (list ascii)) (now : N) (pre : list (list ascii))
    (probe : option MemoryProbe) (res : option MemoryProbeResult) (w : world) :
  status = None \/
  (status = Some (List.concat pre) /\
   Forall (fun l => whole_line l = true /\
                    strncmp_eq 6 l (list_ascii_of_string "VmRSS:") = false) pre) ->
  let out := mem_probe (os_of status meminfo now) probe res w in
  fst (fst out) = 0 /\
  alerts (snd out) = alerts w /\
  static_peak (snd out) = static_peak w /\
  match snd (fst out) with
  | Some r => current_memory r = 0%N /\ threshold_exceeded r = 0 /\ error_code r = 0
  | None => True
  end.
Proof.
  intros H out.
  assert (E : MemoryProbes.current_mem (os_of status meminfo now) = 0%N).
  { unfold os_of. cbn [MemoryProbes.current_mem].
    destruct H as [-> | [-> Hpre]]; [reflexivity |].
    unfold ProcFs.current_mem.
    pose proof (ProcFsFacts.scan_skips (list_ascii_of_string "VmRSS:") 6 0 pre [] Hpre) as K.
    rewrite app_nil_r in K. rewrite K. reflexivity. }
  subst out. unfold mem_probe. rewrite E.
  assert (M : forall x, (x <? 0)%N = false) by (intro x; apply N.ltb_ge; lia).
  rewrite !M.
  destruct w as [pk al].
  destruct res as [r0 |], probe as [p |]; cbn;
    rewrite ?M, ?andb_false_r; cbn; repeat split.
Qed.

Lemma unreadable_status_never_flags_witness :
  fst (fst (mem_probe (os_of None None 7)
              (Some (mkProbe (Some "decode"%string) None 1 0 2)) None (mkWorld 5 []))) = 0.
Proof.
  pose proof (unreadable_status_never_flags None None 7 []
                (Some (mkProbe (Some "decode"%string) None 1 0 2)) None (mkWorld 5 [])
                (or_introl eq_refl)) as K.
  cbv zeta in K. destruct K as [K _]. exact K.
Defined.

